(** * aether-build: the build/serve engine, embedded and verified

    A shallow embedding of the TypeScript sources

      - [src/plugins.ts]            the plugin pipeline ([applyPluginHook]),
      - [src/utils/dependency.ts]   import extraction and specifier resolution,
      - [src/utils/file.ts]         the file helpers,
      - [src/config.ts]             the search for the configuration file,
                                    its loading and the merge,
      - [src/cli.ts]                the overrides of the commands,
      - [src/build.ts]              the recursive build orchestrator,
      - [src/server.ts]             the development server and its watcher,
      - [src/hmr/runtime.ts], [src/hmr/client.ts]   the hot-update runtime,

    followed by the properties the specification states about them.

    Conventions of the embedding.
      - JavaScript strings are modelled by [string]: a character stands
        for the UTF-16 code unit of the same number, 0 to 255.  Text with a
        code unit above 255 is outside the model (the delimiters the
        sources inspect are ASCII; of the characters above 255 the regular
        expressions treat U+2028, U+2029, U+FEFF and the Unicode spaces
        specially).
      - An [async] function is a computation in the monad [M]: it threads the
        process state ([World]: file system, clock, console/hook/socket
        trace) and either returns, throws, or runs out of fuel.  [await]
        is sequencing: the sources never start two traversals concurrently.
      - A plugin hook is foreign code.  It is modelled by a function from its
        argument to an outcome (a returned value or a thrown error); every
        invocation is recorded in the trace, so the order and the number of
        calls are observable.
      - [node:path] and [node:fs] are modelled by their POSIX behaviour on a
        finite map from paths to files and directories. *)

From Stdlib Require Import Ascii ssreflect.
From stdpp Require Import gmap strings list fin_maps fin_sets pretty.

#[local] Set Warnings "-rewrite-rw,-clear-no-such-hyp".

(* ===================================================================== *)
(** * JavaScript strings *)
(* ===================================================================== *)

Module Js.

(** The double quote and the line feed, which a literal cannot spell. *)
Definition dquote : ascii := Ascii.ascii_of_nat 34.
Definition newline : ascii := Ascii.ascii_of_nat 10.
Definition str (c : ascii) : string := String c "".

(** [s.startsWith(p)] *)
Definition startsWith (s p : string) : bool := String.prefix p s.

(** [s.endsWith(p)] *)
Definition endsWith (s p : string) : bool :=
  String.prefix (String.rev p) (String.rev s).

(** [s.indexOf(p)], searched from the left. *)
Fixpoint indexOf (s p : string) : option nat :=
  if String.prefix p s then Some 0
  else match s with
       | "" => None
       | String _ s' => S <$> indexOf s' p
       end.

(** [s.includes(p)] *)
Definition includes (s p : string) : bool := bool_decide (is_Some (indexOf s p)).

(** [s.slice(n)] for [0 <= n]. *)
Fixpoint sliceFrom (n : nat) (s : string) : string :=
  match n, s with
  | 0, _ => s
  | S n', String _ s' => sliceFrom n' s'
  | S _, "" => ""
  end.

(** [s.slice(0, n)] for [0 <= n]. *)
Fixpoint sliceTo (n : nat) (s : string) : string :=
  match n, s with
  | S n', String c s' => String c (sliceTo n' s')
  | _, _ => ""
  end.

(** [s.replace(pat, rep)] with a string pattern: only the first occurrence
    is replaced.  (The replacement strings of the sources contain no [$].) *)
Definition replaceFirst (s pat rep : string) : string :=
  match indexOf s pat with
  | Some i => sliceTo i s +:+ rep +:+ sliceFrom (i + String.length pat) s
  | None => s
  end.

Definition lowerChar (c : ascii) : ascii :=
  let n := Ascii.nat_of_ascii c in
  if bool_decide (65 ≤ n ≤ 90) then Ascii.ascii_of_nat (n + 32) else c.

(** [s.toLowerCase()] on ASCII text. *)
Fixpoint toLowerCase (s : string) : string :=
  match s with
  | "" => ""
  | String c s' => String (lowerChar c) (toLowerCase s')
  end.

(** Truthiness of a string: only the empty string is falsy. *)
Definition truthy (s : string) : bool :=
  match s with "" => false | _ => true end.

(** [xs.join(sep)] *)
Fixpoint join (sep : string) (xs : list string) : string :=
  match xs with
  | [] => ""
  | [x] => x
  | x :: xs' => x +:+ sep +:+ join sep xs'
  end.

Fixpoint chars (s : string) : list ascii :=
  match s with "" => [] | String c s' => c :: chars s' end.

Fixpoint unchars (l : list ascii) : string :=
  match l with [] => "" | c :: l' => String c (unchars l') end.

End Js.

(* ===================================================================== *)
(** * [node:path], POSIX flavour *)
(* ===================================================================== *)

Module Path.

Definition slash : ascii := "/"%char.
Definition dot : ascii := "."%char.

Fixpoint split_go (cur : string) (s : string) : list string :=
  match s with
  | "" => [String.rev cur]
  | String c s' =>
      if Ascii.eqb c slash then String.rev cur :: split_go "" s'
      else split_go (String c cur) s'
  end.

(** [s.split('/')] *)
Definition split (s : string) : list string := split_go "" s.

(** [normalizeString]: drops empty and [.] segments and resolves [..];
    [acc] holds the kept segments, innermost first. *)
Fixpoint normalizeSegs (allowAboveRoot : bool) (acc : list string)
    (segs : list string) : list string :=
  match segs with
  | [] => reverse acc
  | seg :: rest =>
      if bool_decide (seg = "" ∨ seg = ".") then normalizeSegs allowAboveRoot acc rest
      else if bool_decide (seg = "..") then
        match acc with
        | top :: acc' =>
            if bool_decide (top = "..")
            then normalizeSegs allowAboveRoot (".." :: acc) rest
            else normalizeSegs allowAboveRoot acc' rest
        | [] =>
            if allowAboveRoot then normalizeSegs allowAboveRoot [".."] rest
            else normalizeSegs allowAboveRoot [] rest
        end
      else normalizeSegs allowAboveRoot (seg :: acc) rest
  end.

Definition normalizeString (p : string) (allowAboveRoot : bool) : string :=
  Js.join "/" (normalizeSegs allowAboveRoot [] (split p)).

(** [path.isAbsolute] *)
Definition isAbsolute (p : string) : bool := Js.startsWith p "/".

(** [path.normalize] *)
Definition normalize (p : string) : string :=
  if bool_decide (p = "") then "."
  else
    let abs := isAbsolute p in
    let trailing := Js.endsWith p "/" in
    let q := normalizeString p (negb abs) in
    if bool_decide (q = "") then
      (if abs then "/" else if trailing then "./" else ".")
    else
      let q := if trailing then q +:+ "/" else q in
      if abs then "/" +:+ q else q.

(** [path.join(...parts)] *)
Definition join (parts : list string) : string :=
  match filter (λ s, s ≠ "") parts with
  | [] => "."
  | ps => normalize (Js.join "/" ps)
  end.

(** The loop of [path.resolve], from the last argument to the first:
    [acc] is the path resolved so far. *)
Fixpoint resolve_go (rparts : list string) (acc : string) : string * bool :=
  match rparts with
  | [] => (acc, false)
  | p :: rest =>
      if bool_decide (p = "") then resolve_go rest acc
      else
        let acc' := p +:+ "/" +:+ acc in
        if isAbsolute p then (acc', true) else resolve_go rest acc'
  end.

(** [path.resolve(...parts)] in a process whose working directory is [cwd]
    (an absolute path). *)
Definition resolve (cwd : string) (parts : list string) : string :=
  let '(raw, abs) := resolve_go (reverse (cwd :: parts)) "" in
  let q := normalizeString raw (negb abs) in
  if abs then "/" +:+ q
  else if bool_decide (q = "") then "." else q.

(** The backwards scan of [path.dirname] over the characters at index
    [i], [i-1], ..., [1]. *)
Fixpoint dirname_scan (rtail : list ascii) (i : nat) (matchedSlash : bool)
    : option nat :=
  match rtail with
  | [] => None
  | c :: rest =>
      if Ascii.eqb c slash then
        (if matchedSlash then dirname_scan rest (pred i) true else Some i)
      else dirname_scan rest (pred i) false
  end.

(** [path.dirname] *)
Definition dirname (p : string) : string :=
  match Js.chars p with
  | [] => "."
  | c0 :: tl =>
      let hasRoot := Ascii.eqb c0 slash in
      match dirname_scan (reverse tl) (length tl) true with
      | None => if hasRoot then "/" else "."
      | Some e => if hasRoot && bool_decide (e = 1) then "//" else Js.sliceTo e p
      end
  end.

(** State of the backwards scan of [path.extname]. *)
Record ExtScan := {
  startDot : option nat;
  startPart : nat;
  endIdx : option nat;
  matchedSlash : bool;
  preDotState : Z;
  stopped : bool
}.

Definition extname_step (st : ExtScan) (ic : nat * ascii) : ExtScan :=
  let '(i, c) := ic in
  if stopped st then st
  else if Ascii.eqb c slash then
    (if matchedSlash st then st
     else {| startDot := startDot st; startPart := S i; endIdx := endIdx st;
             matchedSlash := matchedSlash st; preDotState := preDotState st;
             stopped := true |})
  else
    let st1 :=
      match endIdx st with
      | None => {| startDot := startDot st; startPart := startPart st;
                   endIdx := Some (S i); matchedSlash := false;
                   preDotState := preDotState st; stopped := false |}
      | Some _ => st
      end in
    if Ascii.eqb c dot then
      match startDot st1 with
      | None => {| startDot := Some i; startPart := startPart st1;
                   endIdx := endIdx st1; matchedSlash := matchedSlash st1;
                   preDotState := preDotState st1; stopped := false |}
      | Some _ =>
          if bool_decide (preDotState st1 ≠ 1%Z)
          then {| startDot := startDot st1; startPart := startPart st1;
                  endIdx := endIdx st1; matchedSlash := matchedSlash st1;
                  preDotState := 1; stopped := false |}
          else st1
      end
    else
      match startDot st1 with
      | Some _ => {| startDot := startDot st1; startPart := startPart st1;
                     endIdx := endIdx st1; matchedSlash := matchedSlash st1;
                     preDotState := (-1); stopped := false |}
      | None => st1
      end.

(** [path.extname] *)
Definition extname (p : string) : string :=
  let cs := Js.chars p in
  let indexed := reverse (imap (λ i c, (i, c)) cs) in
  let st := foldl extname_step
              {| startDot := None; startPart := 0; endIdx := None;
                 matchedSlash := true; preDotState := 0; stopped := false |}
              indexed in
  match startDot st, endIdx st with
  | Some sd, Some e =>
      if bool_decide (preDotState st = 0%Z)
         || (bool_decide (preDotState st = 1%Z) && bool_decide (sd = e - 1)
             && bool_decide (sd = startPart st + 1))
      then ""
      else Js.sliceTo (e - sd) (Js.sliceFrom sd p)
  | _, _ => ""
  end.

Fixpoint dropCommon (a b : list string) : list string * list string :=
  match a, b with
  | x :: a', y :: b' => if bool_decide (x = y) then dropCommon a' b' else (a, b)
  | _, _ => (a, b)
  end.

(** [path.relative(from, to)]: both are resolved first; the result climbs
    out of what is left of [from] and descends into what is left of [to]. *)
Definition relative (cwd from to : string) : string :=
  let f := resolve cwd [from] in
  let t := resolve cwd [to] in
  if bool_decide (f = t) then ""
  else
    let segs s := filter (λ x, x ≠ "") (split s) in
    let '(fr, tr) := dropCommon (segs f) (segs t) in
    Js.join "/" (((λ _, "..") <$> fr) ++ tr).



End Path.

(* ===================================================================== *)
(** * Regular expressions of the sources *)
(* ===================================================================== *)

(** A backtracking matcher with JavaScript's priorities (greedy quantifiers,
    leftmost start position).  The quantifiers of the sources range over
    character classes only, so the matcher is structurally recursive. *)
Module Regex.

Inductive re :=
| Chr (p : ascii → bool)        (* one character of a class *)
| Lit (s : string)              (* a literal word *)
| Seq (a b : re)
| Alt (a b : re)                (* a | b *)
| Opt (a : re)                  (* (?: a )? *)
| Star (p : ascii → bool)       (* [class]* *)
| Plus (p : ascii → bool)       (* [class]+ *)
| Cap (a : re)                  (* the capture group *)
| Eoi.                          (* $ without the multiline flag *)

(** Result of a match: the capture and the input left after the match. *)
Definition Hit : Type := option string * list ascii.
Definition Cont : Type := list ascii → option string → option Hit.

Fixpoint star (p : ascii → bool) (k : Cont) (cap : option string)
    (s : list ascii) : option Hit :=
  match s with
  | c :: s' =>
      if p c then
        match star p k cap s' with
        | Some h => Some h
        | None => k s cap
        end
      else k s cap
  | [] => k [] cap
  end.

Fixpoint stripPrefix (l : list ascii) (s : list ascii) : option (list ascii) :=
  match l, s with
  | [], _ => Some s
  | a :: l', c :: s' => if Ascii.eqb a c then stripPrefix l' s' else None
  | _ :: _, [] => None
  end.

Fixpoint run (r : re) (s : list ascii) (cap : option string) (k : Cont)
    : option Hit :=
  match r with
  | Chr p =>
      match s with
      | c :: s' => if p c then k s' cap else None
      | [] => None
      end
  | Lit l =>
      match stripPrefix (Js.chars l) s with
      | Some s' => k s' cap
      | None => None
      end
  | Seq a b => run a s cap (λ s' cap', run b s' cap' k)
  | Alt a b =>
      match run a s cap k with
      | Some h => Some h
      | None => run b s cap k
      end
  | Opt a =>
      match run a s cap k with
      | Some h => Some h
      | None => k s cap
      end
  | Star p => star p k cap s
  | Plus p =>
      match s with
      | c :: s' => if p c then star p k cap s' else None
      | [] => None
      end
  | Cap a =>
      run a s cap
        (λ s' _, k s' (Some (Js.unchars (take (length s - length s') s))))
  | Eoi =>
      match s with
      | [] => k [] cap
      | _ :: _ => None
      end
  end.

(** [re.exec] from the current position: the leftmost match. *)
Fixpoint exec (r : re) (s : list ascii) : option Hit :=
  match run r s None (λ rest cap, Some (cap, rest)) with
  | Some h => Some h
  | None =>
      match s with
      | [] => None
      | _ :: s' => exec r s'
      end
  end.

(** [while ((match = re.exec(code)) !== null) out.push(match[1])] for a
    global expression: every match resumes where the previous one ended.
    The expressions of the sources consume at least one character per
    match, so [fuel] larger than the input length is never exhausted. *)
Fixpoint captures (fuel : nat) (r : re) (s : list ascii) : list string :=
  match fuel with
  | 0 => []
  | S fuel' =>
      match exec r s with
      | None => []
      | Some (cap, rest) => default "" cap :: captures fuel' r rest
      end
  end.

Definition allCaptures (r : re) (code : string) : list string :=
  captures (S (String.length code)) r (Js.chars code).

(** [re.test(s)] *)
Definition test (r : re) (s : string) : bool :=
  bool_decide (is_Some (exec r (Js.chars s))).

Fixpoint seq (rs : list re) : re :=
  match rs with
  | [] => Lit ""
  | [r] => r
  | r :: rs' => Seq r (seq rs')
  end.

Fixpoint alt (rs : list re) : re :=
  match rs with
  | [] => Chr (λ _, false)
  | [r] => r
  | r :: rs' => Alt r (alt rs')
  end.

(** Character classes. *)
Definition code (c : ascii) : nat := Ascii.nat_of_ascii c.
Definition oneOf (s : string) (c : ascii) : bool := bool_decide (c ∈ Js.chars s).

(** [\s] among the code units below 256: TAB, LF, VT, FF, CR, SPACE and
    the no-break space U+00A0. *)
Definition space (c : ascii) : bool :=
  bool_decide (9 ≤ code c ≤ 13) || bool_decide (code c = 32)
  || bool_decide (code c = 160).
(** [\w] *)
Definition word (c : ascii) : bool :=
  bool_decide (48 ≤ code c ≤ 57) || bool_decide (65 ≤ code c ≤ 90)
  || bool_decide (97 ≤ code c ≤ 122) || bool_decide (code c = 95).
(** [.] among the code units below 256: anything but LF and CR. *)
Definition anyChar (c : ascii) : bool :=
  negb (bool_decide (code c = 10) || bool_decide (code c = 13)).
Definition isDquote (c : ascii) : bool := bool_decide (code c = 34).

(** Every capture group of [r] is a run [[class]+] of characters that
    satisfy [P]. *)
Fixpoint capturesWithin (P : ascii → bool) (r : re) : Prop :=
  match r with
  | Cap (Plus p) => ∀ c, p c = true → P c = true
  | Cap _ => False
  | Seq a b | Alt a b => capturesWithin P a ∧ capturesWithin P b
  | Opt a => capturesWithin P a
  | _ => True
  end.

(** A capture made of characters that satisfy [P] (or no capture). *)
Definition captureWithin (P : ascii → bool) (cap : option string) : Prop :=
  ∀ m, cap = Some m → ∀ c, c ∈ Js.chars m → P c = true.

End Regex.

(* ===================================================================== *)
(** * [src/utils/dependency.ts]: import extraction *)
(* ===================================================================== *)

Module Extract.
Import Regex.

(** The class of both straight quotes and white space. *)
Definition quoteOrSpace (c : ascii) : bool :=
  isDquote c || oneOf "'" c || space c.
(** The class of an import clause: word characters, [*], [$], braces,
    line breaks, TAB, comma and space. *)
Definition bindingChar (c : ascii) : bool :=
  word c || oneOf "*${}, " c
  || bool_decide (code c = 10) || bool_decide (code c = 13)
  || bool_decide (code c = 9).
(** The class of a specifier: [@], word characters, white space, [.],
    [/], [-] and [$]. *)
Definition specChar (c : ascii) : bool :=
  word c || space c || oneOf "@./-$" c.
(** The class of the three quote characters. *)
Definition anyQuote (c : ascii) : bool :=
  isDquote c || oneOf "'`" c.

Definition IMPORT_RE : re :=
  seq [ Lit "import";
        Opt (seq [Star quoteOrSpace; Plus bindingChar; Lit "from"; Star space]);
        Chr quoteOrSpace;
        Cap (Plus specChar);
        Chr quoteOrSpace; Star anyChar ].

Definition DYNAMIC_IMPORT_RE : re :=
  seq [ Lit "import("; Chr anyQuote; Cap (Plus specChar); Chr anyQuote; Lit ")" ].

Definition EXPORT_FROM_RE : re :=
  seq [ Lit "export"; Plus space; Plus bindingChar; Plus space; Lit "from";
        Plus space; Chr anyQuote; Cap (Plus specChar); Chr anyQuote ].

Definition REQUIRE_RE : re :=
  seq [ Lit "require("; Star space; Chr anyQuote; Cap (Plus specChar);
        Chr anyQuote; Star space; Lit ")" ].

(** [set.add(x)] on an insertion-ordered [Set]. *)
Definition setAdd (acc : list string) (x : string) : list string :=
  if bool_decide (x ∈ acc) then acc else acc ++ [x].

(** [extractImports] *)
Definition extractImports (code : string) : list string :=
  let imports := [] in
  let imports := foldl setAdd imports (allCaptures IMPORT_RE code) in
  let imports := foldl setAdd imports (allCaptures DYNAMIC_IMPORT_RE code) in
  let imports := foldl setAdd imports (allCaptures EXPORT_FROM_RE code) in
  let imports := foldl setAdd imports (allCaptures REQUIRE_RE code) in
  imports.

End Extract.

(* ===================================================================== *)
(** * Values, configuration, plugins *)
(* ===================================================================== *)

(** A thrown value. *)
Inductive Exn := Error (message : string).

(** A source map object, kept as its JSON text. *)
Definition SourceMap : Type := string.

(** What a hook may hand back: [null], nothing, a string, or a
    [{ code, map? }] object. *)
Inductive JsVal :=
| VNull
| VUndefined
| VString (s : string)
| VCodeMap (code : string) (map : option SourceMap).

(** [v !== null && v !== undefined] *)
Definition notNullish (v : JsVal) : bool :=
  match v with
  | VNull | VUndefined => false
  | _ => true
  end.

(** [if (v)]: [null], [undefined] and the empty string are falsy; objects
    and non-empty strings are truthy. *)
Definition truthy (v : JsVal) : bool :=
  match v with
  | VNull | VUndefined => false
  | VString s => Js.truthy s
  | VCodeMap _ _ => true
  end.

(** [config.entry]: a string, an array, a name-to-path object; JavaScript
    also lets [null] and values of other types through. *)
Inductive EntryConfig :=
| EntryString (e : string)
| EntryArray (es : list string)
| EntryObject (es : list (string * string))
| EntryNull
| EntryOther.

Record ServerConfig := {
  port : option nat;
  host : option string;
  watch : option (list string)
}.

(** [AetherConfig] ([src/config.ts]), the fields the engine reads.
    [config.plugins] travels next to this record: the hooks receive the
    configuration, so it cannot contain them. *)
Record AetherConfig := {
  entry : EntryConfig;
  outDir : string;
  server : option ServerConfig;
  optimize_sourcemap : bool;                 (* truthiness of optimize?.sourcemap *)
  alias : option (gmap string string);
  resolve_extensions : option (list string);
  debug_verbose : bool                       (* truthiness of debug?.verbose *)
}.

(** An entry of [ctx.outputs]. *)
Record Output := { out_code : string; out_map : option SourceMap }.

Record BuildContext := {
  bc_config : AetherConfig;
  bc_filePath : string;
  bc_content : string;
  bc_code : string;
  bc_map : option SourceMap
}.

Record ResolveContext := {
  rc_config : AetherConfig;
  rc_importer : string;
  rc_source : string
}.

(** The argument a hook is called with. *)
Inductive HookArg :=
| ArgConfig (config : AetherConfig)                          (* { config } *)
| ArgBuild (ctx : BuildContext)
| ArgBuildEnd (config : AetherConfig) (outputs : list (string * Output))
| ArgResolve (ctx : ResolveContext)
| ArgDevServer (config : AetherConfig) (port : nat) (host : string)
| ArgWatchChange (id : string)                               (* (id, { event: 'update' }) *)
| ArgHotUpdate (file : string)                               (* { file, server } *)
| ArgNone.                                                   (* () *)

Inductive Outcome := Returned (v : JsVal) | Thrown (e : Exn).

Definition Hook : Type := HookArg → Outcome.

(** [interface Plugin] *)
Record Plugin := {
  name : string;
  configResolved : option Hook;
  configureServer : option Hook;
  buildStart : option Hook;
  transform : option Hook;
  resolveId : option Hook;
  load : option Hook;
  buildEnd : option Hook;
  configureDevServer : option Hook;
  handleHotUpdate : option Hook;
  watchChange : option Hook;
  closeBundle : option Hook
}.

(** [keyof Plugin] *)
Inductive HookName :=
| KName | KConfigResolved | KConfigureServer | KBuildStart | KTransform
| KResolveId | KLoad | KBuildEnd | KConfigureDevServer | KHandleHotUpdate
| KWatchChange | KCloseBundle.

Global Instance HookName_eq_dec : EqDecision HookName.
Proof. solve_decision. Defined.

(** [String(hookName)] *)
Definition hookNameString (h : HookName) : string :=
  match h with
  | KName => "name"
  | KConfigResolved => "configResolved"
  | KConfigureServer => "configureServer"
  | KBuildStart => "buildStart"
  | KTransform => "transform"
  | KResolveId => "resolveId"
  | KLoad => "load"
  | KBuildEnd => "buildEnd"
  | KConfigureDevServer => "configureDevServer"
  | KHandleHotUpdate => "handleHotUpdate"
  | KWatchChange => "watchChange"
  | KCloseBundle => "closeBundle"
  end.

(** [plugin[hookName]], when [typeof] it is ['function']: [name] is a
    string and never qualifies. *)
Definition hookOf (plugin : Plugin) (hookName : HookName) : option Hook :=
  match hookName with
  | KName => None
  | KConfigResolved => configResolved plugin
  | KConfigureServer => configureServer plugin
  | KBuildStart => buildStart plugin
  | KTransform => transform plugin
  | KResolveId => resolveId plugin
  | KLoad => load plugin
  | KBuildEnd => buildEnd plugin
  | KConfigureDevServer => configureDevServer plugin
  | KHandleHotUpdate => handleHotUpdate plugin
  | KWatchChange => watchChange plugin
  | KCloseBundle => closeBundle plugin
  end.

(** A plugin with a name and no hook. *)
Definition barePlugin (n : string) : Plugin :=
  {| name := n; configResolved := None; configureServer := None;
     buildStart := None; transform := None; resolveId := None; load := None;
     buildEnd := None; configureDevServer := None; handleHotUpdate := None;
     watchChange := None; closeBundle := None |}.

(* ===================================================================== *)
(** * The process: file system, clock, trace *)
(* ===================================================================== *)

(** A node of the disk.  The program reads files as text only
    ([readFileSync(p, 'utf-8')]), so a file is kept as the text that
    decoding its bytes yields: for a file that is not valid UTF-8 (an
    image, say) this is the text with replacement characters, not its
    bytes.  Writing a text stores it. *)
Inductive FsNode := File (content : string) | Dir.

Global Instance FsNode_eq_dec : EqDecision FsNode.
Proof. solve_decision. Defined.

Inductive LogLevel := LLog | LWarn | LError.

Global Instance LogLevel_eq_dec : EqDecision LogLevel.
Proof. solve_decision. Defined.

Inductive PayloadType := TUpdate | TReload | TError | TPrune.

(** [interface HMRPayload] of [src/server.ts] *)
Record HMRPayload := {
  p_type : PayloadType;
  p_path : option string;
  p_timestamp : option nat;
  p_modules : option (list string);
  p_message : option string;
  p_stack : option string
}.

(** What the process does that the outside can see. *)
Inductive Event :=
| EvConsole (level : LogLevel) (msg : string) (err : option Exn)
| EvHook (idx : nat) (plugin : string) (hook : HookName) (arg : HookArg)
| EvMkdir (path : string)
| EvWriteFile (path content : string)
| EvSend (client : nat) (payload : HMRPayload).

Record World := {
  fs : gmap string FsNode;      (* keyed by resolved absolute path *)
  cwd : string;                 (* process.cwd() *)
  clock : list nat;             (* the readings the clock will give *)
  trace : list Event
}.

Definition setTrace (w : World) (t : list Event) : World :=
  {| fs := fs w; cwd := cwd w; clock := clock w; trace := t |}.
Definition setFs (w : World) (f : gmap string FsNode) : World :=
  {| fs := f; cwd := cwd w; clock := clock w; trace := trace w |}.
Definition setClock (w : World) (c : list nat) : World :=
  {| fs := fs w; cwd := cwd w; clock := c; trace := trace w |}.

(** How a computation ends. [Diverge] stands for a recursion that was cut
    off by its fuel. *)
Inductive Res (A : Type) :=
| Ret (a : A)
| Throw (e : Exn)
| Diverge.
Global Arguments Ret {A} a.
Global Arguments Throw {A} e.
Global Arguments Diverge {A}.

Definition M (A : Type) : Type := World → Res A * World.

Definition ret {A} (a : A) : M A := λ w, (Ret a, w).

Definition bind {A B} (c : M A) (k : A → M B) : M B :=
  λ w, match c w with
       | (Ret a, w') => k a w'
       | (Throw e, w') => (Throw e, w')
       | (Diverge, w') => (Diverge, w')
       end.

Notation "'let*' x ':=' c 'in' k" := (bind c (λ x, k))
  (at level 10, x pattern, c at level 100, k at level 200).
Notation "c ';;' k" := (bind c (λ _, k))
  (at level 100, k at level 200, right associativity).

Definition throw {A} (e : Exn) : M A := λ w, (Throw e, w).
Definition diverge {A} : M A := λ w, (Diverge, w).

(** [try { c } catch (error) { h error }] *)
Definition tryCatch {A} (c : M A) (h : Exn → M A) : M A :=
  λ w, match c w with
       | (Throw e, w') => h e w'
       | r => r
       end.

Definition emit (e : Event) : M unit :=
  λ w, (Ret tt, setTrace w (trace w ++ [e])).

Definition console_log (msg : string) : M unit := emit (EvConsole LLog msg None).
Definition console_warn (msg : string) : M unit := emit (EvConsole LWarn msg None).
Definition console_error (msg : string) (err : Exn) : M unit :=
  emit (EvConsole LError msg (Some err)).

(** [process.cwd()] *)
Definition getCwd : M string := λ w, (Ret (cwd w), w).

(** [Date.now()], [performance.now()] *)
Definition now : M nat :=
  λ w, match clock w with
       | [] => (Ret 0, w)
       | t :: rest => (Ret t, setClock w rest)
       end.

(** Calling foreign code: the call is recorded, then it returns or throws. *)
Definition callHook (idx : nat) (plugin : Plugin) (hookName : HookName)
    (hook : Hook) (arg : HookArg) : M JsVal :=
  emit (EvHook idx (name plugin) hookName arg);;
  match hook arg with
  | Returned v => ret v
  | Thrown e => throw e
  end.

(** ** [node:fs] *)

(** The disk maps resolved absolute paths to nodes; the root is a
    directory.  The operating system follows a path segment by segment from
    the root: every segment, also an empty one, [.] and [..], is looked up
    in a directory.  A path that runs through a regular file or a missing
    directory, or that ends in a slash after a regular file, names nothing,
    whatever [path.resolve] makes of its text. *)

(** The stored path of the chain of segments [acc], innermost first. *)
Definition keyOf (acc : list string) : string :=
  "/" +:+ Js.join "/" (reverse acc).

Definition nodeOf (f : gmap string FsNode) (acc : list string) : option FsNode :=
  match acc with
  | [] => Some Dir
  | _ => f !! keyOf acc
  end.

Inductive Walk :=
| Reached (acc : list string)
| NoEntry                       (* ENOENT *)
| NotDirectory.                 (* ENOTDIR *)

(** Following [segs] from the directory [acc]. *)
Fixpoint walk (f : gmap string FsNode) (acc : list string) (segs : list string)
    : Walk :=
  match segs with
  | [] => Reached acc
  | seg :: rest =>
      match nodeOf f acc with
      | Some Dir =>
          if bool_decide (seg = "" ∨ seg = ".") then walk f acc rest
          else if bool_decide (seg = "..") then walk f (tail acc) rest
          else walk f (seg :: acc) rest
      | Some (File _) => NotDirectory
      | None => NoEntry
      end
  end.

(** The segments of [p] counted from the root, in a process whose working
    directory is [cwd] ([process.cwd()] is an absolute path).  The empty
    path names nothing. *)
Definition fromRoot (cwd p : string) : option (list string) :=
  if bool_decide (p = "") then None
  else if Path.isAbsolute p then Some (Path.split p)
  else if Path.isAbsolute cwd then Some (Path.split cwd ++ Path.split p)
  else None.

Definition locate (f : gmap string FsNode) (cwd p : string) : Walk :=
  match fromRoot cwd p with
  | Some segs => walk f [] segs
  | None => NoEntry
  end.

(** The node that [p] names, if any. *)
Definition nodeAt (w : World) (p : string) : option FsNode :=
  match locate (fs w) (cwd w) p with
  | Reached acc => nodeOf (fs w) acc
  | _ => None
  end.

(** The error of a system call on a path that names nothing. *)
Definition notFound (w : World) (p call : string) : Exn :=
  match locate (fs w) (cwd w) p with
  | NotDirectory => Error ("ENOTDIR: not a directory" +:+ call)
  | _ => Error ("ENOENT: no such file or directory" +:+ call)
  end.

(** The text of [path.resolve(p)], under which a node that [p] names is
    stored. *)
Definition fsKey (w : World) (p : string) : string := Path.resolve (cwd w) [p].

Definition existsSync (p : string) : M bool :=
  λ w, (Ret (bool_decide (is_Some (nodeAt w p))), w).

(** [readFileSync(p, 'utf-8')] *)
Definition readFileSync (p : string) : M string :=
  λ w, match nodeAt w p with
       | Some (File c) => (Ret c, w)
       | Some Dir => (Throw (Error "EISDIR: illegal operation on a directory, read"), w)
       | None => (Throw (notFound w p ", open"), w)
       end.

(** Creating the directories that [segs] runs through, from [acc] on. *)
Fixpoint mkdirp (f : gmap string FsNode) (acc : list string) (segs : list string)
    : Exn + gmap string FsNode :=
  match segs with
  | [] => inr f
  | seg :: rest =>
      if bool_decide (seg = "" ∨ seg = ".") then mkdirp f acc rest
      else if bool_decide (seg = "..") then mkdirp f (tail acc) rest
      else
        match nodeOf f (seg :: acc) with
        | Some Dir => mkdirp f (seg :: acc) rest
        | Some (File _) =>
            match rest with
            | [] => inl (Error "EEXIST: file already exists, mkdir")
            | _ => inl (Error "ENOTDIR: not a directory, mkdir")
            end
        | None => mkdirp (<[keyOf (seg :: acc) := Dir]> f) (seg :: acc) rest
        end
  end.

(** [mkdirSync(p, { recursive: true })] *)
Definition mkdirSync (p : string) : M unit :=
  λ w, match fromRoot (cwd w) p with
       | Some segs =>
           match mkdirp (fs w) [] segs with
           | inr f' => (Ret tt, setTrace (setFs w f') (trace w ++ [EvMkdir p]))
           | inl e => (Throw e, w)
           end
       | None => (Throw (Error "ENOENT: no such file or directory, mkdir"), w)
       end.

(** [writeFileSync(p, content)]: the last segment is created or
    overwritten in the directory the segments before it lead to. *)
Definition writeFileSync (p content : string) : M unit :=
  λ w, match fromRoot (cwd w) p with
       | Some segs =>
           let name := List.last segs "" in
           match walk (fs w) [] (removelast segs) with
           | Reached acc =>
               match nodeOf (fs w) acc with
               | Some Dir =>
                   if bool_decide (name = "" ∨ name = "." ∨ name = "..")
                      || bool_decide (nodeOf (fs w) (name :: acc) = Some Dir)
                   then (Throw (Error "EISDIR: illegal operation on a directory, open"), w)
                   else
                     (Ret tt,
                      setTrace
                        (setFs w (<[keyOf (name :: acc) := File content]> (fs w)))
                        (trace w ++ [EvWriteFile p content]))
               | Some (File _) => (Throw (Error "ENOTDIR: not a directory, open"), w)
               | None =>
                   if bool_decide (name = "")
                   then (Throw (Error "EISDIR: illegal operation on a directory, open"), w)
                   else (Throw (Error "ENOENT: no such file or directory, open"), w)
               end
           | NotDirectory => (Throw (Error "ENOTDIR: not a directory, open"), w)
           | NoEntry => (Throw (Error "ENOENT: no such file or directory, open"), w)
           end
       | None => (Throw (Error "ENOENT: no such file or directory, open"), w)
       end.

(* ===================================================================== *)
(** * [src/utils/file.ts] *)
(* ===================================================================== *)

Definition fileExists (path : string) : M bool := existsSync path.

Definition readFile (path : string) : M string := readFileSync path.

Definition writeFile (path content : string) : M unit :=
  let dir := Path.dirname path in
  let* present := existsSync dir in
  (if negb present then mkdirSync dir else ret tt);;
  writeFileSync path content.

(** [getExtension]: the capture of a dot followed, up to the end, by
    characters other than dot, slash and backslash. *)
Definition getExtension (filePath : string) : string :=
  let notSep c := negb (Regex.oneOf "./\" c) in
  match Regex.exec
          (Regex.seq [Regex.Cap (Regex.seq [Regex.Lit "."; Regex.Plus notSep]);
                      Regex.Eoi])
          (Js.chars filePath) with
  | Some (cap, _) => default "" cap
  | None => ""
  end.

(** The characters an extension may have after its dot: anything but a
    dot, a slash and a backslash. *)
Definition extensionChar (c : ascii) : bool := negb (Regex.oneOf "./\" c).

(** [isModuleFile] *)
Definition isModuleFile (filePath : string) : bool :=
  let ext := Js.toLowerCase (getExtension filePath) in
  bool_decide (ext ∈ [".js"; ".mjs"; ".ts"; ".tsx"; ".jsx"]).

(** The loop of [findProjectRoot]: climb from [currentPath] until a
    directory holds [package.json]; [fuel] bounds the number of steps. *)
Fixpoint findProjectRoot_loop (fuel : nat) (currentPath : string) : M string :=
  match fuel with
  | 0 => diverge
  | S fuel' =>
      let* present := existsSync (Path.join [currentPath; "package.json"]) in
      if present then ret currentPath
      else
        let parentPath := Path.dirname currentPath in
        if bool_decide (parentPath = currentPath) then
          throw (Error "Could not find project root (no package.json found in any parent directory)")
        else findProjectRoot_loop fuel' parentPath
  end.

(** [findProjectRoot(startPath = process.cwd())] *)
Definition findProjectRoot (fuel : nat) (startPath : option string) : M string :=
  let* cwd := getCwd in
  let currentPath := Path.resolve cwd [default cwd startPath] in
  findProjectRoot_loop fuel currentPath.

(** The directory reached from [p] after [k] steps upwards. *)
Definition climb (k : nat) (p : string) : string := Nat.iter k Path.dirname p.

(** A bound on the number of steps upwards from [p]. *)
Definition height (p : string) : nat :=
  2 * String.length p + (if bool_decide (p = ".") then 0 else 1)
  + (if bool_decide (p = "") then 2 else 0).

(** The directory [d] holds a [package.json]. *)
Definition hasPackage (w : World) (d : string) : bool :=
  bool_decide (is_Some (nodeAt w (Path.join [d; "package.json"]))).

(* ===================================================================== *)
(** * [src/config.ts]: locating the configuration file *)
(* ===================================================================== *)

Module Config.

Definition configFileNames : list string :=
  ["aether.config.ts"; "aether.config.js"; "aether.config.mjs";
   "aether.config.json"].

(** The loop of [findConfigFile] over the names still to try. *)
Fixpoint findConfigFile_loop (dir : string) (names : list string)
    : M (option string) :=
  match names with
  | [] => ret None
  | fileName :: rest =>
      let configPath := Path.join [dir; fileName] in
      let* present := fileExists configPath in
      if present then ret (Some configPath) else findConfigFile_loop dir rest
  end.

(** [findConfigFile] *)
Definition findConfigFile (dir : string) : M (option string) :=
  findConfigFile_loop dir configFileNames.

End Config.

(* ===================================================================== *)
(** * [src/plugins.ts] *)
(* ===================================================================== *)

Module Plugins.

(** The body of [applyPluginHook]: [idx] is the position of the head of
    [plugins] in the list the caller passed, [result] the running result. *)
Fixpoint applyPluginHook_loop (idx : nat) (plugins : list Plugin)
    (hookName : HookName) (context : HookArg) (result : JsVal) : M JsVal :=
  match plugins with
  | [] => ret result
  | plugin :: rest =>
      match hookOf plugin hookName with
      | Some hook =>
          let* hookResult :=
            tryCatch (callHook idx plugin hookName hook context)
              (λ error,
                 console_error ("Error in plugin " +:+ name plugin +:+ " at hook "
                                +:+ hookNameString hookName +:+ ":") error;;
                 throw error) in
          let result := if notNullish hookResult then hookResult else result in
          applyPluginHook_loop (S idx) rest hookName context result
      | None => applyPluginHook_loop (S idx) rest hookName context result
      end
  end.

(** [applyPluginHook(plugins, hookName, context)] *)
Definition applyPluginHook (plugins : list Plugin) (hookName : HookName)
    (context : HookArg) : M JsVal :=
  applyPluginHook_loop 0 plugins hookName context VNull.

(** An element of [config.plugins]: a plugin, or a function making one
    (which may throw instead). *)
Inductive PluginEntry :=
| PluginValue (p : Plugin)
| PluginFactory (make : Plugin + Exn).

(** [loadPlugins] *)
Fixpoint loadPlugins (plugins : list PluginEntry) : M (list Plugin) :=
  match plugins with
  | [] => ret []
  | plugin :: rest =>
      let* resolvedPlugin :=
        tryCatch
          (let* resolvedPlugin :=
             match plugin with
             | PluginValue p => ret p
             | PluginFactory (inl p) => ret p
             | PluginFactory (inr e) => throw e
             end in
           (if negb (Js.truthy (name resolvedPlugin))
            then console_warn "Plugin without name detected. Make sure all plugins have a name property."
            else ret tt);;
           ret resolvedPlugin)
          (λ error, console_error "Failed to load plugin:" error;; throw error) in
      let* resolvedPlugins := loadPlugins rest in
      ret (resolvedPlugin :: resolvedPlugins)
  end.

(** [definePlugin] *)
Definition definePlugin (plugin : Plugin) : Plugin := plugin.

(** ** What the pipeline is expected to do, in the words of the
    specification *)

(** The calls made when every hook returns: one per plugin that defines
    the hook, in list order. *)
Fixpoint hookCalls (idx : nat) (plugins : list Plugin) (hookName : HookName)
    (context : HookArg) : list Event :=
  match plugins with
  | [] => []
  | plugin :: rest =>
      match hookOf plugin hookName with
      | Some _ => EvHook idx (name plugin) hookName context
                  :: hookCalls (S idx) rest hookName context
      | None => hookCalls (S idx) rest hookName context
      end
  end.

(** The values the plugins that define the hook return, in list order. *)
Fixpoint hookValues (plugins : list Plugin) (hookName : HookName)
    (context : HookArg) : list JsVal :=
  match plugins with
  | [] => []
  | plugin :: rest =>
      match hookOf plugin hookName with
      | Some hook =>
          match hook context with
          | Returned v => v :: hookValues rest hookName context
          | Thrown _ => hookValues rest hookName context
          end
      | None => hookValues rest hookName context
      end
  end.

(** Last-wins: the last value that is neither [null] nor [undefined], and
    [null] when there is none. *)
Definition lastWins (values : list JsVal) : JsVal :=
  default VNull (last (filter (λ v, notNullish v = true) values)).

(** Every plugin of the list that defines the hook returns from it. *)
Definition allReturn (plugins : list Plugin) (hookName : HookName)
    (context : HookArg) : bool :=
  forallb (λ plugin,
             match hookOf plugin hookName with
             | Some hook =>
                 match hook context with
                 | Returned _ => true
                 | Thrown _ => false
                 end
             | None => true
             end) plugins.



(** The plugin an element of [config.plugins] stands for, when making it
    does not throw. *)
Definition made (entry : PluginEntry) : option Plugin :=
  match entry with
  | PluginValue p => Some p
  | PluginFactory (inl p) => Some p
  | PluginFactory (inr _) => None
  end.

(** The warnings of [loadPlugins]: one for every plugin without a name. *)
Definition namelessWarnings (ps : list Plugin) : list Event :=
  ps ≫= λ p,
    if Js.truthy (name p) then []
    else [EvConsole LWarn
            "Plugin without name detected. Make sure all plugins have a name property."
            None].

End Plugins.

(* ===================================================================== *)
(** * [src/config.ts]: loading and merging; [src/cli.ts]: the overrides *)
(* ===================================================================== *)

Module ConfigMerge.

(** A key of a JavaScript object: not there, or there with a value, which
    may be [undefined] ([Present None]).  The spread [{...a, ...b}] copies
    every own key of [b], also the ones whose value is [undefined]. *)
Inductive Key (V : Type) :=
| Absent
| Present (v : option V).
Arguments Absent {V}.
Arguments Present {V} v.

(** One key of [{...a, ...b}]. *)
Definition spread {V} (a b : Key V) : Key V :=
  match b with
  | Absent => a
  | Present v => Present v
  end.

(** Reading [o.key]. *)
Definition read {V} (k : Key V) : option V :=
  match k with
  | Absent => None
  | Present v => v
  end.

(** [optimize.sourcemap]: [boolean | 'inline' | 'external']. *)
Inductive SourcemapOption :=
| SmBool (b : bool)
| SmInline
| SmExternal.

Record ServerOptions := {
  so_port : Key nat;
  so_host : Key string;
  so_https : Key bool;
  so_open : Key bool;
  so_watch : Key (list string)
}.

Record OptimizeOptions := {
  oo_minify : Key bool;
  oo_target : Key string;
  oo_sourcemap : Key SourcemapOption;
  oo_splitting : Key bool;
  oo_treeshake : Key bool
}.

Record ResolveOptions := {
  ro_extensions : Key (list string);
  ro_conditions : Key (list string)
}.

Record DebugOptions := {
  do_verbose : Key bool;
  do_logLevel : Key string;
  do_showDependencyGraph : Key bool
}.

(** A configuration object as it is written, loaded and merged: the
    declared keys of [AetherConfig], each of them possibly missing.  The
    keys outside the interface and [pluginOptions], which nothing reads,
    are left out. *)
Record ConfigObject := {
  co_name : Key string;
  co_version : Key string;
  co_entry : Key EntryConfig;
  co_outDir : Key string;
  co_server : Key ServerOptions;
  co_optimize : Key OptimizeOptions;
  co_plugins : Key (list Plugins.PluginEntry);
  co_alias : Key (gmap string string);
  co_resolve : Key ResolveOptions;
  co_debug : Key DebugOptions
}.

Definition emptyServer : ServerOptions :=
  {| so_port := Absent; so_host := Absent; so_https := Absent;
     so_open := Absent; so_watch := Absent |}.

Definition emptyOptimize : OptimizeOptions :=
  {| oo_minify := Absent; oo_target := Absent; oo_sourcemap := Absent;
     oo_splitting := Absent; oo_treeshake := Absent |}.

Definition emptyResolve : ResolveOptions :=
  {| ro_extensions := Absent; ro_conditions := Absent |}.

Definition emptyDebug : DebugOptions :=
  {| do_verbose := Absent; do_logLevel := Absent;
     do_showDependencyGraph := Absent |}.

(** [{}] *)
Definition emptyConfig : ConfigObject :=
  {| co_name := Absent; co_version := Absent; co_entry := Absent;
     co_outDir := Absent; co_server := Absent; co_optimize := Absent;
     co_plugins := Absent; co_alias := Absent; co_resolve := Absent;
     co_debug := Absent |}.

(** [defaultConfig] *)
Definition defaultConfig : ConfigObject :=
  {| co_name := Absent;
     co_version := Absent;
     co_entry := Present (Some (EntryString "./src/index.ts"));
     co_outDir := Present (Some "./dist");
     co_server := Present (Some
       {| so_port := Present (Some 3000);
          so_host := Present (Some "localhost");
          so_https := Absent;
          so_open := Present (Some false);
          so_watch := Present (Some ["src/**/*"]) |});
     co_optimize := Present (Some
       {| oo_minify := Present (Some true);
          oo_target := Present (Some "es2022");
          oo_sourcemap := Present (Some (SmBool true));
          oo_splitting := Present (Some true);
          oo_treeshake := Present (Some true) |});
     co_plugins := Present (Some []);
     co_alias := Absent;
     co_resolve := Present (Some
       {| ro_extensions := Present (Some [".ts"; ".tsx"; ".js"; ".jsx"; ".json"]);
          ro_conditions := Present (Some ["import"; "module"; "browser"; "default"]) |});
     co_debug := Present (Some
       {| do_verbose := Present (Some false);
          do_logLevel := Present (Some "info");
          do_showDependencyGraph := Present (Some false) |}) |}.

(** [o.group || {}], also what [...o.group] spreads: an object is truthy,
    a missing or [undefined] group contributes no key. *)
Definition orEmpty {G} (empty : G) (k : Key G) : G :=
  match k with
  | Present (Some g) => g
  | _ => empty
  end.

Definition spreadServer (a b : ServerOptions) : ServerOptions :=
  {| so_port := spread (so_port a) (so_port b);
     so_host := spread (so_host a) (so_host b);
     so_https := spread (so_https a) (so_https b);
     so_open := spread (so_open a) (so_open b);
     so_watch := spread (so_watch a) (so_watch b) |}.

Definition spreadOptimize (a b : OptimizeOptions) : OptimizeOptions :=
  {| oo_minify := spread (oo_minify a) (oo_minify b);
     oo_target := spread (oo_target a) (oo_target b);
     oo_sourcemap := spread (oo_sourcemap a) (oo_sourcemap b);
     oo_splitting := spread (oo_splitting a) (oo_splitting b);
     oo_treeshake := spread (oo_treeshake a) (oo_treeshake b) |}.

Definition spreadResolve (a b : ResolveOptions) : ResolveOptions :=
  {| ro_extensions := spread (ro_extensions a) (ro_extensions b);
     ro_conditions := spread (ro_conditions a) (ro_conditions b) |}.

Definition spreadDebug (a b : DebugOptions) : DebugOptions :=
  {| do_verbose := spread (do_verbose a) (do_verbose b);
     do_logLevel := spread (do_logLevel a) (do_logLevel b);
     do_showDependencyGraph :=
       spread (do_showDependencyGraph a) (do_showDependencyGraph b) |}.

(** The object literal [resolveConfig] returns: the three spreads, then
    the four groups rebuilt key by key. *)
Definition mergeConfig (userConfig overrides : ConfigObject) : ConfigObject :=
  let top {V} (key : ConfigObject → Key V) : Key V :=
    spread (spread (key defaultConfig) (key userConfig)) (key overrides) in
  {| co_name := top co_name;
     co_version := top co_version;
     co_entry := top co_entry;
     co_outDir := top co_outDir;
     co_server := Present (Some
       (spreadServer
          (spreadServer (orEmpty emptyServer (co_server defaultConfig))
                        (orEmpty emptyServer (co_server userConfig)))
          (orEmpty emptyServer (co_server overrides))));
     co_optimize := Present (Some
       (spreadOptimize
          (spreadOptimize (orEmpty emptyOptimize (co_optimize defaultConfig))
                          (orEmpty emptyOptimize (co_optimize userConfig)))
          (orEmpty emptyOptimize (co_optimize overrides))));
     co_plugins := top co_plugins;
     co_alias := top co_alias;
     co_resolve := Present (Some
       (spreadResolve
          (spreadResolve (orEmpty emptyResolve (co_resolve defaultConfig))
                         (orEmpty emptyResolve (co_resolve userConfig)))
          (orEmpty emptyResolve (co_resolve overrides))));
     co_debug := Present (Some
       (spreadDebug
          (spreadDebug (orEmpty emptyDebug (co_debug defaultConfig))
                       (orEmpty emptyDebug (co_debug userConfig)))
          (orEmpty emptyDebug (co_debug overrides)))) |}.

(** A value that [JSON.parse] or a module hands back where a configuration
    is expected: an object; [null]; or another value, a primitive or an
    array, which has none of the keys that [resolveConfig] reads. *)
Inductive Loaded :=
| LObject (config : ConfigObject)
| LNull
| LOther (truthy : bool).

Definition isTruthy (v : Loaded) : bool :=
  match v with
  | LObject _ => true
  | LNull => false
  | LOther t => t
  end.

(** A module namespace: its [default] export, if it has one, and the
    configuration keys among its named exports. *)
Record ConfigModule := {
  mod_default : option Loaded;
  mod_exports : ConfigObject
}.

(** [configModule.default || configModule] *)
Definition exported (m : ConfigModule) : Loaded :=
  match mod_default m with
  | Some v => if isTruthy v then v else LObject (mod_exports m)
  | None => LObject (mod_exports m)
  end.

(** What lies outside the program: [JSON.parse] on the text of a file and
    the dynamic [import] of a module, each yielding a value or raising. *)
Record Loaders := {
  parseJson : string → Exn + Loaded;
  importModule : string → Exn + ConfigModule
}.

(** [loadConfigFile] *)
Definition loadConfigFile (L : Loaders) (configPath : string) : M Loaded :=
  tryCatch
    (if Js.endsWith configPath ".json"
     then
       let* configContent := readFile configPath in
       match parseJson L configContent with
       | inr config => ret config
       | inl error => throw error
       end
     else
       match importModule L configPath with
       | inr configModule => ret (exported configModule)
       | inl error => throw error
       end)
    (λ error,
       console_error ("Error loading config from " +:+ configPath +:+ ":") error;;
       throw (Error ("Failed to load config from " +:+ configPath))).

(** Loading [configPath] yields [config]: the parsed text of a [.json]
    file, the export of any other module. *)
Definition yields (L : Loaders) (w : World) (configPath : string)
    (config : Loaded) : Prop :=
  if Js.endsWith configPath ".json"
  then ∃ text, nodeAt w configPath = Some (File text)
               ∧ parseJson L text = inr config
  else ∃ configModule, importModule L configPath = inr configModule
                       ∧ config = exported configModule.

(** The keys of a loaded value, as the spreads and [userConfig.server] see
    them; reading a key of [null] throws. *)
Definition keysOf (userConfig : Loaded) : option ConfigObject :=
  match userConfig with
  | LObject config => Some config
  | LOther _ => Some emptyConfig
  | LNull => None
  end.

(** [p || undefined] on a [string | null | undefined]: the string when it
    is truthy. *)
Definition givenPath (configPath : option string) : option string :=
  match configPath with
  | Some p => if Js.truthy p then Some p else None
  | None => None
  end.

(** [resolveConfig(configPath, overrides)] *)
Definition resolveConfig (L : Loaders) (configPath : option string)
    (overrides : ConfigObject) : M ConfigObject :=
  let* configPath :=
    match givenPath configPath with
    | Some p => ret (Some p)
    | None => let* dir := getCwd in Config.findConfigFile dir
    end in
  let* userConfig :=
    match givenPath configPath with
    | Some p => loadConfigFile L p
    | None => ret (LObject emptyConfig)
    end in
  match keysOf userConfig with
  | Some keys => ret (mergeConfig keys overrides)
  | None => throw (Error "Cannot read properties of null (reading 'server')")
  end.

(** The options the command line hands to the [dev] command: a flag that
    was not given is [undefined]. *)
Record DevOptions := {
  dev_config : option string;
  dev_port : option nat;
  dev_host : option string;
  dev_open : option bool
}.

(** The overrides of the [dev] command ([src/cli.ts]); [typescript] is the
    plugin of [getDefaultPlugins()]. *)
Definition devOverrides (typescript : Plugin) (options : DevOptions)
    : ConfigObject :=
  {| co_name := Absent; co_version := Absent; co_entry := Absent;
     co_outDir := Absent;
     co_server := Present (Some
       {| so_port := Present (dev_port options);
          so_host := Present (dev_host options);
          so_https := Absent;
          so_open := Present (dev_open options);
          so_watch := Absent |});
     co_optimize := Absent;
     co_plugins := Present (Some [Plugins.PluginValue typescript]);
     co_alias := Absent; co_resolve := Absent; co_debug := Absent |}.

(** The options of the [build] command. *)
Record BuildOptions := {
  build_config : option string;
  build_minify : option bool;
  build_target : option string;
  build_outDir : option string
}.

(** The overrides of the [build] command ([src/cli.ts]). *)
Definition buildOverrides (typescript : Plugin) (options : BuildOptions)
    : ConfigObject :=
  {| co_name := Absent; co_version := Absent; co_entry := Absent;
     co_outDir := Present (givenPath (build_outDir options));
     co_server := Absent;
     co_optimize := Present (Some
       {| oo_minify := Present (Some (negb (bool_decide (build_minify options = Some false))));
          oo_target := Present (build_target options);
          oo_sourcemap := Absent; oo_splitting := Absent;
          oo_treeshake := Absent |});
     co_plugins := Present (Some [Plugins.PluginValue typescript]);
     co_alias := Absent; co_resolve := Absent; co_debug := Absent |}.

(** The options of the [serve] command. *)
Record ServeOptions := {
  serve_config : option string;
  serve_port : option nat;
  serve_host : option string;
  serve_dir : option string
}.

(** The overrides of the [serve] command ([src/cli.ts]). *)
Definition serveOverrides (options : ServeOptions) : ConfigObject :=
  {| co_name := Absent; co_version := Absent; co_entry := Absent;
     co_outDir := Present (Some (default "dist" (givenPath (serve_dir options))));
     co_server := Present (Some
       {| so_port := Present (serve_port options);
          so_host := Present (serve_host options);
          so_https := Absent; so_open := Absent; so_watch := Absent |});
     co_optimize := Absent; co_plugins := Absent;
     co_alias := Absent; co_resolve := Absent; co_debug := Absent |}.

(** The [dev], [build] and [serve] commands up to the configuration they
    pass on. *)
Definition devConfig (L : Loaders) (typescript : Plugin) (options : DevOptions)
    : M ConfigObject :=
  resolveConfig L (dev_config options) (devOverrides typescript options).

Definition buildConfig (L : Loaders) (typescript : Plugin)
    (options : BuildOptions) : M ConfigObject :=
  resolveConfig L (build_config options) (buildOverrides typescript options).

Definition serveConfig (L : Loaders) (options : ServeOptions) : M ConfigObject :=
  resolveConfig L (serve_config options) (serveOverrides options).

End ConfigMerge.

(* ===================================================================== *)
(** * [src/utils/dependency.ts]: resolution *)
(* ===================================================================== *)

(** The value of [depInfo.id]: a string (the specifier, or its entry in the
    alias table), or a member that the lookup [config.alias[specifier]]
    found on [Object.prototype] (a function, or the prototype itself for
    [__proto__]). *)
Inductive IdValue :=
| IdString (s : string)
| IdMember (key : string).

Coercion IdString : string >-> IdValue.

Global Instance IdValue_eq_dec : EqDecision IdValue.
Proof. solve_decision. Defined.

(** [interface DependencyInfo] *)
Record DependencyInfo := {
  dep_id : IdValue;
  dep_resolved : option string;
  dep_isExternal : bool
}.

Module Dependency.

(** A value used where a path is expected.  [resolveId] is declared to
    return [string | null]; an object handed back in its place is carried
    as its string conversion. *)
Definition asPath (v : JsVal) : string :=
  match v with
  | VString s => s
  | VCodeMap _ _ => "[object Object]"
  | VNull => "null"
  | VUndefined => "undefined"
  end.

(** The loop over [plugin.resolveId]: the first truthy answer is kept and
    ends the loop. *)
Fixpoint resolveId_loop (idx : nat) (plugins : list Plugin)
    (resolveContext : ResolveContext) : M (option string) :=
  match plugins with
  | [] => ret None
  | plugin :: rest =>
      match resolveId plugin with
      | Some hook =>
          let* resolved :=
            callHook idx plugin KResolveId hook (ArgResolve resolveContext) in
          if truthy resolved then ret (Some (asPath resolved))
          else resolveId_loop (S idx) rest resolveContext
      | None => resolveId_loop (S idx) rest resolveContext
      end
  end.

(** [for (const c of candidates) if (existsSync(c)) return c] *)
Fixpoint firstExisting (candidates : list string) : M (option string) :=
  match candidates with
  | [] => ret None
  | c :: rest =>
      let* present := existsSync c in
      if present then ret (Some c) else firstExisting rest
  end.

Definition defaultExtensions : list string :=
  [".ts"; ".tsx"; ".js"; ".jsx"; ".json"].

(** [resolveWithExtensions] *)
Definition resolveWithExtensions (specifier basedir : string)
    (config : AetherConfig) : M (option string) :=
  let isAbs := Path.isAbsolute specifier in
  let absoluteSpecifier :=
    if isAbs then specifier else Path.join [basedir; specifier] in
  let* present := existsSync absoluteSpecifier in
  if present then ret (Some absoluteSpecifier)
  else
    let extensions := default defaultExtensions (resolve_extensions config) in
    let* withExt :=
      firstExisting ((λ ext, absoluteSpecifier +:+ ext) <$> extensions) in
    match withExt with
    | Some p => ret (Some p)
    | None =>
        firstExisting
          ((λ ext, Path.join [absoluteSpecifier; "index" +:+ ext]) <$> extensions)
    end.

(** The property names every ordinary object inherits from
    [Object.prototype]; their values are functions, and the prototype
    itself under [__proto__], all truthy. *)
Definition objectMembers : list string :=
  ["constructor"; "__defineGetter__"; "__defineSetter__"; "hasOwnProperty";
   "__lookupGetter__"; "__lookupSetter__"; "isPrototypeOf";
   "propertyIsEnumerable"; "toString"; "valueOf"; "__proto__";
   "toLocaleString"].

(** [config.alias && config.alias[specifier]], when truthy.  The table is
    an ordinary object: a name it has no entry for is looked up on its
    prototype. *)
Definition aliasOf (config : AetherConfig) (specifier : string) : option IdValue :=
  match alias config with
  | Some table =>
      match table !! specifier with
      | Some target => if Js.truthy target then Some (IdString target) else None
      | None =>
          if bool_decide (specifier ∈ objectMembers)
          then Some (IdMember specifier) else None
      end
  | None => None
  end.

Definition isUrl (specifier : string) : bool :=
  Js.startsWith specifier "http:" || Js.startsWith specifier "https:"
  || Js.startsWith specifier "//".

Definition isBare (specifier : string) : bool :=
  negb (Js.startsWith specifier ".") && negb (Js.startsWith specifier "/")
  && negb (Js.includes specifier ":").

(** [resolveModuleSpecifier] *)
Definition resolveModuleSpecifier (specifier importer : string)
    (config : AetherConfig) (plugins : list Plugin) : M DependencyInfo :=
  let depInfo :=
    {| dep_id := specifier; dep_resolved := None; dep_isExternal := false |} in
  (* Skip URLs *)
  if isUrl specifier then
    ret {| dep_id := dep_id depInfo; dep_resolved := dep_resolved depInfo;
           dep_isExternal := true |}
  else
    (* Bare imports are external unless an alias names them *)
    let depInfo :=
      if isBare specifier then
        match aliasOf config specifier with
        | Some target =>
            {| dep_id := target; dep_resolved := None; dep_isExternal := false |}
        | None =>
            {| dep_id := specifier; dep_resolved := None; dep_isExternal := true |}
        end
      else depInfo in
    if isBare specifier && dep_isExternal depInfo then ret depInfo
    else
      let resolveContext :=
        {| rc_config := config; rc_importer := importer; rc_source := specifier |} in
      let* fromPlugins := resolveId_loop 0 plugins resolveContext in
      match fromPlugins with
      | Some resolved =>
          ret {| dep_id := dep_id depInfo; dep_resolved := Some resolved;
                 dep_isExternal := dep_isExternal depInfo |}
      | None =>
          let* basedir :=
            if Js.truthy importer then ret (Path.dirname importer) else getCwd in
          let* resolved := resolveWithExtensions specifier basedir config in
          ret {| dep_id := dep_id depInfo; dep_resolved := resolved;
                 dep_isExternal := dep_isExternal depInfo |}
      end.

(** [processDependencies] *)
Fixpoint resolveAll (imports : list string) (filePath : string)
    (config : AetherConfig) (plugins : list Plugin) : M (list DependencyInfo) :=
  match imports with
  | [] => ret []
  | importSpecifier :: rest =>
      let* depInfo := resolveModuleSpecifier importSpecifier filePath config plugins in
      let* dependencies := resolveAll rest filePath config plugins in
      ret (depInfo :: dependencies)
  end.

Definition processDependencies (filePath content : string)
    (config : AetherConfig) (plugins : list Plugin) : M (list DependencyInfo) :=
  let imports := Extract.extractImports content in
  resolveAll imports filePath config plugins.

(** ** The candidates of the file-system probe, in the words of the
    specification: the literal path, the path plus each extension, the
    path as a directory with [index] plus each extension. *)
Definition probeBase (specifier basedir : string) : string :=
  if Path.isAbsolute specifier then specifier else Path.join [basedir; specifier].

Definition candidates (specifier basedir : string) (config : AetherConfig)
    : list string :=
  let base := probeBase specifier basedir in
  let exts := default defaultExtensions (resolve_extensions config) in
  [base] ++ ((λ ext, base +:+ ext) <$> exts)
         ++ ((λ ext, Path.join [base; "index" +:+ ext]) <$> exts).

(** The first candidate that exists in the file system of [w]. *)
Fixpoint firstHit (w : World) (cands : list string) : option string :=
  match cands with
  | [] => None
  | c :: rest =>
      if bool_decide (is_Some (nodeAt w c)) then Some c
      else firstHit w rest
  end.

(** Resolution goes past the first two steps: the specifier is no URL, and
    it is not bare or an alias names it. *)
Definition continues (config : AetherConfig) (specifier : string) : bool :=
  negb (isUrl specifier)
  && (negb (isBare specifier) || bool_decide (is_Some (aliasOf config specifier))).

(** The [id] of the result: the alias target of a bare specifier, the
    specifier otherwise. *)
Definition idOf (config : AetherConfig) (specifier : string) : IdValue :=
  if isBare specifier then default (IdString specifier) (aliasOf config specifier)
  else specifier.

(** The directory the probe starts from. *)
Definition basedirOf (w : World) (importer : string) : string :=
  if Js.truthy importer then Path.dirname importer else cwd w.

(** Every plugin of the list that defines [resolveId] returns a falsy
    value from it. *)
Definition allDecline (plugins : list Plugin) (rc : ResolveContext) : bool :=
  forallb (λ plugin,
             match resolveId plugin with
             | Some hook =>
                 match hook (ArgResolve rc) with
                 | Returned v => negb (truthy v)
                 | Thrown _ => false
                 end
             | None => true
             end) plugins.

(** Every plugin of the list that defines [resolveId] returns [null] or
    [undefined] from it. *)
Definition allNull (plugins : list Plugin) (rc : ResolveContext) : bool :=
  forallb (λ plugin,
             match resolveId plugin with
             | Some hook =>
                 match hook (ArgResolve rc) with
                 | Returned v => negb (notNullish v)
                 | Thrown _ => false
                 end
             | None => true
             end) plugins.

(** [config] with the alias table [table]. *)
Definition withAlias (config : AetherConfig) (table : gmap string string)
    : AetherConfig :=
  {| entry := entry config; outDir := outDir config; server := server config;
     optimize_sourcemap := optimize_sourcemap config; alias := Some table;
     resolve_extensions := resolve_extensions config;
     debug_verbose := debug_verbose config |}.

(** Step 3 in the words of the specification: the first plugin whose
    [resolveId] returns a result that is not null wins, and the plugins
    after it are not asked. *)
Definition FirstNonNullWins : Prop :=
  ∀ specifier importer config before p after hook v w,
    let rc := {| rc_config := config; rc_importer := importer;
                 rc_source := specifier |} in
    continues config specifier = true →
    resolveId p = Some hook → hook (ArgResolve rc) = Returned v →
    notNullish v = true → allNull before rc = true →
    resolveModuleSpecifier specifier importer config (before ++ p :: after) w
    = (Ret {| dep_id := idOf config specifier; dep_resolved := Some (asPath v);
              dep_isExternal := false |},
       setTrace w (trace w ++ Plugins.hookCalls 0 before KResolveId (ArgResolve rc)
                   ++ [EvHook (length before) (name p) KResolveId (ArgResolve rc)])).

End Dependency.

(* ===================================================================== *)
(** * JavaScript [Map]: insertion-ordered *)
(* ===================================================================== *)

Module JsMap.

Fixpoint get {V} (m : list (string * V)) (k : string) : option V :=
  match m with
  | [] => None
  | (k', v) :: rest => if bool_decide (k' = k) then Some v else get rest k
  end.

(** [m.set(k, v)]: a present key keeps its place, a new key goes last. *)
Fixpoint set {V} (m : list (string * V)) (k : string) (v : V)
    : list (string * V) :=
  match m with
  | [] => [(k, v)]
  | (k', v') :: rest =>
      if bool_decide (k' = k) then (k, v) :: rest else (k', v') :: set rest k v
  end.

Definition keys {V} (m : list (string * V)) : list string := m.*1.

(** [m.delete(k)] *)
Fixpoint delete {V} (m : list (string * V)) (k : string) : list (string * V) :=
  match m with
  | [] => []
  | (k', v) :: rest =>
      if bool_decide (k' = k) then delete rest k else (k', v) :: delete rest k
  end.

End JsMap.

(* ===================================================================== *)
(** * [src/build.ts] *)
(* ===================================================================== *)

Module Build.
Import Plugins Dependency.

(** [interface BuilderContext] *)
Record BuilderContext := {
  config : AetherConfig;
  plugins : list Plugin;
  entryPoints : list string;
  outputs : list (string * Output);
  processed : gset string;
  dependencies : gmap string (gset string);
  moduleGraph : list (string * list DependencyInfo)
}.

Definition setOutputs (ctx : BuilderContext) (o : list (string * Output)) :=
  {| config := config ctx; plugins := plugins ctx; entryPoints := entryPoints ctx;
     outputs := o; processed := processed ctx;
     dependencies := dependencies ctx; moduleGraph := moduleGraph ctx |}.
Definition setProcessed (ctx : BuilderContext) (p : gset string) :=
  {| config := config ctx; plugins := plugins ctx; entryPoints := entryPoints ctx;
     outputs := outputs ctx; processed := p;
     dependencies := dependencies ctx; moduleGraph := moduleGraph ctx |}.
Definition setDependencies (ctx : BuilderContext) (d : gmap string (gset string)) :=
  {| config := config ctx; plugins := plugins ctx; entryPoints := entryPoints ctx;
     outputs := outputs ctx; processed := processed ctx;
     dependencies := d; moduleGraph := moduleGraph ctx |}.
Definition setModuleGraph (ctx : BuilderContext)
    (g : list (string * list DependencyInfo)) :=
  {| config := config ctx; plugins := plugins ctx; entryPoints := entryPoints ctx;
     outputs := outputs ctx; processed := processed ctx;
     dependencies := dependencies ctx; moduleGraph := g |}.

(** [for (const x of xs) state = await body(state, x)] *)
Fixpoint forEachM {A S} (body : S → A → M S) (xs : list A) (s : S) : M S :=
  match xs with
  | [] => ret s
  | x :: rest => let* s' := body s x in forEachM body rest s'
  end.

(** [resolveEntryPoints] *)
Definition resolveEntryPoints (cfg : AetherConfig) : M (list string) :=
  let* cwd := getCwd in
  match entry cfg with
  | EntryString e => ret [Path.resolve cwd [cwd; e]]
  | EntryArray es => ret ((λ e, Path.resolve cwd [cwd; e]) <$> es)
  | EntryObject es => ret ((λ e, Path.resolve cwd [cwd; e]) <$> es.*2)
  | EntryNull => throw (Error "Cannot convert undefined or null to object")
  | EntryOther => throw (Error "Invalid entry point configuration")
  end.

(** [createBuilderContext] *)
Definition createBuilderContext (cfg : AetherConfig)
    (configPlugins : option (list PluginEntry)) : M BuilderContext :=
  let* plugins :=
    match configPlugins with
    | Some ps => loadPlugins ps
    | None => ret []
    end in
  let* entryPoints := resolveEntryPoints cfg in
  ret {| config := cfg; plugins := plugins; entryPoints := entryPoints;
         outputs := []; processed := ∅; dependencies := ∅; moduleGraph := [] |}.

(** [if (importedBy) { deps = dependencies.get(importedBy) || new Set();
    deps.add(filePath); dependencies.set(importedBy, deps) }] *)
Definition recordImporter (ctx : BuilderContext) (filePath : string)
    (importedBy : option string) : BuilderContext :=
  match importedBy with
  | Some importer =>
      if Js.truthy importer then
        let deps := default ∅ (dependencies ctx !! importer) in
        setDependencies ctx (<[importer := {[filePath]} ∪ deps]> (dependencies ctx))
      else ctx
  | None => ctx
  end.

(** What a truthy transform result does to the running code and map. *)
Definition applyResult (result : JsVal) (code : string) (map : option SourceMap)
    : string * option SourceMap :=
  if truthy result then
    match result with
    | VString s => (s, map)
    | VCodeMap c m => (c, match m with Some m' => Some m' | None => map end)
    | _ => (code, map)
    end
  else (code, map).

(** The transform loop of [processFile]. *)
Fixpoint transform_loop (idx : nat) (plugins : list Plugin) (cfg : AetherConfig)
    (filePath content code : string) (map : option SourceMap)
    : M (string * option SourceMap) :=
  match plugins with
  | [] => ret (code, map)
  | plugin :: rest =>
      match transform plugin with
      | Some hook =>
          let* result :=
            tryCatch
              (callHook idx plugin KTransform hook
                 (ArgBuild {| bc_config := cfg; bc_filePath := filePath;
                              bc_content := content; bc_code := code;
                              bc_map := map |}))
              (λ error,
                 console_error ("Error in plugin " +:+ name plugin
                                +:+ " transforming " +:+ filePath +:+ ":") error;;
                 throw error) in
          let '(code', map') := applyResult result code map in
          transform_loop (S idx) rest cfg filePath content code' map'
      | None => transform_loop (S idx) rest cfg filePath content code map
      end
  end.

(** [dep.resolved && !dep.isExternal] *)
Definition traversable (dep : DependencyInfo) : option string :=
  match dep_resolved dep with
  | Some r => if Js.truthy r && negb (dep_isExternal dep) then Some r else None
  | None => None
  end.

(** [processFile].  The recursion of the source is not structural;
    [fuel] bounds its depth and [Diverge] reports an exhausted bound. *)
Fixpoint processFile (fuel : nat) (ctx : BuilderContext) (filePath : string)
    (importedBy : option string) {struct fuel} : M BuilderContext :=
  match fuel with
  | 0 => diverge
  | S fuel' =>
      (* Skip if already processed *)
      if bool_decide (filePath ∈ processed ctx) then
        ret (recordImporter ctx filePath importedBy)
      else
        (* Mark as processed to avoid circular imports *)
        let ctx := setProcessed ctx ({[filePath]} ∪ processed ctx) in
        let ctx := recordImporter ctx filePath importedBy in
        (* Read file content *)
        let* present := fileExists filePath in
        let* content := if present then readFile filePath else ret "" in
        (* Skip empty files *)
        if negb (Js.truthy content) then
          console_warn ("Empty or missing file: " +:+ filePath);;
          ret ctx
        else
          (* Apply transforms from plugins *)
          let* (code, map) :=
            transform_loop 0 (plugins ctx) (config ctx) filePath content content None in
          (* Store output *)
          let ctx :=
            setOutputs ctx
              (JsMap.set (outputs ctx) filePath {| out_code := code; out_map := map |}) in
          (* Process dependencies recursively *)
          let* deps := processDependencies filePath code (config ctx) (plugins ctx) in
          (* Store in module graph *)
          let ctx := setModuleGraph ctx (JsMap.set (moduleGraph ctx) filePath deps) in
          (* Process each resolved dependency *)
          forEachM
            (λ ctx dep,
               match traversable dep with
               | Some r => processFile fuel' ctx r (Some filePath)
               | None => ret ctx
               end)
            deps ctx
  end.

(** [finalPath.replace(/\.tsx?$/, '.js')] under the [endsWith] guard. *)
Definition replaceExtension (outputPath : string) : string :=
  if Js.endsWith outputPath ".tsx" then
    Js.sliceTo (String.length outputPath - 4) outputPath +:+ ".js"
  else if Js.endsWith outputPath ".ts" then
    Js.sliceTo (String.length outputPath - 3) outputPath +:+ ".js"
  else outputPath.

(** The body of the loop of [writeOutputs]. *)
Definition writeOutput (cfg : AetherConfig) (outDirPath : string)
    (entry : string * Output) : M unit :=
  let '(filePath, out) := entry in
  let* cwd := getCwd in
  (* Determine output path *)
  let relPath := Path.relative cwd cwd filePath in
  let outputPath := Path.join [outDirPath; relPath] in
  (* Ensure directory exists *)
  let dir := Path.dirname outputPath in
  let* present := existsSync dir in
  (if negb present then mkdirSync dir else ret tt);;
  (* Replace extension for compiled files *)
  let finalPath := replaceExtension outputPath in
  (* Write code *)
  writeFile finalPath (out_code out);;
  (* Write sourcemap if exists *)
  match out_map out with
  | Some map =>
      if optimize_sourcemap cfg then
        let mapPath := finalPath +:+ ".map" in
        writeFile mapPath map;;
        if negb (Js.includes (out_code out) "//# sourceMappingURL=") then
          writeFile finalPath
            (out_code out +:+ Js.str Js.newline +:+ "//# sourceMappingURL="
             +:+ Path.relative cwd (Path.dirname finalPath) mapPath)
        else ret tt
      else ret tt
  | None => ret tt
  end.

(** [writeOutputs] *)
Definition writeOutputs (ctx : BuilderContext) : M unit :=
  let* cwd := getCwd in
  let outDirPath := Path.resolve cwd [cwd; outDir (config ctx)] in
  (* Ensure output directory exists *)
  let* present := existsSync outDirPath in
  (if negb present then mkdirSync outDirPath else ret tt);;
  forEachM (λ _ entry, writeOutput (config ctx) outDirPath entry) (outputs ctx) tt.

(** [`${dep.id}`]: a function prints as its source text. *)
Definition idText (id : IdValue) : string :=
  match id with
  | IdString s => s
  | IdMember key =>
      if bool_decide (key = "__proto__") then "[object Object]"
      else "function "
           +:+ (if bool_decide (key = "constructor") then "Object" else key)
           +:+ "() { [native code] }"
  end.

(** [generateDependencyGraph] *)
Definition dependencyLine (dep : DependencyInfo) : string :=
  let status :=
    if dep_isExternal dep then "(external)"
    else match dep_resolved dep with
         | Some r => if Js.truthy r then "(resolved)" else "(unresolved)"
         | None => "(unresolved)"
         end in
  "  └─ " +:+ idText (dep_id dep) +:+ " " +:+ status +:+ Js.str Js.newline.

Definition generateDependencyGraph (ctx : BuilderContext) : string :=
  foldl (λ graph entry,
           foldl (λ graph dep, graph +:+ dependencyLine dep)
             (graph +:+ Js.str Js.newline +:+ entry.1 +:+ ":" +:+ Js.str Js.newline)
             entry.2)
    ("Dependency Graph:" +:+ Js.str Js.newline) (moduleGraph ctx).

(** The [closeBundle] loop at the end of [build]. *)
Fixpoint closeBundle_loop (idx : nat) (plugins : list Plugin) : M unit :=
  match plugins with
  | [] => ret tt
  | plugin :: rest =>
      match closeBundle plugin with
      | Some hook =>
          callHook idx plugin KCloseBundle hook ArgNone;;
          closeBundle_loop (S idx) rest
      | None => closeBundle_loop (S idx) rest
      end
  end.

(** The loop over the entry points. *)
Definition processEntries (fuel : nat) (ctx : BuilderContext) : M BuilderContext :=
  forEachM (λ ctx entryPoint, processFile fuel ctx entryPoint None)
    (entryPoints ctx) ctx.

(** [build]; [fuel] bounds the depth of each traversal. *)
Definition build (fuel : nat) (cfg : AetherConfig)
    (configPlugins : option (list PluginEntry)) : M unit :=
  console_log "Starting build...";;
  let* startTime := now in
  (* Create builder context *)
  let* ctx := createBuilderContext cfg configPlugins in
  (* Run buildStart hooks *)
  applyPluginHook (plugins ctx) KBuildStart (ArgConfig cfg);;
  (* Process all entry points *)
  let* ctx := processEntries fuel ctx in
  (* Log dependency graph if in verbose mode *)
  (if debug_verbose cfg then console_log (generateDependencyGraph ctx) else ret tt);;
  (* Run buildEnd hooks *)
  applyPluginHook (plugins ctx) KBuildEnd (ArgBuildEnd cfg (outputs ctx));;
  (* Write outputs to disk *)
  writeOutputs ctx;;
  (* Log completion *)
  let* endTime := now in
  console_log ("Build completed in " +:+ pretty (endTime - startTime) +:+ "ms");;
  console_log ("Processed " +:+ pretty (size (processed ctx)) +:+ " files");;
  let* cwd := getCwd in
  console_log ("Output directory: " +:+ Path.resolve cwd [cwd; outDir cfg]);;
  (* Run closeBundle hooks *)
  closeBundle_loop 0 (plugins ctx).

(** Every [transform] of the list, given this code and map, returns a
    falsy value: [null], [undefined] or the empty string. *)
Definition transformsDecline (plugins : list Plugin) (cfg : AetherConfig)
    (filePath content code : string) (map : option SourceMap) : bool :=
  forallb (λ plugin,
             match transform plugin with
             | Some hook =>
                 match hook (ArgBuild {| bc_config := cfg; bc_filePath := filePath;
                                         bc_content := content; bc_code := code;
                                         bc_map := map |}) with
                 | Returned v => negb (truthy v)
                 | Thrown _ => false
                 end
             | None => true
             end) plugins.

End Build.

(* ===================================================================== *)
(** * [src/hmr/runtime.ts] *)
(* ===================================================================== *)

Module Runtime.

Definition hexDigit (n : nat) : ascii :=
  nth n (Js.chars "0123456789abcdef") "0"%char.

(** One character of [JSON.stringify] applied to a string. *)
Definition escapeChar (c : ascii) : string :=
  let n := Ascii.nat_of_ascii c in
  if bool_decide (n = 34) then "\" +:+ Js.str Js.dquote
  else if bool_decide (n = 92) then "\\"
  else if bool_decide (n = 8) then "\b"
  else if bool_decide (n = 12) then "\f"
  else if bool_decide (n = 10) then "\n"
  else if bool_decide (n = 13) then "\r"
  else if bool_decide (n = 9) then "\t"
  else if bool_decide (n < 32) then
    "\u00" +:+ Js.str (hexDigit (n / 16)) +:+ Js.str (hexDigit (n mod 16))
  else Js.str c.

Fixpoint escapeAll (s : string) : string :=
  match s with
  | "" => ""
  | String c s' => escapeChar c +:+ escapeAll s'
  end.

(** [JSON.stringify(s)] for a string [s]. *)
Definition JSON_stringify (s : string) : string :=
  Js.str Js.dquote +:+ escapeAll s +:+ Js.str Js.dquote.

(** [s.replace(/\\/g, '/')] *)
Fixpoint slashes (s : string) : string :=
  match s with
  | "" => ""
  | String c s' =>
      String (if bool_decide (Ascii.nat_of_ascii c = 92) then "/"%char else c)
        (slashes s')
  end.

(** [getBrowserModulePath]; [root] is [process.cwd()]. *)
Definition getBrowserModulePath (root filePath : string) : string :=
  let relativePath :=
    if Js.startsWith filePath root
    then Js.sliceFrom (String.length root) filePath
    else filePath in
  let relativePath := slashes relativePath in
  if negb (Js.startsWith relativePath "/") then "/" +:+ relativePath
  else relativePath.

(** The test [/\.(js|ts|mjs|jsx|tsx)$/]. *)
Definition scriptPath : Regex.re :=
  Regex.seq [Regex.Lit ".";
             Regex.Cap (Regex.alt [Regex.Lit "js"; Regex.Lit "ts"; Regex.Lit "mjs";
                                   Regex.Lit "jsx"; Regex.Lit "tsx"]);
             Regex.Eoi].

(** [createHMRPlugin]; [hmrClientCode] is the text of [client-dist.js],
    read when the module is loaded, and [root] the working directory of the
    process, which the hook reads. *)
Definition createHMRPlugin (hmrClientCode root : string) : Plugin :=
  {| name := "aether:hmr"; configResolved := None; configureServer := None;
     buildStart := None;
     transform :=
       Some (λ arg,
         match arg with
         | ArgBuild ctx =>
             let filePath := bc_filePath ctx in
             let code := bc_code ctx in
             (* Only process in development mode *)
             match server (bc_config ctx) with
             | None => Returned VNull
             | Some _ =>
                 (* Inject HMR client into HTML *)
                 if Js.endsWith filePath ".html" then
                   Returned (VString
                     (Js.replaceFirst code "</head>"
                        ("<script type=" +:+ Js.str Js.dquote +:+ "module"
                         +:+ Js.str Js.dquote +:+ ">" +:+ Js.str Js.newline
                         +:+ hmrClientCode +:+ Js.str Js.newline
                         +:+ "</script></head>")))
                 (* Add HMR accept handlers to script modules *)
                 else if Regex.test scriptPath filePath then
                   if Js.includes filePath "node_modules" then Returned VNull
                   else
                     let modulePath := getBrowserModulePath root filePath in
                     Returned (VString
                       (code +:+ Js.str Js.newline
                        +:+ "// Injected by Aether HMR plugin" +:+ Js.str Js.newline
                        +:+ "import.meta.hot = __AETHER_CREATE_HOT__("
                        +:+ JSON_stringify modulePath +:+ ");" +:+ Js.str Js.newline))
                 else Returned VNull
             end
         | _ => Returned VNull
         end);
     resolveId := None; load := None; buildEnd := None;
     configureDevServer := None; handleHotUpdate := None; watchChange := None;
     closeBundle := None |}.

End Runtime.

(* ===================================================================== *)
(** * [src/server.ts] *)
(* ===================================================================== *)

Module Server.

(** [WebSocket.readyState] *)
Inductive ReadyState := CONNECTING | OPEN | CLOSING | CLOSED.

Global Instance ReadyState_eq_dec : EqDecision ReadyState.
Proof. solve_decision. Defined.

Record Client := { client_id : nat; readyState : ReadyState }.

(** [class DevServer], the fields the handlers read. *)
Record DevServer := {
  config : AetherConfig;
  plugins : list Plugin;
  clients : list Client;
  moduleGraph : gmap string (gset string);
  hmrClientCode : string
}.

(** The constructor: the HMR plugin goes first. *)
Definition newDevServer (cfg : AetherConfig) (userPlugins : list Plugin)
    (clientCode root : string) : DevServer :=
  {| config := cfg;
     plugins := Runtime.createHMRPlugin clientCode root :: userPlugins;
     clients := []; moduleGraph := ∅; hmrClientCode := clientCode |}.

Definition MIME_TYPES : list (string * string) :=
  [ (".html", "text/html"); (".js", "application/javascript");
    (".mjs", "application/javascript"); (".css", "text/css");
    (".json", "application/json"); (".png", "image/png");
    (".jpg", "image/jpeg"); (".jpeg", "image/jpeg"); (".gif", "image/gif");
    (".svg", "image/svg+xml"); (".ico", "image/x-icon"); (".txt", "text/plain");
    (".ts", "application/javascript"); (".tsx", "application/javascript");
    (".jsx", "application/javascript"); (".map", "application/json") ].

(** What [res.writeHead] and [res.end] sent. *)
Record Response := { status : nat; contentType : string; body : string }.

(** [if (result) finalContent = typeof result === 'string' ? result :
    result.code] *)
Definition applyServed (result : JsVal) (finalContent : string) : string :=
  if truthy result then
    match result with
    | VString s => s
    | VCodeMap c _ => c
    | _ => finalContent
    end
  else finalContent.

(** The transform loop of [handleRequest]. *)
Fixpoint serve_loop (idx : nat) (plugins : list Plugin) (cfg : AetherConfig)
    (filePath content finalContent : string) : M string :=
  match plugins with
  | [] => ret finalContent
  | plugin :: rest =>
      match transform plugin with
      | Some hook =>
          let* result :=
            callHook idx plugin KTransform hook
              (ArgBuild {| bc_config := cfg; bc_filePath := filePath;
                           bc_content := content; bc_code := finalContent;
                           bc_map := None |}) in
          serve_loop (S idx) rest cfg filePath content
            (applyServed result finalContent)
      | None => serve_loop (S idx) rest cfg filePath content finalContent
      end
  end.

Definition scriptExtensions : list string := [".ts"; ".tsx"; ".jsx"].

(** A request as its first two statements leave it: [new URL(req.url ||
    '/', ...)] and [decodeURIComponent(url.pathname)] are library code that
    yields the decoded pathname, or throws (an invalid URL, a malformed
    escape). *)
Definition Request : Type := Exn + string.

(** [handleRequest].  The two statements that make the pathname stand
    before any [try]: what they throw is thrown by [handleRequest], and
    nothing is answered. *)
Definition handleRequest (srv : DevServer) (request : Request) : M Response :=
  match request with
  | inl error => throw error
  | inr pathname =>
  (* Special HMR client endpoint *)
  if bool_decide (pathname = "/__aether_hmr_client") then
    ret {| status := 200; contentType := "application/javascript";
           body := hmrClientCode srv |}
  else
    (* If URL ends with '/', serve index.html *)
    let filePath :=
      if Js.endsWith pathname "/" then pathname +:+ "index.html" else pathname in
    (* Convert URL path to file path *)
    let* cwd := getCwd in
    let filePath := Path.resolve cwd [cwd; Js.sliceFrom 1 filePath] in
    (* Check if file exists *)
    let* present := fileExists filePath in
    let* located :=
      if negb present then
        let indexPath := Path.join [cwd; "index.html"] in
        let* indexPresent := fileExists indexPath in
        if bool_decide (getExtension pathname = "") && indexPresent
        then ret (Some indexPath) else ret None
      else ret (Some filePath) in
    match located with
    | None =>
        ret {| status := 404; contentType := "text/plain"; body := "404 Not Found" |}
    | Some filePath =>
        tryCatch
          ((* Read file content *)
           let* content := readFile filePath in
           (* Determine content type *)
           let ext := Js.toLowerCase (Path.extname filePath) in
           let contentType :=
             match JsMap.get MIME_TYPES ext with
             | Some t => t
             | None => "application/octet-stream"
             end in
           (* For HTML files, inject HMR client script *)
           let finalContent :=
             if bool_decide (contentType = "text/html") then
               Js.replaceFirst content "</head>"
                 ("<script type=" +:+ Js.str Js.dquote +:+ "module"
                  +:+ Js.str Js.dquote +:+ " src=" +:+ Js.str Js.dquote
                  +:+ "/__aether_hmr_client" +:+ Js.str Js.dquote
                  +:+ "></script></head>")
             else content in
           (* Transform TypeScript/JSX if needed *)
           let* finalContent :=
             if bool_decide (ext ∈ scriptExtensions) then
               serve_loop 0 (plugins srv) (config srv) filePath content finalContent
             else ret finalContent in
           (* Send response *)
           ret {| status := 200; contentType := contentType; body := finalContent |})
          (λ error,
             console_error ("Error serving " +:+ filePath +:+ ":") error;;
             ret {| status := 500; contentType := "text/plain";
                    body := "500 Internal Server Error" |})
    end
  end.

(** [getAffectedModules] *)
Definition getAffectedModules (path : string) : M (list string) :=
  console_log ("Calculating affected modules for: " +:+ path);;
  ret [].

(** [hasAcceptedUpdate]: the test [/\.(js|mjs|ts|jsx|tsx)$/]. *)
Definition hasAcceptedUpdate (path : string) : bool :=
  Regex.test
    (Regex.seq [Regex.Lit ".";
                Regex.Cap (Regex.alt [Regex.Lit "js"; Regex.Lit "mjs"; Regex.Lit "ts";
                                      Regex.Lit "jsx"; Regex.Lit "tsx"]);
                Regex.Eoi])
    path.

(** [notifyClients]: the message goes to every client whose socket is
    open.  (The wire format is the JSON text of the payload.) *)
Fixpoint notify_loop (cs : list Client) (data : HMRPayload) : M unit :=
  match cs with
  | [] => ret tt
  | client :: rest =>
      (if bool_decide (readyState client = OPEN)
       then emit (EvSend (client_id client) data) else ret tt);;
      notify_loop rest data
  end.

Definition notifyClients (srv : DevServer) (data : HMRPayload) : M unit :=
  notify_loop (clients srv) data.

(** The plugin loop of the watcher callback. *)
Fixpoint watch_loop (idx : nat) (plugins : list Plugin) (path : string) : M unit :=
  match plugins with
  | [] => ret tt
  | plugin :: rest =>
      (match watchChange plugin with
       | Some hook =>
           callHook idx plugin KWatchChange hook (ArgWatchChange path);; ret tt
       | None => ret tt
       end);;
      (match handleHotUpdate plugin with
       | Some hook =>
           callHook idx plugin KHandleHotUpdate hook (ArgHotUpdate path);; ret tt
       | None => ret tt
       end);;
      watch_loop (S idx) rest path
  end.

(** The callback [startWatcher] registers for ['change']. *)
Definition onChange (srv : DevServer) (path : string) : M unit :=
  console_log ("File changed: " +:+ path);;
  (* Determine affected modules *)
  let* timestamp := now in
  let* affectedModules := getAffectedModules path in
  (* Notify plugins *)
  watch_loop 0 (plugins srv) path;;
  (* Determine if we can use HMR or need a full reload *)
  let hmrAccepted := hasAcceptedUpdate path in
  (* Notify clients *)
  if hmrAccepted then
    notifyClients srv
      {| p_type := TUpdate; p_path := Some path; p_timestamp := Some timestamp;
         p_modules := Some (path :: affectedModules);
         p_message := None; p_stack := None |}
  else
    notifyClients srv
      {| p_type := TReload; p_path := None; p_timestamp := None;
         p_modules := None; p_message := None; p_stack := None |}.

(** [updateModuleGraph] *)
Definition updateModuleGraph (srv : DevServer) (importer : string)
    (imported : list string) : DevServer :=
  let g := if bool_decide (is_Some (moduleGraph srv !! importer))
           then moduleGraph srv else <[importer := ∅]> (moduleGraph srv) in
  {| config := config srv; plugins := plugins srv; clients := clients srv;
     moduleGraph :=
       <[importer := list_to_set imported ∪ default ∅ (g !! importer)]> g;
     hmrClientCode := hmrClientCode srv |}.

End Server.

(* ===================================================================== *)
(** * [src/hmr/client.ts] *)
(* ===================================================================== *)

Module HmrClient.

(** What the page does that can be seen. *)
Inductive ClientEvent :=
| CLog (level : LogLevel) (msg : string)
| CImport (url : string)                  (* import(url) *)
| CCall (path : string) (idx : nat)       (* the idx-th callback of a module *)
| CDispose (path : string)                (* the dispose callback of a module *)
| CReload.                                (* location.reload() *)

Global Instance ClientEvent_eq_dec : EqDecision ClientEvent.
Proof. solve_decision. Defined.

(** An update callback: foreign code, called with the module just loaded
    (named here by its URL).  Foreign code, the callbacks and the modules
    that [import(url)] evaluates, is taken by its outcome, returning or
    throwing: a callback or a freshly evaluated module that registers,
    accepts or declines while the message is being handled is outside
    this model, and so are two messages handled at once. *)
Definition HMRCallback : Type := string → Outcome.

(** [interface HMRModule] *)
Record HMRModule := { hm_id : string; callbacks : list HMRCallback }.

(** The state of the runtime in one page. *)
Record Browser := {
  hotModulesMap : list (string * HMRModule);
  pruneMap : list (string * (unit → Outcome));
  loader : string → Outcome;     (* what import(url) does *)
  dateNow : nat;                 (* Date.now() *)
  events : list ClientEvent
}.

Definition setHot (b : Browser) (m : list (string * HMRModule)) : Browser :=
  {| hotModulesMap := m; pruneMap := pruneMap b; loader := loader b;
     dateNow := dateNow b; events := events b |}.
Definition setPrune (b : Browser) (m : list (string * (unit → Outcome))) : Browser :=
  {| hotModulesMap := hotModulesMap b; pruneMap := m; loader := loader b;
     dateNow := dateNow b; events := events b |}.
Definition note (b : Browser) (e : ClientEvent) : Browser :=
  {| hotModulesMap := hotModulesMap b; pruneMap := pruneMap b; loader := loader b;
     dateNow := dateNow b; events := events b ++ [e] |}.

(** [createHotContext(ownerPath)]: registers the module if it is new.  The
    methods of the returned object follow, each taking [ownerPath]. *)
Definition createHotContext (ownerPath : string) (b : Browser) : Browser :=
  match JsMap.get (hotModulesMap b) ownerPath with
  | Some _ => b
  | None =>
      setHot b (JsMap.set (hotModulesMap b) ownerPath
                  {| hm_id := ownerPath; callbacks := [] |})
  end.

(** [hot.accept(callback)] and [hot.acceptDeps(deps, callback)]: the
    callback is pushed on the module's list; reading the list of a module
    that is not registered throws. *)
Definition accept (ownerPath : string) (callback : option HMRCallback)
    (b : Browser) : Exn + Browser :=
  match callback with
  | Some cb =>
      match JsMap.get (hotModulesMap b) ownerPath with
      | Some hm =>
          inr (setHot b (JsMap.set (hotModulesMap b) ownerPath
                           {| hm_id := hm_id hm; callbacks := callbacks hm ++ [cb] |}))
      | None => inl (Error "Cannot read properties of undefined (reading 'callbacks')")
      end
  | None => inr b
  end.

Definition acceptDeps (ownerPath : string) (deps : list string)
    (callback : option HMRCallback) (b : Browser) : Exn + Browser :=
  accept ownerPath callback b.

(** [hot.decline()] *)
Definition decline (ownerPath : string) (b : Browser) : Browser :=
  setHot b (JsMap.delete (hotModulesMap b) ownerPath).

(** [hot.invalidate()] *)
Definition invalidate (b : Browser) : Browser := note b CReload.

(** [hot.dispose(callback)] and [hot.prune(callback)] *)
Definition dispose (ownerPath : string) (callback : option (unit → Outcome))
    (b : Browser) : Browser :=
  match callback with
  | Some cb => setPrune b (JsMap.set (pruneMap b) ownerPath cb)
  | None => b
  end.

(** [for (const callback of callbacks) await callback(newModule)]: stops at
    the first callback that throws. *)
Fixpoint runCallbacks (path url : string) (idx : nat) (cbs : list HMRCallback)
    (b : Browser) : Browser * option Exn :=
  match cbs with
  | [] => (b, None)
  | cb :: rest =>
      let b := note b (CCall path idx) in
      match cb url with
      | Returned _ => runCallbacks path url (S idx) rest b
      | Thrown e => (b, Some e)
      end
  end.

(** The body of the loop of [updateModules] for one path. *)
Definition updateModule (path : string) (timestamp : nat) (b : Browser) : Browser :=
  match JsMap.get (hotModulesMap b) path with
  | None => b                                        (* continue *)
  | Some hotModule =>
      match callbacks hotModule with
      | [] => b
      | cbs =>
          let url := path +:+ "?t=" +:+ pretty timestamp in
          let b := note b (CImport url) in
          let failed b := note (note b (CLog LError
                                 ("[aether] Failed to hot update: " +:+ path)))
                            CReload in
          match loader b url with
          | Thrown _ => failed b
          | Returned _ =>
              match runCallbacks path url 0 cbs b with
              | (b, None) => note b (CLog LLog ("[aether] Hot updated: " +:+ path))
              | (b, Some _) => failed b
              end
          end
      end
  end.

(** [updateModules] *)
Fixpoint updateModules (modules : list string) (timestamp : nat) (b : Browser)
    : Browser :=
  match modules with
  | [] => b
  | path :: rest => updateModules rest timestamp (updateModule path timestamp b)
  end.

(** [pruneModule] *)
Definition pruneModule (path : string) (b : Browser) : Browser :=
  let b :=
    match JsMap.get (pruneMap b) path with
    | Some disposeCb =>
        let b := note b (CDispose path) in
        match disposeCb tt with
        | Returned _ => setPrune b (JsMap.delete (pruneMap b) path)
        | Thrown _ =>
            note b (CLog LError ("[aether] Error while pruning " +:+ path +:+ ":"))
        end
    | None => b
    end in
  setHot b (JsMap.delete (hotModulesMap b) path).

(** [handleMessage] *)
Definition handleMessage (payload : HMRPayload) (b : Browser) : Browser :=
  match p_type payload with
  | TUpdate =>
      match p_modules payload with
      | Some (m :: ms) =>
          let b := note b (CLog LLog
                     ("[aether] Module update: " +:+ Js.join ", " (m :: ms))) in
          let timestamp :=
            match p_timestamp payload with
            | Some (S t) => S t
            | _ => dateNow b
            end in
          updateModules (m :: ms) timestamp b
      | _ => b
      end
  | TReload => note (note b (CLog LLog "[aether] Full page reload")) CReload
  | TError =>
      note b (CLog LError
                ("[aether] HMR error: " +:+ default "undefined" (p_message payload)
                 +:+ Js.str Js.newline +:+ default "undefined" (p_stack payload)))
  | TPrune =>
      match p_path payload with
      | Some path =>
          if Js.truthy path then
            pruneModule path
              (note b (CLog LLog ("[aether] Pruning module: " +:+ path)))
          else b
      | None => b
      end
  end.

(** ** Vocabulary of the statements about the page *)

(** The page after it did [evs], in order. *)
Definition notes (b : Browser) (evs : list ClientEvent) : Browser :=
  foldl note b evs.

(** The cache-busting URL of an update. *)
Definition importUrl (path : string) (timestamp : nat) : string :=
  path +:+ "?t=" +:+ pretty timestamp.

(** The calls of the first [n] callbacks of a module, from position [idx]. *)
Definition callbackCalls (path : string) (idx n : nat) : list ClientEvent :=
  (λ i, CCall path i) <$> seq idx n.

Definition returns (o : Outcome) : bool :=
  match o with Returned _ => true | Thrown _ => false end.

(** Every callback of the list returns when it is given [url]. *)
Definition allReturnAt (url : string) (cbs : list HMRCallback) : bool :=
  forallb (λ cb, returns (cb url)) cbs.

(** The timestamp an update message is applied with:
    [payload.timestamp || Date.now()]. *)
Definition timestampOf (payload : HMRPayload) (b : Browser) : nat :=
  match p_timestamp payload with
  | Some (S t) => S t
  | _ => dateNow b
  end.

(** The message [{ type: 'prune', path }]. *)
Definition pruneMessage (path : string) : HMRPayload :=
  {| p_type := TPrune; p_path := Some path; p_timestamp := None;
     p_modules := None; p_message := None; p_stack := None |}.

(** The message [{ type: 'update', modules, timestamp }]. *)
Definition updateOf (modules : list string) (timestamp : option nat) : HMRPayload :=
  {| p_type := TUpdate; p_path := None; p_timestamp := timestamp;
     p_modules := Some modules; p_message := None; p_stack := None |}.

End HmrClient.

(* ===================================================================== *)
(** * Vocabulary of the statements about the server *)
(* ===================================================================== *)

Module ServerSpec.
Import Server.

(** The file a request path names. *)
Definition requestedFile (cwd pathname : string) : string :=
  Path.resolve cwd
    [cwd; Js.sliceFrom 1 (if Js.endsWith pathname "/"
                          then pathname +:+ "index.html" else pathname)].

(** The chain of transforms as the code runs it: every plugin that defines
    [transform] gets the running code, and a truthy result replaces it. *)
Fixpoint chain (plugins : list Plugin) (cfg : AetherConfig)
    (filePath content code : string) : string :=
  match plugins with
  | [] => code
  | plugin :: rest =>
      match transform plugin with
      | Some hook =>
          match hook (ArgBuild {| bc_config := cfg; bc_filePath := filePath;
                                  bc_content := content; bc_code := code;
                                  bc_map := None |}) with
          | Returned v => chain rest cfg filePath content (applyServed v code)
          | Thrown _ => code
          end
      | None => chain rest cfg filePath content code
      end
  end.

(** The calls of that chain, each with the code it was given. *)
Fixpoint chainCalls (idx : nat) (plugins : list Plugin) (cfg : AetherConfig)
    (filePath content code : string) : list Event :=
  match plugins with
  | [] => []
  | plugin :: rest =>
      match transform plugin with
      | Some hook =>
          let arg := ArgBuild {| bc_config := cfg; bc_filePath := filePath;
                                 bc_content := content; bc_code := code;
                                 bc_map := None |} in
          EvHook idx (name plugin) KTransform arg
          :: match hook arg with
             | Returned v =>
                 chainCalls (S idx) rest cfg filePath content (applyServed v code)
             | Thrown _ => []
             end
      | None => chainCalls (S idx) rest cfg filePath content code
      end
  end.

(** No transform of the chain throws. *)
Fixpoint chainReturns (plugins : list Plugin) (cfg : AetherConfig)
    (filePath content code : string) : bool :=
  match plugins with
  | [] => true
  | plugin :: rest =>
      match transform plugin with
      | Some hook =>
          match hook (ArgBuild {| bc_config := cfg; bc_filePath := filePath;
                                  bc_content := content; bc_code := code;
                                  bc_map := None |}) with
          | Returned v => chainReturns rest cfg filePath content (applyServed v code)
          | Thrown _ => false
          end
      | None => chainReturns rest cfg filePath content code
      end
  end.



(** Every [watchChange] and [handleHotUpdate] hook of the list returns. *)
Definition watchersReturn (plugins : list Plugin) (path : string) : bool :=
  forallb (λ plugin,
             match watchChange plugin with
             | Some hook =>
                 match hook (ArgWatchChange path) with
                 | Returned _ => true
                 | Thrown _ => false
                 end
             | None => true
             end
             && match handleHotUpdate plugin with
                | Some hook =>
                    match hook (ArgHotUpdate path) with
                    | Returned _ => true
                    | Thrown _ => false
                    end
                | None => true
                end) plugins.

(** The calls the watcher callback makes: per plugin, [watchChange] then
    [handleHotUpdate]. *)
Fixpoint watchCalls (idx : nat) (plugins : list Plugin) (path : string)
    : list Event :=
  match plugins with
  | [] => []
  | plugin :: rest =>
      match watchChange plugin with
      | Some _ => [EvHook idx (name plugin) KWatchChange (ArgWatchChange path)]
      | None => []
      end
      ++ match handleHotUpdate plugin with
         | Some _ => [EvHook idx (name plugin) KHandleHotUpdate (ArgHotUpdate path)]
         | None => []
         end
      ++ watchCalls (S idx) rest path
  end.

(** One message to every client whose socket is open. *)
Definition broadcast (cs : list Client) (data : HMRPayload) : list Event :=
  (λ c, EvSend (client_id c) data) <$> filter (λ c, readyState c = OPEN) cs.

(** The reading [Date.now()] gives next. *)
Definition nextTick (w : World) : nat := default 0 (head (clock w)).

Definition reloadMessage : HMRPayload :=
  {| p_type := TReload; p_path := None; p_timestamp := None; p_modules := None;
     p_message := None; p_stack := None |}.

Definition updateMessage (path : string) (timestamp : nat) : HMRPayload :=
  {| p_type := TUpdate; p_path := Some path; p_timestamp := Some timestamp;
     p_modules := Some [path]; p_message := None; p_stack := None |}.

(** The message a change of [path] makes the server broadcast. *)
Definition changeMessage (path : string) (timestamp : nat) : HMRPayload :=
  if hasAcceptedUpdate path then updateMessage path timestamp else reloadMessage.

(** C9 in the words of the specification: once a module has declined, a
    change of it makes the page reload. *)
Definition DeclineForcesReload : Prop :=
  ∀ owner timestamp b,
    HmrClient.CReload
    ∈ HmrClient.events
        (HmrClient.handleMessage (changeMessage owner timestamp)
           (HmrClient.decline owner b)).

(** A call of [watchChange] or [handleHotUpdate]. *)
Definition watcherEvent (e : Event) : Prop :=
  match e with
  | EvHook _ _ KWatchChange _ | EvHook _ _ KHandleHotUpdate _ => True
  | _ => False
  end.

End ServerSpec.

(* ===================================================================== *)
(** * Vocabulary of the statements about the build *)
(* ===================================================================== *)

(** A call of a [transform] hook: which plugin (by position) and which
    module. *)
Definition transformCall (e : Event) : option (nat * string) :=
  match e with
  | EvHook i _ KTransform (ArgBuild bc) => Some (i, bc_filePath bc)
  | _ => None
  end.

Definition transformCalls (evs : list Event) : list (nat * string) :=
  omap transformCall evs.

(** The events of resolution: calls of [resolveId]. *)
Definition resolverEvent (e : Event) : Prop :=
  match e with
  | EvHook _ _ KResolveId _ => True
  | _ => False
  end.

(** The events of a traversal: console lines and calls of [transform] and
    [resolveId]; nothing is written and no other hook runs. *)
Definition traversalEvent (e : Event) : Prop :=
  match e with
  | EvConsole _ _ _ => True
  | EvHook _ _ KTransform _ => True
  | EvHook _ _ KResolveId _ => True
  | _ => False
  end.

(** The events of materialization: directories made and files written. *)
Definition diskEvent (e : Event) : Prop :=
  match e with
  | EvMkdir _ | EvWriteFile _ _ => True
  | _ => False
  end.

(** Console lines only. *)
Definition consoleEvent (e : Event) : Prop :=
  match e with
  | EvConsole _ _ _ => True
  | _ => False
  end.

(** The files written, in order: path and content. *)
Definition writes (evs : list Event) : list (string * string) :=
  omap (λ e, match e with
             | EvWriteFile p c => Some (p, c)
             | _ => None
             end) evs.

(** The output maps handed to [buildEnd] hooks, in order. *)
Definition buildEndOutputs (evs : list Event) : list (list (string * Output)) :=
  omap (λ e, match e with
             | EvHook _ _ KBuildEnd (ArgBuildEnd _ outs) => Some outs
             | _ => None
             end) evs.

(** Console lines and calls of the hook [h]. *)
Definition hookEvent (h : HookName) (e : Event) : Prop :=
  match e with
  | EvConsole _ _ _ => True
  | EvHook _ _ h' _ => h' = h
  | _ => False
  end.

(** Anything but a call of [transform]. *)
Definition noTransform (e : Event) : Prop := transformCall e = None.

(** [c] ends within its fuel and only adds events that satisfy [P]. *)
Definition Emits {A} (P : Event → Prop) (c : M A) : Prop :=
  ∀ w, fst (c w) ≠ Diverge
       ∧ ∃ evs, trace (snd (c w)) = trace w ++ evs ∧ Forall P evs.

(** [c] leaves the disk as it is. *)
Definition KeepsDisk {A} (c : M A) : Prop :=
  ∀ w, fs (snd (c w)) = fs w ∧ cwd (snd (c w)) = cwd w.

(** [c] leaves the disk and the clock as they are, and its result depends
    on the disk only (not on the clock or on what was traced before). *)
Definition DiskOnly {A} (c : M A) : Prop :=
  ∀ w, fs (snd (c w)) = fs w ∧ cwd (snd (c w)) = cwd w
       ∧ clock (snd (c w)) = clock w
       ∧ ∀ v, fs v = fs w → cwd v = cwd w → fst (c v) = fst (c w).

(** What reading the source of a module yields: [fileExists(p) ?
    readFile(p) : ''], which throws on a directory. *)
Definition sourceOf (w : World) (filePath : string) : Res string :=
  match nodeAt w filePath with
  | Some (File c) => Ret c
  | Some Dir => Throw (Error "EISDIR: illegal operation on a directory, read")
  | None => Ret ""
  end.







(** From [w] to [w'] the working directory stayed, and what was added to
    the trace are disk events that wrote the files [ws]. *)
Definition Wrote (w w' : World) (ws : list (string * string)) : Prop :=
  cwd w' = cwd w
  ∧ ∃ evs, trace w' = trace w ++ evs ∧ Forall diskEvent evs ∧ writes evs = ws.

(** The source file of a module is missing or empty. *)
Definition missingOrEmpty (w : World) (filePath : string) : bool :=
  match nodeAt w filePath with
  | None => true
  | Some (File c) => negb (Js.truthy c)
  | Some Dir => false
  end.

Module Graph.
Import Plugins Build Dependency.

(** The modules [processFile] traverses from [filePath]: what the source
    does between reading the file and looping over its dependencies. *)
Definition moduleImports (cfg : AetherConfig) (plugins : list Plugin)
    (filePath : string) : M (list string) :=
  let* present := fileExists filePath in
  let* content := if present then readFile filePath else ret "" in
  if negb (Js.truthy content) then ret []
  else
    let* (code, map) :=
      transform_loop 0 plugins cfg filePath content content None in
    let* deps := processDependencies filePath code cfg plugins in
    ret (omap traversable deps).

(** [U] is the node set of a dependency graph of the project on the disk
    of [w]: every module traversed from a member of [U] is in [U]. *)
Definition closedUnderImports (cfg : AetherConfig) (plugins : list Plugin)
    (w : World) (U : gset string) : bool :=
  forallb (λ f,
             match fst (moduleImports cfg plugins f w) with
             | Ret rs => forallb (λ r, bool_decide (r ∈ U)) rs
             | _ => true
             end)
    (elements U).

(** The session keeps every stored output under a visited identity. *)
Definition keysVisited (ctx : BuilderContext) : Prop :=
  ∀ k, k ∈ JsMap.keys (outputs ctx) → k ∈ processed ctx.

(** What one traversal step (a call of [processFile], or a loop of such
    calls) may do to a session [ctx] in a process [w]. *)
Definition TraversalPost (ctx : BuilderContext) (w : World)
    (R : Res BuilderContext * World) : Prop :=
  fs (snd R) = fs w ∧ cwd (snd R) = cwd w ∧ clock (snd R) = clock w
  ∧ ∃ evs,
      trace (snd R) = trace w ++ evs
      ∧ Forall traversalEvent evs
      ∧ NoDup (transformCalls evs)
      ∧ (∀ i x, (i, x) ∈ transformCalls evs → x ∉ processed ctx)
      ∧ ∀ ctx', fst R = Ret ctx' →
          config ctx' = config ctx ∧ plugins ctx' = plugins ctx
          ∧ entryPoints ctx' = entryPoints ctx
          ∧ processed ctx ⊆ processed ctx'
          ∧ (∀ i x, (i, x) ∈ transformCalls evs → x ∈ processed ctx')
          ∧ ∃ added,
              outputs ctx' = outputs ctx ++ added
              ∧ NoDup (JsMap.keys added)
              ∧ ∀ k, k ∈ JsMap.keys added →
                  (k ∉ processed ctx) ∧ (k ∈ processed ctx').

(** The state of a traversal of the graph [U] (closed on the disk of
    [w0]) that still has [n] levels of recursion at its disposal. *)
Definition inGraph (cfg : AetherConfig) (pl : list Plugin) (w0 : World)
    (U : gset string) (n : nat) (ctx : BuilderContext) (w : World) : Prop :=
  config ctx = cfg ∧ plugins ctx = pl ∧ fs w = fs w0 ∧ cwd w = cwd w0
  ∧ keysVisited ctx ∧ size (U ∖ processed ctx) < n.

(** [keysVisited], as a check that can be run. *)
Definition sessionOk (ctx : BuilderContext) : bool :=
  forallb (λ k, bool_decide (k ∈ processed ctx)) (JsMap.keys (outputs ctx)).

(** The hypothesis of the termination statement, as a check that can be
    run: when the session of [build] is created, its entry points lie in
    [U] and [U] is closed under imports. *)
Definition isGraph (cfg : AetherConfig) (configPlugins : option (list PluginEntry))
    (w : World) (U : gset string) : bool :=
  match fst (createBuilderContext cfg configPlugins w) with
  | Ret ctx =>
      forallb (λ e, bool_decide (e ∈ U)) (entryPoints ctx)
      && closedUnderImports cfg (plugins ctx) w U
  | _ => true
  end.

(** Every [transform] call that [c] adds is for a different plugin or a
    different module. *)
Definition Once {A} (c : M A) : Prop :=
  ∀ w, ∃ evs, trace (snd (c w)) = trace w ++ evs ∧ NoDup (transformCalls evs).

(** The session keeps every entry of the module graph under a visited
    identity. *)
Definition graphVisited (ctx : BuilderContext) : Prop :=
  ∀ k, k ∈ JsMap.keys (moduleGraph ctx) → k ∈ processed ctx.

(** From [ctx] to [ctx'] the recorded importer edges only grew. *)
Definition depsGrow (ctx ctx' : BuilderContext) : Prop :=
  ∀ k s, dependencies ctx !! k = Some s →
         ∃ s', dependencies ctx' !! k = Some s' ∧ s ⊆ s'.

(** The edge of the module [m] to its dependency [d] has been followed in
    [ctx]: when [d] is resolved and not external, its target is visited
    and recorded among the dependencies of [m]. *)
Definition followed (ctx : BuilderContext) (m : string) (d : DependencyInfo)
    : Prop :=
  ∀ r, traversable d = Some r →
       r ∈ processed ctx
       ∧ (Js.truthy m = true → ∃ s, dependencies ctx !! m = Some s ∧ r ∈ s).

(** What a traversal step that returns has done to the module graph: the
    entries it added are for modules it visited, side by side with their
    outputs, and every edge of an added entry has been followed. *)
Definition GraphPost (ctx ctx' : BuilderContext) : Prop :=
  processed ctx ⊆ processed ctx' ∧ depsGrow ctx ctx'
  ∧ ∃ added,
      moduleGraph ctx' = moduleGraph ctx ++ added
      ∧ JsMap.keys (outputs ctx') = JsMap.keys (outputs ctx) ++ JsMap.keys added
      ∧ ∀ m deps, (m, deps) ∈ added →
          (m ∉ processed ctx) ∧ m ∈ processed ctx'
          ∧ ∀ d, d ∈ deps → followed ctx' m d.

End Graph.

(* ===================================================================== *)
(** * Sample projects *)
(* ===================================================================== *)

Module Samples.
Import Plugins Build.

(** A plugin whose [transform] hands the code back and which observes the
    end of the build. *)
Definition passThrough : Plugin :=
  {| name := "pass"; configResolved := None; configureServer := None;
     buildStart := Some (λ _, Returned VUndefined);
     transform :=
       Some (λ arg, match arg with
                    | ArgBuild bc => Returned (VString (bc_code bc))
                    | _ => Returned VNull
                    end);
     resolveId := None; load := None;
     buildEnd := Some (λ _, Returned VUndefined);
     configureDevServer := None; handleHotUpdate := None; watchChange := None;
     closeBundle := Some (λ _, Returned VUndefined) |}.

Definition configOf (e : string) : AetherConfig :=
  {| entry := EntryString e; outDir := "./dist"; server := None;
     optimize_sourcemap := true; alias := None; resolve_extensions := None;
     debug_verbose := false |}.

(** [a.ts] and [b.ts] import each other, and both import [c.ts]. *)
Definition cyclicDisk : World :=
  {| fs := {[ "/proj" := Dir;
              "/proj/a.ts" := File "import { b } from './b';
import { c } from './c';";
              "/proj/b.ts" := File "import { a } from './a';
import { c } from './c';";
              "/proj/c.ts" := File "export const c = 1;" ]};
     cwd := "/proj"; clock := [100; 130]; trace := [] |}.

Definition cyclicModules : gset string :=
  {[ "/proj/a.ts"; "/proj/b.ts"; "/proj/c.ts" ]}.

(** A session of the cyclic project in which [c.ts] was visited as an
    import of [a.ts], and [b.ts] has imported [a.ts]. *)
Definition visitedSession : Build.BuilderContext :=
  {| Build.config := configOf "./a.ts"; Build.plugins := [];
     Build.entryPoints := ["/proj/a.ts"]; Build.outputs := [];
     Build.processed := {[ "/proj/a.ts"; "/proj/b.ts"; "/proj/c.ts" ]};
     Build.dependencies := {[ "/proj/a.ts" := {[ "/proj/b.ts"; "/proj/c.ts" ]};
                              "/proj/b.ts" := {[ "/proj/a.ts" ]} ]};
     Build.moduleGraph := [] |}.


(** A project whose entry point lies beside the working directory. *)
Definition sharedDisk : World :=
  {| fs := {[ "/proj" := Dir;
              "/lib" := Dir;
              "/lib/x.ts" := File "export const x = 1;" ]};
     cwd := "/proj"; clock := [100; 130]; trace := [] |}.

(** [index.ts] imports [util.ts], which imports nothing. *)
Definition twoFileDisk : World :=
  {| fs := {[ "/proj" := Dir;
              "/proj/index.ts" := File "import { helper } from './util';";
              "/proj/util.ts" := File "export const helper = 1;" ]};
     cwd := "/proj"; clock := [100; 130]; trace := [] |}.

(** A plugin whose [transform] throws. *)
Definition failing : Plugin :=
  {| name := "failing"; configResolved := None; configureServer := None;
     buildStart := None;
     transform := Some (λ _, Thrown (Error "boom"));
     resolveId := None; load := None; buildEnd := None;
     configureDevServer := None; handleHotUpdate := None; watchChange := None;
     closeBundle := None |}.

(** A plugin whose [transform] and [resolveId] return the string [v]. *)
Definition constant (n v : string) : Plugin :=
  {| name := n; configResolved := None; configureServer := None;
     buildStart := None;
     transform := Some (λ _, Returned (VString v));
     resolveId := Some (λ _, Returned (VString v));
     load := None; buildEnd := None;
     configureDevServer := None; handleHotUpdate := None; watchChange := None;
     closeBundle := None |}.

(** A development configuration. *)
Definition devConfig : AetherConfig :=
  {| entry := EntryString "./index.ts"; outDir := "./dist";
     server := Some {| port := Some 3000; host := Some "localhost";
                       watch := Some ["src/**/*"] |};
     optimize_sourcemap := true; alias := None; resolve_extensions := None;
     debug_verbose := false |}.

(** A server with two open clients and a closed one. *)
Definition devServer (userPlugins : list Plugin) : Server.DevServer :=
  {| Server.config := devConfig;
     Server.plugins :=
       Server.plugins (Server.newDevServer devConfig userPlugins "/*client*/" "/proj");
     Server.clients :=
       [ {| Server.client_id := 1; Server.readyState := Server.OPEN |};
         {| Server.client_id := 2; Server.readyState := Server.CLOSED |};
         {| Server.client_id := 3; Server.readyState := Server.OPEN |} ];
     Server.moduleGraph := ∅; Server.hmrClientCode := "/*client*/" |}.

(** A page in which nothing is registered yet. *)
Definition emptyPage : HmrClient.Browser :=
  {| HmrClient.hotModulesMap := []; HmrClient.pruneMap := [];
     HmrClient.loader := λ _, Returned VUndefined;
     HmrClient.dateNow := 7; HmrClient.events := [] |}.

(** The page after a module has registered and accepted its own updates. *)
Definition acceptingPage (owner : string) : HmrClient.Browser :=
  match HmrClient.accept owner (Some (λ _, Returned VUndefined))
          (HmrClient.createHotContext owner emptyPage) with
  | inr b => b
  | inl _ => emptyPage
  end.

(** A page where [owner] registered three callbacks, the second of which
    throws. *)
Definition brokenPage (owner : string) : HmrClient.Browser :=
  HmrClient.setHot emptyPage
    [(owner,
      {| HmrClient.hm_id := owner;
         HmrClient.callbacks :=
           [λ _, Returned VUndefined; λ _, Thrown (Error "boom");
            λ _, Returned VUndefined] |})].

(** A page where [owner] registered a dispose callback that throws. *)
Definition disposingPage (owner : string) : HmrClient.Browser :=
  HmrClient.dispose owner (Some (λ _, Thrown (Error "boom")))
    (acceptingPage owner).

(** A small site: a page, a style sheet, a script in a directory, the
    package file that marks the project root, and two configuration
    files. *)
Definition siteDisk : World :=
  {| fs := {[ "/proj" := Dir;
              "/proj/package.json" := File "{}";
              "/proj/aether.config.js" := File "export default {};";
              "/proj/aether.config.json" := File "{}";
              "/proj/index.html" := File "<html><head></head><body></body></html>";
              "/proj/style.css" := File "body { margin: 0 }";
              "/proj/src" := Dir;
              "/proj/src/app.ts" := File "export const x = 1;" ]};
     cwd := "/proj"; clock := [100; 130]; trace := [] |}.

(** A user configuration that sets a port, an output directory and a
    plugin. *)
Definition userSettings : ConfigMerge.ConfigObject :=
  {| ConfigMerge.co_name := ConfigMerge.Absent;
     ConfigMerge.co_version := ConfigMerge.Absent;
     ConfigMerge.co_entry := ConfigMerge.Absent;
     ConfigMerge.co_outDir := ConfigMerge.Present (Some "build");
     ConfigMerge.co_server := ConfigMerge.Present (Some
       {| ConfigMerge.so_port := ConfigMerge.Present (Some 4000);
          ConfigMerge.so_host := ConfigMerge.Absent;
          ConfigMerge.so_https := ConfigMerge.Absent;
          ConfigMerge.so_open := ConfigMerge.Absent;
          ConfigMerge.so_watch := ConfigMerge.Absent |});
     ConfigMerge.co_optimize := ConfigMerge.Absent;
     ConfigMerge.co_plugins := ConfigMerge.Present (Some []);
     ConfigMerge.co_alias := ConfigMerge.Absent;
     ConfigMerge.co_resolve := ConfigMerge.Absent;
     ConfigMerge.co_debug := ConfigMerge.Absent |}.

(** Loaders under which every module exports [userSettings] and no text
    is valid JSON. *)
Definition settingsLoaders : ConfigMerge.Loaders :=
  {| ConfigMerge.parseJson := λ _, inl (Error "Unexpected token");
     ConfigMerge.importModule :=
       λ _, inr {| ConfigMerge.mod_default := Some (ConfigMerge.LObject userSettings);
                   ConfigMerge.mod_exports := ConfigMerge.emptyConfig |} |}.

(** Loaders under which every text parses to [null]. *)
Definition nullLoaders : ConfigMerge.Loaders :=
  {| ConfigMerge.parseJson := λ _, inr ConfigMerge.LNull;
     ConfigMerge.importModule := λ _, inl (Error "Cannot find module") |}.

(** A plugin standing for [typescriptPlugin()]. *)
Definition typescriptStub : Plugin :=
  {| name := "aether:typescript"; configResolved := None;
     configureServer := None; buildStart := None;
     transform := Some (λ _, Returned VNull); resolveId := None; load := None;
     buildEnd := None; configureDevServer := None; handleHotUpdate := None;
     watchChange := None; closeBundle := None |}.

(** A command line without flags. *)
Definition devNoFlags : ConfigMerge.DevOptions :=
  {| ConfigMerge.dev_config := None; ConfigMerge.dev_port := None;
     ConfigMerge.dev_host := None; ConfigMerge.dev_open := None |}.

(** A plugin whose [closeBundle] throws. *)
Definition lateFailure : Plugin :=
  {| name := "late"; configResolved := None; configureServer := None;
     buildStart := None; transform := None; resolveId := None; load := None;
     buildEnd := None; configureDevServer := None; handleHotUpdate := None;
     watchChange := None; closeBundle := Some (λ _, Thrown (Error "boom")) |}.

(** A plugin whose [watchChange] throws. *)
Definition failingWatcher : Plugin :=
  {| name := "watcher"; configResolved := None; configureServer := None;
     buildStart := None; transform := None; resolveId := None; load := None;
     buildEnd := None; configureDevServer := None; handleHotUpdate := None;
     watchChange := Some (λ _, Thrown (Error "boom")); closeBundle := None |}.

(** A project whose only entry point does not exist. *)
Definition missingEntry : AetherConfig := configOf "./nowhere.ts".

(** A session that has visited nothing. *)
Definition freshSession (cfg : AetherConfig) (pl : list Plugin)
    (entries : list string) : BuilderContext :=
  {| config := cfg; plugins := pl; entryPoints := entries; outputs := [];
     processed := ∅; dependencies := ∅; moduleGraph := [] |}.

End Samples.

(* ===================================================================== *)
(** * Checks of the platform model on concrete inputs *)
(* ===================================================================== *)

Example path_join_rel : Path.join ["/proj/src"; "./util"] = "/proj/src/util".
Proof. reflexivity. Qed.
Example path_join_up : Path.join ["/a/b"; "../c/"] = "/a/c/".
Proof. reflexivity. Qed.
Example path_resolve_rel :
  Path.resolve "/proj" ["/proj"; "./src/index.ts"] = "/proj/src/index.ts".
Proof. reflexivity. Qed.
Example path_resolve_cwd : Path.resolve "/proj" ["dist"] = "/proj/dist".
Proof. reflexivity. Qed.
Example path_dirname_file : Path.dirname "/proj/src/index.ts" = "/proj/src".
Proof. reflexivity. Qed.
Example path_dirname_top : Path.dirname "/index.ts" = "/".
Proof. reflexivity. Qed.
Example path_dirname_bare : Path.dirname "index.ts" = ".".
Proof. reflexivity. Qed.
Example path_extname_ts : Path.extname "/proj/src/App.TSX" = ".TSX".
Proof. reflexivity. Qed.
Example path_extname_hidden : Path.extname "/proj/.bashrc" = "".
Proof. reflexivity. Qed.
Example path_extname_multi : Path.extname "a.b.c" = ".c".
Proof. reflexivity. Qed.
Example path_extname_dots : Path.extname ".." = "".
Proof. reflexivity. Qed.
Example path_relative_down :
  Path.relative "/proj" "/proj" "/proj/src/index.ts" = "src/index.ts".
Proof. reflexivity. Qed.
Example path_relative_up :
  Path.relative "/proj" "/proj/dist/src" "/proj/dist/src/a.js.map" = "a.js.map".
Proof. reflexivity. Qed.
Example extract_static :
  Extract.extractImports "import { helper } from './util';" = ["./util"].
Proof. vm_compute. reflexivity. Qed.
Example extract_default :
  Extract.extractImports "import x from './a'; const y = require('./b');"
  = ["./a"; "./b"].
Proof. vm_compute. reflexivity. Qed.
Example extract_none :
  Extract.extractImports "export const helper = 1;" = [].
Proof. vm_compute. reflexivity. Qed.
Example extract_export_dynamic :
  Extract.extractImports "export * from './c'; const m = import('./d')"
  = ["./d"; "./c"].
Proof. vm_compute. reflexivity. Qed.
Example getExtension_ts : getExtension "/src/app.ts" = ".ts".
Proof. vm_compute. reflexivity. Qed.
Example getExtension_none : getExtension "/src/app" = "".
Proof. vm_compute. reflexivity. Qed.
Example getExtension_dir : getExtension "/src.d/app" = "".
Proof. vm_compute. reflexivity. Qed.

(* ===================================================================== *)
(** * The monad *)
(* ===================================================================== *)

Lemma setTrace_id w : setTrace w (trace w) = w.
Proof. by destruct w. Qed.

Lemma setTrace_nil w : setTrace w (trace w ++ []) = w.
Proof. rewrite app_nil_r. apply setTrace_id. Qed.

Lemma setTrace_setTrace w t1 t2 : setTrace (setTrace w t1) t2 = setTrace w t2.
Proof. done. Qed.

Lemma bind_ret_l {A B} (a : A) (k : A → M B) w : bind (ret a) k w = k a w.
Proof. done. Qed.

Lemma bind_emit {B} e (k : unit → M B) w :
  bind (emit e) k w = k tt (setTrace w (trace w ++ [e])).
Proof. done. Qed.

(** Extending the trace in two steps. *)
Lemma setTrace_app w t1 t2 :
  setTrace (setTrace w (trace w ++ t1)) (trace (setTrace w (trace w ++ t1)) ++ t2)
  = setTrace w (trace w ++ t1 ++ t2).
Proof. by rewrite /setTrace /= app_assoc. Qed.

(* ===================================================================== *)
(** * The plugin pipeline ([src/plugins.ts]) *)
(* ===================================================================== *)

Section pipeline.
Import Plugins.

Lemma default_last_cons (r v : JsVal) (l : list JsVal) :
  default r (last (v :: l)) = default v (last l).
Proof. rewrite last_cons. by destruct (last l). Qed.

(** A call that returns: the call is recorded and its value handed on. *)
Lemma guarded_call_returns idx plugin h hook ctx v w :
  hook ctx = Returned v →
  tryCatch (callHook idx plugin h hook ctx)
    (λ error,
       console_error ("Error in plugin " +:+ name plugin +:+ " at hook "
                      +:+ hookNameString h +:+ ":") error;;
       throw error) w
  = (Ret v, setTrace w (trace w ++ [EvHook idx (name plugin) h ctx])).
Proof. intros Hv. by rewrite /tryCatch /callHook /bind /= Hv. Qed.

(** A call that throws: the call and the report are recorded, and the
    thrown value itself is thrown again. *)
Lemma guarded_call_throws idx plugin h hook ctx e w :
  hook ctx = Thrown e →
  tryCatch (callHook idx plugin h hook ctx)
    (λ error,
       console_error ("Error in plugin " +:+ name plugin +:+ " at hook "
                      +:+ hookNameString h +:+ ":") error;;
       throw error) w
  = (Throw e,
     setTrace w (trace w ++
       [EvHook idx (name plugin) h ctx;
        EvConsole LError ("Error in plugin " +:+ name plugin +:+ " at hook "
                          +:+ hookNameString h +:+ ":") (Some e)])).
Proof.
  intros Hv.
  rewrite /tryCatch /callHook /bind /= Hv /= /console_error /emit /throw /=.
  by rewrite -app_assoc.
Qed.

(** The loop, when no hook throws: the running result is replaced by
    every value that is neither [null] nor [undefined]. *)
Lemma applyPluginHook_loop_returns plugins h ctx :
  allReturn plugins h ctx = true →
  ∀ idx r w,
    applyPluginHook_loop idx plugins h ctx r w
    = (Ret (default r (last (filter (λ v, notNullish v = true)
                               (hookValues plugins h ctx)))),
       setTrace w (trace w ++ hookCalls idx plugins h ctx)).
Proof.
  induction plugins as [|p ps IH]; intros Hall idx r w; simpl.
  - by rewrite setTrace_nil.
  - simpl in Hall. apply andb_prop in Hall as [Hp Hps].
    destruct (hookOf p h) as [hook|] eqn:Hh; [|by apply IH].
    destruct (hook ctx) as [v|e] eqn:Hv; [|done].
    rewrite /bind (guarded_call_returns _ _ _ _ _ v) // IH //.
    rewrite setTrace_app /=. f_equal.
    rewrite filter_cons. destruct (notNullish v) eqn:Hn.
    + case_decide; [|done]. by rewrite default_last_cons.
    + by case_decide.
Qed.

(** The value of the loop depends neither on the positions nor on the
    process state. *)
Lemma applyPluginHook_loop_value plugins h ctx :
  ∀ i j r w w',
    fst (applyPluginHook_loop i plugins h ctx r w)
    = fst (applyPluginHook_loop j plugins h ctx r w').
Proof.
  induction plugins as [|p ps IH]; intros i j r w w'; simpl; [done|].
  destruct (hookOf p h) as [hook|] eqn:Hh; [|by apply IH].
  destruct (hook ctx) as [v|e] eqn:Hv.
  - rewrite /bind !(guarded_call_returns _ _ _ _ _ v) //.
  - rewrite /bind !(guarded_call_throws _ _ _ _ _ e) //.
Qed.

End pipeline.

(** C2.  [applyPluginHook] calls the hook of every plugin that defines it,
    in list order, and returns the last value that is neither [null] nor
    [undefined] (last-wins); plugins without the hook are skipped and a
    [null]/[undefined] result leaves the running result as it is.  With
    two plugins that both return a value the result is the second one's;
    when only the first returns a value the result is the first one's. *)
Theorem applyPluginHook_last_wins :
  (∀ plugins h ctx w,
     Plugins.allReturn plugins h ctx = true →
     Plugins.applyPluginHook plugins h ctx w
     = (Ret (Plugins.lastWins (Plugins.hookValues plugins h ctx)),
        setTrace w (trace w ++ Plugins.hookCalls 0 plugins h ctx)))
  ∧ (∀ P1 P2 h f1 f2 v1 v2 ctx w,
       hookOf P1 h = Some f1 → hookOf P2 h = Some f2 →
       f1 ctx = Returned v1 → f2 ctx = Returned v2 →
       notNullish v1 = true →
       fst (Plugins.applyPluginHook [P1; P2] h ctx w)
       = Ret (if notNullish v2 then v2 else v1))
  ∧ (∀ P plugins h ctx w,
       hookOf P h = None →
       fst (Plugins.applyPluginHook (P :: plugins) h ctx w)
       = fst (Plugins.applyPluginHook plugins h ctx w)).
Proof.
  split; [|split].
  - intros plugins h ctx w Hall.
    by rewrite /Plugins.applyPluginHook applyPluginHook_loop_returns.
  - intros P1 P2 h f1 f2 v1 v2 ctx w H1 H2 Hv1 Hv2 Hn1.
    rewrite /Plugins.applyPluginHook applyPluginHook_loop_returns;
      [by rewrite /= H1 H2 Hv1 Hv2|].
    rewrite /= H1 H2 Hv1 Hv2 /= !filter_cons filter_nil.
    rewrite (decide_True (P := notNullish v1 = true)) //.
    destruct (notNullish v2) eqn:Hn2; by case_decide.
  - intros P plugins h ctx w HP.
    rewrite /Plugins.applyPluginHook /= HP.
    apply applyPluginHook_loop_value.
Qed.

(** Three plugins, the middle one without [transform]: the third one's
    value is the result. *)
Lemma applyPluginHook_last_wins_witness :
  fst (Plugins.applyPluginHook
         [Samples.constant "one" "1"; barePlugin "none"; Samples.constant "two" "2"]
         KTransform ArgNone Samples.twoFileDisk)
  = Ret (VString "2").
Proof.
  destruct applyPluginHook_last_wins as (Hall & _).
  rewrite Hall.
  - vm_compute. reflexivity.
  - vm_compute. reflexivity.
Defined.

(* ===================================================================== *)
(** * Reasoning about computations *)
(* ===================================================================== *)

Section monad_facts.
Context {A B : Type}.

Lemma bind_inv (c : M A) (k : A → M B) w r w' :
  bind c k w = (r, w') →
  (∃ a w1, c w = (Ret a, w1) ∧ k a w1 = (r, w'))
  ∨ (∃ e, c w = (Throw e, w') ∧ r = Throw e)
  ∨ (c w = (Diverge, w') ∧ r = Diverge).
Proof.
  rewrite /bind. destruct (c w) as [[a|e|] w1]; intros; simplify_eq; eauto 10.
Qed.

Lemma bind_ret_inv (c : M A) (k : A → M B) w b w' :
  bind c k w = (Ret b, w') →
  ∃ a w1, c w = (Ret a, w1) ∧ k a w1 = (Ret b, w').
Proof.
  intros [(a & w1 & ? & ?)|[(e & ? & ?)|[? ?]]]%bind_inv; simplify_eq; eauto.
Qed.

Lemma bind_eq (c : M A) (k : A → M B) w a w1 :
  c w = (Ret a, w1) → bind c k w = k a w1.
Proof. rewrite /bind. by intros ->. Qed.

End monad_facts.

Section emits.
Context (P : Event → Prop).

Lemma Emits_ret {A} (a : A) : Emits P (ret a).
Proof. intros w. split; [done|]. exists []. by rewrite app_nil_r. Qed.

Lemma Emits_throw {A} e : Emits P (throw (A:=A) e).
Proof. intros w. split; [done|]. exists []. by rewrite app_nil_r. Qed.

Lemma Emits_bind {A B} (c : M A) (k : A → M B) :
  Emits P c → (∀ a, Emits P (k a)) → Emits P (bind c k).
Proof.
  intros Hc Hk w. destruct (Hc w) as (Hnd & evs & Ht & HP).
  rewrite /bind. destruct (c w) as [[a|e|] w1]; simpl in *; [|eauto|done].
  destruct (Hk a w1) as (Hnd' & evs' & Ht' & HP'). split; [done|].
  exists (evs ++ evs'). rewrite Ht' Ht app_assoc. split; [done|].
  by apply Forall_app.
Qed.

Lemma Emits_tryCatch {A} (c : M A) (h : Exn → M A) :
  Emits P c → (∀ e, Emits P (h e)) → Emits P (tryCatch c h).
Proof.
  intros Hc Hh w. destruct (Hc w) as (Hnd & evs & Ht & HP).
  rewrite /tryCatch. destruct (c w) as [[a|e|] w1]; simpl in *; [eauto| |done].
  destruct (Hh e w1) as (Hnd' & evs' & Ht' & HP'). split; [done|].
  exists (evs ++ evs'). rewrite Ht' Ht app_assoc. split; [done|].
  by apply Forall_app.
Qed.

Lemma Emits_emit e : P e → Emits P (emit e).
Proof. intros He w. split; [done|]. exists [e]. split; [done|]. by constructor. Qed.

Lemma Emits_callHook idx plugin h hook arg :
  P (EvHook idx (name plugin) h arg) → Emits P (callHook idx plugin h hook arg).
Proof.
  intros He. apply Emits_bind; [by apply Emits_emit|].
  intros _. destruct (hook arg); [apply Emits_ret|apply Emits_throw].
Qed.

Lemma Emits_existsSync p : Emits P (existsSync p).
Proof. intros w. split; [done|]. exists []. by rewrite app_nil_r. Qed.

Lemma Emits_readFileSync p : Emits P (readFileSync p).
Proof.
  intros w. rewrite /readFileSync.
  destruct (nodeAt w p) as [[c|]|]; (split; [done|]);
    exists []; by rewrite app_nil_r.
Qed.

Lemma Emits_getCwd : Emits P getCwd.
Proof. intros w. split; [done|]. exists []. by rewrite app_nil_r. Qed.

Lemma Emits_now : Emits P now.
Proof.
  intros w. rewrite /now. destruct (clock w); (split; [done|]);
    exists []; by rewrite /= app_nil_r.
Qed.

Lemma Emits_mkdirSync p : P (EvMkdir p) → Emits P (mkdirSync p).
Proof.
  intros He w. rewrite /mkdirSync.
  repeat case_match; (split; [done|]); simpl;
    first [ by (exists []; rewrite app_nil_r)
          | exists [EvMkdir p]; split; [done|]; by constructor ].
Qed.

Lemma Emits_writeFileSync p content :
  P (EvWriteFile p content) → Emits P (writeFileSync p content).
Proof.
  intros He w. rewrite /writeFileSync.
  repeat case_match; (split; [done|]); simpl;
    first [ by (exists []; rewrite app_nil_r)
          | exists [EvWriteFile p content]; split; [done|]; by constructor ].
Qed.
End emits.

Lemma Emits_weaken {A} (P Q : Event → Prop) (c : M A) :
  (∀ e, P e → Q e) → Emits P c → Emits Q c.
Proof.
  intros HPQ Hc w. destruct (Hc w) as (? & evs & ? & HP). split; [done|].
  exists evs. split; [done|]. by eapply Forall_impl.
Qed.

Section disk_only.

Lemma DiskOnly_ret {A} (a : A) : DiskOnly (ret a).
Proof. by intros w. Qed.

Lemma DiskOnly_throw {A} e : DiskOnly (throw (A:=A) e).
Proof. by intros w. Qed.

Lemma DiskOnly_bind {A B} (c : M A) (k : A → M B) :
  DiskOnly c → (∀ a, DiskOnly (k a)) → DiskOnly (bind c k).
Proof.
  intros Hc Hk w. destruct (Hc w) as (Hfs & Hcwd & Hck & Hv).
  rewrite /bind.
  destruct (c w) as [[a|e|] w1] eqn:Hcw; simpl in *.
  - destruct (Hk a w1) as (Hfs' & Hcwd' & Hck' & Hv').
    repeat split; [congruence..|].
    intros v Hf Hc'. specialize (Hv v Hf Hc').
    destruct (Hc v) as (Hfsv & Hcwdv & _ & _).
    destruct (c v) as [[a'|e'|] v1]; simpl in *; simplify_eq.
    apply Hv'; congruence.
  - repeat split; [done..|]. intros v Hf Hc'. specialize (Hv v Hf Hc').
    destruct (c v) as [[a'|e'|] v1]; by simplify_eq/=.
  - repeat split; [done..|]. intros v Hf Hc'. specialize (Hv v Hf Hc').
    destruct (c v) as [[a'|e'|] v1]; by simplify_eq/=.
Qed.

Lemma DiskOnly_tryCatch {A} (c : M A) (h : Exn → M A) :
  DiskOnly c → (∀ e, DiskOnly (h e)) → DiskOnly (tryCatch c h).
Proof.
  intros Hc Hh w. destruct (Hc w) as (Hfs & Hcwd & Hck & Hv).
  rewrite /tryCatch.
  destruct (c w) as [[a|e|] w1] eqn:Hcw; simpl in *.
  - repeat split; [done..|]. intros v Hf Hc'. specialize (Hv v Hf Hc').
    destruct (c v) as [[a'|e'|] v1]; by simplify_eq/=.
  - destruct (Hh e w1) as (Hfs' & Hcwd' & Hck' & Hv').
    repeat split; [congruence..|].
    intros v Hf Hc'. specialize (Hv v Hf Hc').
    destruct (Hc v) as (Hfsv & Hcwdv & _ & _).
    destruct (c v) as [[a'|e'|] v1]; simpl in *; simplify_eq.
    apply Hv'; congruence.
  - repeat split; [done..|]. intros v Hf Hc'. specialize (Hv v Hf Hc').
    destruct (c v) as [[a'|e'|] v1]; by simplify_eq/=.
Qed.

Lemma DiskOnly_emit e : DiskOnly (emit e).
Proof. by intros w. Qed.

Lemma DiskOnly_callHook idx plugin h hook arg :
  DiskOnly (callHook idx plugin h hook arg).
Proof.
  apply DiskOnly_bind; [apply DiskOnly_emit|].
  intros _. destruct (hook arg); [apply DiskOnly_ret|apply DiskOnly_throw].
Qed.

Lemma nodeAt_ext v w p : fs v = fs w → cwd v = cwd w → nodeAt v p = nodeAt w p.
Proof. rewrite /nodeAt. by intros -> ->. Qed.

Lemma notFound_ext v w p call :
  fs v = fs w → cwd v = cwd w → notFound v p call = notFound w p call.
Proof. rewrite /notFound. by intros -> ->. Qed.

Lemma DiskOnly_existsSync p : DiskOnly (existsSync p).
Proof.
  intros w. repeat split. intros v Hf Hc.
  by rewrite /existsSync /= (nodeAt_ext v w).
Qed.

Lemma DiskOnly_readFileSync p : DiskOnly (readFileSync p).
Proof.
  intros w. rewrite /readFileSync.
  repeat split; try by destruct (nodeAt w p) as [[c|]|].
  intros v Hf Hc. rewrite (nodeAt_ext v w) // (notFound_ext v w) //.
  by destruct (nodeAt w p) as [[c|]|].
Qed.

Lemma DiskOnly_getCwd : DiskOnly getCwd.
Proof. intros w. repeat split. intros v _ Hc. by rewrite /getCwd /= Hc. Qed.

End disk_only.

(** Unfolding a computation made of the pieces above. *)
Ltac emits_step :=
  first
    [ apply Emits_ret | apply Emits_throw | apply Emits_getCwd | apply Emits_now
    | apply Emits_existsSync | apply Emits_readFileSync
    | apply Emits_bind; [|intros ?]
    | apply Emits_tryCatch; [|intros ?]
    | apply Emits_emit | apply Emits_callHook
    | apply Emits_mkdirSync | apply Emits_writeFileSync
    | match goal with
      | |- Emits _ (if ?b then _ else _) => destruct b
      | |- Emits _ (match ?x with _ => _ end) => destruct x
      | |- Emits _ (let '(_, _) := ?x in _) => destruct x
      end ].

Ltac disk_step :=
  first
    [ apply DiskOnly_ret | apply DiskOnly_throw | apply DiskOnly_getCwd
    | apply DiskOnly_existsSync | apply DiskOnly_readFileSync
    | apply DiskOnly_bind; [|intros ?]
    | apply DiskOnly_tryCatch; [|intros ?]
    | apply DiskOnly_emit | apply DiskOnly_callHook
    | match goal with
      | |- DiskOnly (if ?b then _ else _) => destruct b
      | |- DiskOnly (match ?x with _ => _ end) => destruct x
      | |- DiskOnly (let '(_, _) := ?x in _) => destruct x
      end ].

(* ===================================================================== *)
(** * What each part of the engine emits and reads *)
(* ===================================================================== *)

Lemma resolverEvent_traversal e : resolverEvent e → traversalEvent e.
Proof. by destruct e as [| ? ? [] ?| | |]. Qed.

Lemma resolverEvent_no_transform e : resolverEvent e → transformCall e = None.
Proof. by destruct e as [| ? ? [] ?| | |]. Qed.

Lemma transformCalls_app evs1 evs2 :
  transformCalls (evs1 ++ evs2) = transformCalls evs1 ++ transformCalls evs2.
Proof. apply omap_app. Qed.

Lemma transformCalls_none evs :
  Forall (λ e, transformCall e = None) evs → transformCalls evs = [].
Proof.
  induction 1 as [|e evs He _ IH]; [done|]. by rewrite /transformCalls /= He.
Qed.

Section parts.
Import Plugins Dependency Build.

Lemma Emits_applyPluginHook plugins h ctx :
  Emits (hookEvent h) (applyPluginHook plugins h ctx).
Proof.
  rewrite /applyPluginHook. generalize 0 VNull.
  induction plugins as [|p ps IH]; intros idx r; simpl; [apply Emits_ret|].
  destruct (hookOf p h); [|apply IH].
  apply Emits_bind; [|intros ?; apply IH].
  rewrite /console_error. repeat emits_step; done.
Qed.

Lemma Emits_loadPlugins ps : Emits consoleEvent (loadPlugins ps).
Proof.
  induction ps as [|p ps IH]; simpl; [apply Emits_ret|].
  apply Emits_bind; [|intros ?; apply Emits_bind; [apply IH|intros ?; apply Emits_ret]].
  rewrite /console_error /console_warn. repeat emits_step; done.
Qed.

Lemma Emits_closeBundle_loop plugins idx :
  Emits (hookEvent KCloseBundle) (closeBundle_loop idx plugins).
Proof.
  revert idx. induction plugins as [|p ps IH]; intros idx; simpl; [apply Emits_ret|].
  destruct (closeBundle p); [|apply IH].
  apply Emits_bind; [by apply Emits_callHook|intros ?; apply IH].
Qed.

Lemma Emits_transform_loop plugins idx cfg f content code map :
  Emits traversalEvent (transform_loop idx plugins cfg f content code map).
Proof.
  revert idx code map.
  induction plugins as [|p ps IH]; intros idx code map; simpl; [apply Emits_ret|].
  destruct (transform p); [|apply IH].
  apply Emits_bind.
  - rewrite /console_error. repeat emits_step; done.
  - intros r. destruct (applyResult r code map). apply IH.
Qed.

Lemma DiskOnly_transform_loop plugins idx cfg f content code map :
  DiskOnly (transform_loop idx plugins cfg f content code map).
Proof.
  revert idx code map.
  induction plugins as [|p ps IH]; intros idx code map; simpl; [apply DiskOnly_ret|].
  destruct (transform p); [|apply IH].
  apply DiskOnly_bind.
  - rewrite /console_error. repeat disk_step.
  - intros r. destruct (applyResult r code map). apply IH.
Qed.

Lemma Emits_resolveId_loop plugins idx rc :
  Emits resolverEvent (resolveId_loop idx plugins rc).
Proof.
  revert idx. induction plugins as [|p ps IH]; intros idx; simpl; [apply Emits_ret|].
  destruct (resolveId p); [|apply IH].
  apply Emits_bind; [by apply Emits_callHook|].
  intros v. destruct (truthy v); [apply Emits_ret|apply IH].
Qed.

Lemma DiskOnly_resolveId_loop plugins idx rc :
  DiskOnly (resolveId_loop idx plugins rc).
Proof.
  revert idx. induction plugins as [|p ps IH]; intros idx; simpl; [apply DiskOnly_ret|].
  destruct (resolveId p); [|apply IH].
  apply DiskOnly_bind; [by apply DiskOnly_callHook|].
  intros v. destruct (truthy v); [apply DiskOnly_ret|apply IH].
Qed.

Lemma Emits_firstExisting P cands : Emits P (firstExisting cands).
Proof.
  induction cands as [|c cs IH]; simpl; [apply Emits_ret|].
  apply Emits_bind; [apply Emits_existsSync|].
  intros []; [apply Emits_ret|apply IH].
Qed.

Lemma DiskOnly_firstExisting cands : DiskOnly (firstExisting cands).
Proof.
  induction cands as [|c cs IH]; simpl; [apply DiskOnly_ret|].
  apply DiskOnly_bind; [apply DiskOnly_existsSync|].
  intros []; [apply DiskOnly_ret|apply IH].
Qed.

Lemma Emits_resolveWithExtensions P s b cfg :
  Emits P (resolveWithExtensions s b cfg).
Proof.
  rewrite /resolveWithExtensions.
  repeat first [apply Emits_firstExisting | emits_step].
Qed.

Lemma DiskOnly_resolveWithExtensions s b cfg :
  DiskOnly (resolveWithExtensions s b cfg).
Proof.
  rewrite /resolveWithExtensions.
  repeat first [apply DiskOnly_firstExisting | disk_step].
Qed.

Lemma Emits_resolveModuleSpecifier s imp cfg plugins :
  Emits resolverEvent (resolveModuleSpecifier s imp cfg plugins).
Proof.
  rewrite /resolveModuleSpecifier.
  repeat first [apply Emits_resolveId_loop | apply Emits_resolveWithExtensions
               | emits_step].
Qed.

Lemma DiskOnly_resolveModuleSpecifier s imp cfg plugins :
  DiskOnly (resolveModuleSpecifier s imp cfg plugins).
Proof.
  rewrite /resolveModuleSpecifier.
  repeat first [apply DiskOnly_resolveId_loop | apply DiskOnly_resolveWithExtensions
               | disk_step].
Qed.

Lemma Emits_processDependencies f code cfg plugins :
  Emits resolverEvent (processDependencies f code cfg plugins).
Proof.
  rewrite /processDependencies. generalize (Extract.extractImports code).
  induction l as [|s l IH]; simpl; [apply Emits_ret|].
  repeat first [apply Emits_resolveModuleSpecifier | apply IH | emits_step].
Qed.

Lemma DiskOnly_processDependencies f code cfg plugins :
  DiskOnly (processDependencies f code cfg plugins).
Proof.
  rewrite /processDependencies. generalize (Extract.extractImports code).
  induction l as [|s l IH]; simpl; [apply DiskOnly_ret|].
  repeat first [apply DiskOnly_resolveModuleSpecifier | apply IH | disk_step].
Qed.

Lemma Emits_writeFile p content : Emits diskEvent (writeFile p content).
Proof. rewrite /writeFile. repeat emits_step; done. Qed.

Lemma Emits_writeOutputs ctx : Emits diskEvent (writeOutputs ctx).
Proof.
  rewrite /writeOutputs.
  apply Emits_bind; [apply Emits_getCwd|intros cwd].
  apply Emits_bind; [apply Emits_existsSync|intros present].
  apply Emits_bind; [destruct present; repeat emits_step; done|intros _].
  generalize tt. induction (outputs ctx) as [|[f out] outs IH]; intros u; simpl;
    [apply Emits_ret|].
  apply Emits_bind; [|intros ?; apply IH].
  repeat first [apply Emits_writeFile | emits_step]; done.
Qed.

End parts.

(* ===================================================================== *)
(** * The traversal ([processFile]) *)
(* ===================================================================== *)

Section traversal.
Import Plugins Dependency Build Graph.

(** Reading the source of a module. *)
Lemma read_source {B} f (k : string → M B) w :
  bind (fileExists f) (λ present,
    bind (if present then readFile f else ret "") k) w
  = match sourceOf w f with
    | Ret c => k c w
    | Throw e => (Throw e, w)
    | Diverge => (Diverge, w)
    end.
Proof.
  rewrite /bind /fileExists /existsSync /readFile /readFileSync /sourceOf /=.
  destruct (nodeAt w f) as [[c|]|] eqn:Hf; by rewrite /= ?Hf.
Qed.

Lemma recordImporter_fields ctx f imp :
  config (recordImporter ctx f imp) = config ctx
  ∧ plugins (recordImporter ctx f imp) = plugins ctx
  ∧ entryPoints (recordImporter ctx f imp) = entryPoints ctx
  ∧ outputs (recordImporter ctx f imp) = outputs ctx
  ∧ processed (recordImporter ctx f imp) = processed ctx
  ∧ moduleGraph (recordImporter ctx f imp) = moduleGraph ctx.
Proof. rewrite /recordImporter. destruct imp as [i|]; [destruct (Js.truthy i)|]; done. Qed.

(** [set] of a key that is not there appends. *)
Lemma JsMap_set_fresh {V} (m : list (string * V)) k v :
  k ∉ JsMap.keys m → JsMap.set m k v = m ++ [(k, v)].
Proof.
  induction m as [|[k' v'] m IH]; simpl; [done|].
  rewrite /JsMap.keys /= => /not_elem_of_cons [Hne Hnin].
  rewrite bool_decide_false; [done|]. by rewrite IH.
Qed.

(** The calls of the transform loop are for the module at hand, one per
    position from [idx] on. *)
Lemma transform_loop_calls plugins cfg f content :
  ∀ idx code map w,
    ∃ evs,
      trace (snd (transform_loop idx plugins cfg f content code map w))
      = trace w ++ evs
      ∧ Forall (λ c, idx ≤ c.1 ∧ c.2 = f) (transformCalls evs)
      ∧ NoDup (transformCalls evs).
Proof.
  induction plugins as [|p ps IH]; intros idx code map w; simpl.
  { exists []. rewrite app_nil_r. split; [done|]. split; constructor. }
  destruct (transform p) as [hook|]; last first.
  { destruct (IH (S idx) code map w) as (evs & Ht & Hall & Hnd).
    exists evs. split; [done|]. split; [|done].
    eapply Forall_impl; [done|]. intros [] [? ?]; split; [simpl in *; lia|done]. }
  rewrite /bind /tryCatch /callHook /bind /=.
  set (arg := ArgBuild _).
  destruct (hook arg) as [v|e]; simpl.
  - destruct (applyResult v code map) as [code' map'].
    set (w1 := setTrace w _).
    destruct (IH (S idx) code' map' w1) as (evs & Ht & Hall & Hnd).
    exists (EvHook idx (name p) KTransform arg :: evs).
    rewrite Ht /= -app_assoc. split; [done|].
    rewrite /transformCalls /= -/(transformCalls evs). split.
    + constructor; [done|]. eapply Forall_impl; [done|].
      intros [] [? ?]; split; [simpl in *; lia|done].
    + constructor; [|done]. intros Hin.
      eapply Forall_forall in Hall; [|done]. simpl in Hall. lia.
  - exists [EvHook idx (name p) KTransform arg;
            EvConsole LError ("Error in plugin " +:+ name p +:+ " transforming "
                              +:+ f +:+ ":") (Some e)].
    rewrite /= -app_assoc /=. split; [done|].
    rewrite /transformCalls /=. split; [by repeat constructor|].
    apply NoDup_singleton.
Qed.

Lemma TraversalPost_ret ctx w : TraversalPost ctx w (Ret ctx, w).
Proof.
  split_and!; [done..|]. exists []. rewrite app_nil_r.
  split_and!; [done|constructor|constructor|by intros ?? ?%elem_of_nil|].
  intros ctx' [= <-]. split_and!; [done..|by intros ?? ?%elem_of_nil|].
  exists []. rewrite app_nil_r. split_and!; [done|constructor|].
  by intros ? ?%elem_of_nil.
Qed.

(** A step that ends without a session: only the trace matters. *)
Lemma TraversalPost_stop ctx w (r : Res BuilderContext) w' evs :
  (∀ ctx', r ≠ Ret ctx') →
  fs w' = fs w → cwd w' = cwd w → clock w' = clock w →
  trace w' = trace w ++ evs →
  Forall traversalEvent evs →
  NoDup (transformCalls evs) →
  (∀ i x, (i, x) ∈ transformCalls evs → x ∉ processed ctx) →
  TraversalPost ctx w (r, w').
Proof.
  intros Hr ???????. split_and!; [done..|]. exists evs.
  split_and!; [done..|]. intros ctx' ?. by destruct (Hr ctx').
Qed.

Lemma TraversalPost_compose ctx w ctx1 w1 R :
  TraversalPost ctx w (Ret ctx1, w1) → TraversalPost ctx1 w1 R →
  TraversalPost ctx w R.
Proof.
  intros (Hfs1 & Hcwd1 & Hck1 & evs1 & Ht1 & Htv1 & Hnd1 & Hnew1 & Hret1)
         (Hfs2 & Hcwd2 & Hck2 & evs2 & Ht2 & Htv2 & Hnd2 & Hnew2 & Hret2).
  simpl in *.
  destruct (Hret1 ctx1 eq_refl)
    as (Hc1 & Hp1 & He1 & Hsub1 & Hin1 & added1 & Ho1 & Hk1 & Hkin1).
  split_and!; [congruence..|].
  exists (evs1 ++ evs2). rewrite Ht2 Ht1 app_assoc transformCalls_app.
  split; [done|]. split; [by apply Forall_app|]. split.
  { apply NoDup_app. split; [done|]. split; [|done].
    intros [i x] Hx1 Hx2. by eapply Hnew2, Hin1. }
  split.
  { intros i x [Hx|Hx]%elem_of_app; [by eapply Hnew1|].
    intros Hp. by eapply Hnew2, Hsub1. }
  intros ctx' Hctx'.
  destruct (Hret2 ctx' Hctx')
    as (Hc2 & Hp2 & He2 & Hsub2 & Hin2 & added2 & Ho2 & Hk2 & Hkin2).
  split_and!; [congruence..|by etrans| |].
  { intros i x [Hx|Hx]%elem_of_app; [by eapply Hsub2, Hin1|by eapply Hin2]. }
  exists (added1 ++ added2). rewrite Ho2 Ho1 app_assoc. split; [done|].
  rewrite /JsMap.keys fmap_app. split.
  { apply NoDup_app. split; [done|]. split; [|done].
    intros k Hk1' Hk2'. destruct (Hkin1 k Hk1'), (Hkin2 k Hk2'). done. }
  intros k [Hk|Hk]%elem_of_app.
  - destruct (Hkin1 k Hk) as [Hn Hi]. split; [done|]. by apply Hsub2.
  - destruct (Hkin2 k Hk) as [Hn Hi]. split; [|done]. intros ?. by apply Hn, Hsub1.
Qed.

Lemma keysVisited_post ctx w ctx' w' :
  keysVisited ctx → TraversalPost ctx w (Ret ctx', w') → keysVisited ctx'.
Proof.
  intros Hkv (_ & _ & _ & evs & _ & _ & _ & _ & Hret).
  destruct (Hret ctx' eq_refl) as (_ & _ & _ & Hsub & _ & added & Ho & _ & Hkin).
  intros k. rewrite Ho /JsMap.keys fmap_app.
  intros [Hk|Hk]%elem_of_app; [by apply Hsub, Hkv|by apply Hkin].
Qed.

(** A loop of steps is a step. *)
Lemma forEachM_post {X} (body : BuilderContext → X → M BuilderContext) xs :
  (∀ ctx x w, keysVisited ctx → TraversalPost ctx w (body ctx x w)) →
  ∀ ctx w, keysVisited ctx → TraversalPost ctx w (forEachM body xs ctx w).
Proof.
  intros Hbody. induction xs as [|x xs IH]; intros ctx w Hkv; simpl.
  { apply TraversalPost_ret. }
  specialize (Hbody ctx x w Hkv). rewrite /bind.
  destruct (body ctx x w) as [[ctx1|e|] w1] eqn:Hb; [|done..].
  eapply TraversalPost_compose; [done|].
  apply IH. by eapply keysVisited_post.
Qed.

End traversal.

Section traversal_steps.
Import Plugins Dependency Build Graph.

Lemma transform_loop_facts plugins cfg f content idx code map w :
  let R := transform_loop idx plugins cfg f content code map w in
  fst R ≠ Diverge ∧ fs (snd R) = fs w ∧ cwd (snd R) = cwd w
  ∧ clock (snd R) = clock w
  ∧ ∃ evs, trace (snd R) = trace w ++ evs ∧ Forall traversalEvent evs
           ∧ Forall (λ c, c.2 = f) (transformCalls evs)
           ∧ NoDup (transformCalls evs).
Proof.
  intros R.
  destruct (Emits_transform_loop plugins idx cfg f content code map w)
    as (Hnd & evs & Ht & Htv).
  destruct (DiskOnly_transform_loop plugins idx cfg f content code map w)
    as (Hfs & Hcwd & Hck & _).
  destruct (transform_loop_calls plugins cfg f content idx code map w)
    as (evs' & Ht' & Hall & Hno).
  split_and!; [done..|]. exists evs.
  assert (evs' = evs) as -> by (apply (app_inv_head (trace w)); congruence).
  split_and!; [done..| |done].
  eapply Forall_impl; [done|]. by intros ? [_ ?].
Qed.

Lemma processDependencies_facts f code cfg plugins w :
  let R := processDependencies f code cfg plugins w in
  fst R ≠ Diverge ∧ fs (snd R) = fs w ∧ cwd (snd R) = cwd w
  ∧ clock (snd R) = clock w
  ∧ ∃ evs, trace (snd R) = trace w ++ evs ∧ Forall traversalEvent evs
           ∧ transformCalls evs = [].
Proof.
  intros R.
  destruct (Emits_processDependencies f code cfg plugins w)
    as (Hnd & evs & Ht & Hrv).
  destruct (DiskOnly_processDependencies f code cfg plugins w)
    as (Hfs & Hcwd & Hck & _).
  split_and!; [done..|]. exists evs. split_and!; [done| |].
  - eapply Forall_impl; [done|]. apply resolverEvent_traversal.
  - apply transformCalls_none. eapply Forall_impl; [done|].
    apply resolverEvent_no_transform.
Qed.

(** A step that stores nothing and calls no transform. *)
Lemma TraversalPost_quiet ctx w ctx' w' evs :
  fs w' = fs w → cwd w' = cwd w → clock w' = clock w →
  trace w' = trace w ++ evs →
  Forall traversalEvent evs → transformCalls evs = [] →
  config ctx' = config ctx → plugins ctx' = plugins ctx →
  entryPoints ctx' = entryPoints ctx → outputs ctx' = outputs ctx →
  processed ctx ⊆ processed ctx' →
  TraversalPost ctx w (Ret ctx', w').
Proof.
  intros ???? Htv Hno ?????. split_and!; [done..|]. exists evs. rewrite Hno.
  split_and!; [done|done|constructor|by intros ?? ?%elem_of_nil|].
  intros ? [= <-]. split_and!; [done..|by intros ?? ?%elem_of_nil|].
  exists []. rewrite app_nil_r. split_and!; [done|constructor|].
  by intros ? ?%elem_of_nil.
Qed.

(** The first visit of a module: its transforms run, its output is
    appended, its identity is marked. *)
Lemma TraversalPost_visit ctx w ctx' w' evs f out :
  fs w' = fs w → cwd w' = cwd w → clock w' = clock w →
  trace w' = trace w ++ evs →
  Forall traversalEvent evs →
  NoDup (transformCalls evs) →
  Forall (λ c, c.2 = f) (transformCalls evs) →
  f ∉ processed ctx → keysVisited ctx →
  config ctx' = config ctx → plugins ctx' = plugins ctx →
  entryPoints ctx' = entryPoints ctx →
  processed ctx' = {[f]} ∪ processed ctx →
  outputs ctx' = JsMap.set (outputs ctx) f out →
  TraversalPost ctx w (Ret ctx', w').
Proof.
  intros ???? Htv Hnd Hall Hf Hkv ??? Hp Ho.
  split_and!; [done..|]. exists evs. split_and!; [done..| |].
  { intros i x Hx. eapply Forall_forall in Hall; [|done]. by simplify_eq/=. }
  intros ? [= <-]. split_and!; [done..|set_solver| |].
  { intros i x Hx. eapply Forall_forall in Hall; [|done]. simplify_eq/=.
    rewrite Hp. set_solver. }
  exists [(f, out)]. split_and!.
  - rewrite Ho. apply JsMap_set_fresh. intros Hk. by apply Hf, Hkv.
  - apply NoDup_singleton.
  - intros k ->%list_elem_of_singleton. split; [done|]. rewrite Hp. set_solver.
Qed.

(** [processFile] is a traversal step that marks its module. *)
Lemma processFile_post fuel :
  ∀ ctx f imp w,
    keysVisited ctx →
    TraversalPost ctx w (processFile fuel ctx f imp w)
    ∧ ∀ ctx', fst (processFile fuel ctx f imp w) = Ret ctx' → f ∈ processed ctx'.
Proof.
  induction fuel as [|n IH]; intros ctx f imp w Hkv.
  { split; [|done]. apply (TraversalPost_stop _ _ _ _ []); try done.
    - by rewrite app_nil_r.
    - constructor.
    - by intros ?? ?%elem_of_nil. }
  cbn [processFile].
  destruct (recordImporter_fields ctx f imp) as (Hc0 & Hp0 & He0 & Ho0 & Hd0 & _).
  case_bool_decide as Hin.
  { split; [|intros ? [= <-]; by rewrite Hd0].
    apply (TraversalPost_quiet _ _ _ _ []); try done.
    - by rewrite app_nil_r.
    - by rewrite Hd0. }
  set (ctx1 := recordImporter (setProcessed ctx ({[f]} ∪ processed ctx)) f imp).
  destruct (recordImporter_fields (setProcessed ctx ({[f]} ∪ processed ctx)) f imp)
    as (Hc1 & Hp1 & He1 & Ho1 & Hd1 & _).
  fold ctx1 in Hc1, Hp1, He1, Ho1, Hd1. simpl in Hc1, Hp1, He1, Ho1, Hd1.
  rewrite read_source.
  destruct (sourceOf w f) as [content|e|].
  2:{ split; [|done]. apply (TraversalPost_stop _ _ _ _ []); try done.
      - by rewrite app_nil_r.
      - constructor.
      - by intros ?? ?%elem_of_nil. }
  2:{ split; [|done]. apply (TraversalPost_stop _ _ _ _ []); try done.
      - by rewrite app_nil_r.
      - constructor.
      - by intros ?? ?%elem_of_nil. }
  destruct (Js.truthy content) eqn:Hcontent; simpl.
  2:{ split; [|intros ? [= <-]; rewrite Hd1; set_solver].
      apply (TraversalPost_quiet _ _ _ _
               [EvConsole LWarn ("Empty or missing file: " +:+ f) None]);
        try done.
      - by repeat constructor.
      - rewrite Hd1. set_solver. }
  rewrite /bind.
  destruct (transform_loop_facts (plugins ctx1) (config ctx1) f content 0
              content None w)
    as (Hnd1 & Hfs1 & Hcwd1 & Hck1 & evs1 & Ht1 & Htv1 & Hall1 & Hno1).
  destruct (transform_loop 0 (plugins ctx1) (config ctx1) f content content None w)
    as [[[code map]|e|] w1]; cbn [fst snd] in *; [| |done].
  2:{ split; [|done]. apply (TraversalPost_stop _ _ _ _ evs1); try done.
      intros i x Hx. eapply Forall_forall in Hall1; [|done]. by simplify_eq/=. }
  set (ctx2 := setOutputs ctx1 _).
  destruct (processDependencies_facts f code (config ctx1) (plugins ctx1) w1)
    as (Hnd2 & Hfs2 & Hcwd2 & Hck2 & evs2 & Ht2 & Htv2 & Hnone2).
  destruct (processDependencies f code (config ctx1) (plugins ctx1) w1)
    as [[deps|e|] w2]; cbn [fst snd] in *; [| |done].
  2:{ split; [|done]. apply (TraversalPost_stop _ _ _ _ (evs1 ++ evs2)); try done.
      - congruence.
      - congruence.
      - congruence.
      - by rewrite Ht2 Ht1 app_assoc.
      - by apply Forall_app.
      - by rewrite transformCalls_app Hnone2 app_nil_r.
      - intros i x. rewrite transformCalls_app Hnone2 app_nil_r. intros Hx.
        eapply Forall_forall in Hall1; [|done]. by simplify_eq/=. }
  set (ctx3 := setModuleGraph ctx2 _).
  assert (TraversalPost ctx w (Ret ctx3, w2)) as Hown.
  { apply (TraversalPost_visit _ _ _ _ (evs1 ++ evs2) f
             {| out_code := code; out_map := map |}); try done.
    - congruence.
    - congruence.
    - congruence.
    - by rewrite Ht2 Ht1 app_assoc.
    - by apply Forall_app.
    - by rewrite transformCalls_app Hnone2 app_nil_r.
    - by rewrite transformCalls_app Hnone2 app_nil_r.
    - by rewrite /= Ho1. }
  assert (keysVisited ctx3) as Hkv3 by (by eapply keysVisited_post).
  set (body := λ (c : BuilderContext) (dep : DependencyInfo), _).
  assert (TraversalPost ctx3 w2 (forEachM body deps ctx3 w2)) as Hloop.
  { apply forEachM_post; [|done]. intros c dep v Hkvc. rewrite /body.
    destruct (traversable dep) as [r|]; [by apply IH|apply TraversalPost_ret]. }
  split; [by eapply TraversalPost_compose|].
  intros ctx' Hret.
  destruct Hloop as (_ & _ & _ & evsL & _ & _ & _ & _ & HretL).
  destruct (HretL ctx' Hret) as (_ & _ & _ & Hsub & _).
  apply Hsub. rewrite /= Hd1. set_solver.
Qed.

End traversal_steps.

(* ===================================================================== *)
(** * Termination of the traversal on a finite graph *)
(* ===================================================================== *)

Section termination.
Import Plugins Dependency Build Graph.

Lemma DiskOnly_moduleImports cfg pl f : DiskOnly (moduleImports cfg pl f).
Proof.
  rewrite /moduleImports /fileExists /readFile.
  repeat first [ apply DiskOnly_transform_loop | apply DiskOnly_processDependencies
               | disk_step ].
Qed.

(** The imports of a module, read off the steps [processFile] takes. *)
Lemma moduleImports_steps cfg pl f w content code map w1 deps w2 :
  sourceOf w f = Ret content → Js.truthy content = true →
  transform_loop 0 pl cfg f content content None w = (Ret (code, map), w1) →
  processDependencies f code cfg pl w1 = (Ret deps, w2) →
  moduleImports cfg pl f w = (Ret (omap traversable deps), w2).
Proof.
  intros Hsrc Htr Ht Hd. rewrite /moduleImports read_source Hsrc Htr /=.
  by rewrite /bind Ht Hd.
Qed.

Context (cfg : AetherConfig) (pl : list Plugin) (w0 : World) (U : gset string).
Hypothesis Hclosed : closedUnderImports cfg pl w0 U = true.

Lemma closed_imports f w rs w' :
  f ∈ U → fs w = fs w0 → cwd w = cwd w0 →
  moduleImports cfg pl f w = (Ret rs, w') →
  ∀ r, r ∈ rs → r ∈ U.
Proof.
  intros Hf Hfs Hcwd Hm r Hr.
  move: Hclosed. rewrite /closedUnderImports List.forallb_forall.
  intros Hall. specialize (Hall f).
  rewrite -list_elem_of_In elem_of_elements in Hall. specialize (Hall Hf).
  destruct (DiskOnly_moduleImports cfg pl f w0) as (_ & _ & _ & Hv).
  rewrite -(Hv w Hfs Hcwd) Hm /= in Hall.
  rewrite List.forallb_forall in Hall. specialize (Hall r).
  rewrite -list_elem_of_In in Hall.
  specialize (Hall Hr). by apply bool_decide_eq_true in Hall.
Qed.

Local Abbreviation inGraph := (Graph.inGraph cfg pl w0 U).

Lemma inGraph_post n ctx w ctx' w' :
  inGraph n ctx w → TraversalPost ctx w (Ret ctx', w') → inGraph n ctx' w'.
Proof.
  intros (Hc & Hp & Hfs & Hcwd & Hkv & Hsz) Hpost.
  assert (keysVisited ctx') by (by eapply keysVisited_post).
  destruct Hpost as (Hfs' & Hcwd' & _ & evs & _ & _ & _ & _ & Hret).
  destruct (Hret ctx' eq_refl) as (Hc' & Hp' & _ & Hsub & _).
  simpl in *. split_and!; [congruence..|done|].
  eapply Nat.le_lt_trans; [|done]. apply subseteq_size. set_solver.
Qed.

Lemma forEachM_ends {X} n (body : BuilderContext → X → M BuilderContext) xs :
  (∀ ctx x w, x ∈ xs → inGraph n ctx w →
     fst (body ctx x w) ≠ Diverge ∧ TraversalPost ctx w (body ctx x w)) →
  ∀ ctx w, inGraph n ctx w → fst (forEachM body xs ctx w) ≠ Diverge.
Proof.
  induction xs as [|x xs IH]; intros Hbody ctx w Hg; simpl; [done|].
  destruct (Hbody ctx x w) as [Hnd Hpost]; [by left|done|].
  rewrite /bind. destruct (body ctx x w) as [[ctx1|e|] w1]; [|done..].
  apply IH; [|by eapply inGraph_post].
  intros ???? ?. apply Hbody; [by right|done].
Qed.

(** Within the graph, [processFile] ends when its fuel exceeds the number
    of modules of the graph that are still unvisited. *)
Lemma processFile_ends fuel :
  ∀ ctx f imp w,
    inGraph fuel ctx w → f ∈ U →
    fst (processFile fuel ctx f imp w) ≠ Diverge.
Proof.
  induction fuel as [|n IH]; intros ctx f imp w Hg Hf.
  { destruct Hg as (_ & _ & _ & _ & _ & ?). lia. }
  destruct Hg as (Hc & Hp & Hfs & Hcwd & Hkv & Hsz).
  cbn [processFile]. case_bool_decide as Hin; [done|].
  set (ctx1 := recordImporter (setProcessed ctx ({[f]} ∪ processed ctx)) f imp).
  destruct (recordImporter_fields (setProcessed ctx ({[f]} ∪ processed ctx)) f imp)
    as (Hc1 & Hp1 & He1 & Ho1 & Hd1 & _).
  fold ctx1 in Hc1, Hp1, He1, Ho1, Hd1. simpl in Hc1, Hp1, He1, Ho1, Hd1.
  rewrite read_source.
  destruct (sourceOf w f) as [content|e|] eqn:Hsrc; [|done|].
  2:{ by rewrite /sourceOf in Hsrc; repeat case_match. }
  destruct (Js.truthy content) eqn:Hcontent; simpl; [|done].
  rewrite /bind.
  destruct (transform_loop_facts (plugins ctx1) (config ctx1) f content 0
              content None w)
    as (Hnd1 & Hfs1 & Hcwd1 & Hck1 & evs1 & Ht1 & Htv1 & Hall1 & Hno1).
  destruct (transform_loop 0 (plugins ctx1) (config ctx1) f content content None w)
    as [[[code map]|e|] w1] eqn:Htl; cbn [fst snd] in *; [|done..].
  destruct (processDependencies_facts f code (config ctx1) (plugins ctx1) w1)
    as (Hnd2 & Hfs2 & Hcwd2 & Hck2 & evs2 & Ht2 & Htv2 & Hnone2).
  destruct (processDependencies f code (config ctx1) (plugins ctx1) w1)
    as [[deps|e|] w2] eqn:Hpd; cbn [fst snd] in *; [|done..].
  set (ctx2 := setOutputs ctx1 _). set (ctx3 := setModuleGraph ctx2 _).
  assert (∀ r, r ∈ omap traversable deps → r ∈ U) as Hdeps.
  { eapply (closed_imports f w); [done..|].
    eapply moduleImports_steps; [done..| |].
    - by rewrite -Hp -Hc -Hp1 -Hc1.
    - by rewrite -Hp -Hc -Hp1 -Hc1. }
  assert (size (U ∖ processed ctx3) < n) as Hsz3.
  { assert (size (U ∖ processed ctx3) < size (U ∖ processed ctx)); [|lia].
    apply subset_size. rewrite /= Hd1. split; [set_solver|].
    intros Hsub. specialize (Hsub f). set_solver. }
  assert (keysVisited ctx3) as Hkv3.
  { intros k. rewrite /= Ho1 Hd1.
    rewrite JsMap_set_fresh; [intros Hk; by apply Hin, Hkv|].
    rewrite /JsMap.keys fmap_app.
    intros [Hk|Hk%list_elem_of_singleton]%elem_of_app; [|set_solver].
    apply Hkv in Hk. set_solver. }
  apply (forEachM_ends n).
  - intros c dep v Hdep Hgc.
    destruct (traversable dep) as [r|] eqn:Htrav.
    + split; [|by apply processFile_post; destruct Hgc as (_&_&_&_&?&_)].
      apply IH; [done|]. apply Hdeps. rewrite list_elem_of_omap. eauto.
    + split; [done|apply TraversalPost_ret].
  - split_and!; [by rewrite /= Hc1|by rewrite /= Hp1|congruence..|done|done].
Qed.

End termination.

(* ===================================================================== *)
(** * The build as a whole *)
(* ===================================================================== *)

Section keeps_disk.

Lemma KeepsDisk_of_DiskOnly {A} (c : M A) : DiskOnly c → KeepsDisk c.
Proof. intros Hc w. destruct (Hc w) as (? & ? & _). done. Qed.

Lemma KeepsDisk_bind {A B} (c : M A) (k : A → M B) :
  KeepsDisk c → (∀ a, KeepsDisk (k a)) → KeepsDisk (bind c k).
Proof.
  intros Hc Hk w. destruct (Hc w) as [Hfs Hcwd]. rewrite /bind.
  destruct (c w) as [[a|e|] w1]; simpl in *; [|done..].
  destruct (Hk a w1) as [Hfs' Hcwd']. split; congruence.
Qed.

Lemma KeepsDisk_now : KeepsDisk now.
Proof. intros w. rewrite /now. by destruct (clock w). Qed.

End keeps_disk.

Section build_parts.
Import Plugins Dependency Build Graph.

Lemma DiskOnly_applyPluginHook plugins h ctx :
  DiskOnly (applyPluginHook plugins h ctx).
Proof.
  rewrite /applyPluginHook. generalize 0 VNull.
  induction plugins as [|p ps IH]; intros idx r; simpl; [apply DiskOnly_ret|].
  destruct (hookOf p h); [|apply IH].
  apply DiskOnly_bind; [|intros ?; apply IH].
  rewrite /console_error. repeat disk_step.
Qed.

Lemma DiskOnly_loadPlugins ps : DiskOnly (loadPlugins ps).
Proof.
  induction ps as [|p ps IH]; simpl; [apply DiskOnly_ret|].
  apply DiskOnly_bind;
    [|intros ?; apply DiskOnly_bind; [apply IH|intros ?; apply DiskOnly_ret]].
  rewrite /console_error /console_warn. repeat disk_step.
Qed.

Lemma DiskOnly_createBuilderContext cfg pl : DiskOnly (createBuilderContext cfg pl).
Proof.
  rewrite /createBuilderContext /resolveEntryPoints.
  repeat first [apply DiskOnly_loadPlugins | disk_step].
Qed.

Lemma Emits_createBuilderContext cfg pl :
  Emits consoleEvent (createBuilderContext cfg pl).
Proof.
  rewrite /createBuilderContext /resolveEntryPoints.
  repeat first [apply Emits_loadPlugins | emits_step].
Qed.

(** The session [createBuilderContext] returns is fresh and carries the
    configuration it was given. *)
Lemma createBuilderContext_fresh cfg pl w ctx w' :
  createBuilderContext cfg pl w = (Ret ctx, w') →
  config ctx = cfg ∧ outputs ctx = [] ∧ processed ctx = ∅
  ∧ dependencies ctx = ∅ ∧ moduleGraph ctx = [].
Proof.
  rewrite /createBuilderContext.
  intros (plugins & w1 & _ & (entries & w2 & _ & [= <- <-])%bind_ret_inv)%bind_ret_inv.
  done.
Qed.

Lemma hookEvent_noTransform h e : h ≠ KTransform → hookEvent h e → noTransform e.
Proof. intros Hh. destruct e as [| ? ? h' []| | |]; try done; simpl; by intros ->; destruct h. Qed.

Lemma diskEvent_noTransform e : diskEvent e → noTransform e.
Proof. by destruct e. Qed.

Lemma Once_ret {A} (a : A) : Once (ret a).
Proof. intros w. exists []. rewrite app_nil_r. split; [done|constructor]. Qed.

(** Steps that call no transform may surround a traversal. *)
Lemma Once_bind_quiet {A B} (c : M A) (k : A → M B) :
  Emits noTransform c →
  (∀ a, (∃ w w', c w = (Ret a, w')) → Once (k a)) →
  Once (bind c k).
Proof.
  intros Hc Hk w. destruct (Hc w) as (_ & evs & Ht & Hq).
  assert (transformCalls evs = []) as Hnone by (by apply transformCalls_none).
  rewrite /bind. destruct (c w) as [[a|e|] w1] eqn:Hcw; simpl in *.
  - destruct (Hk a (ex_intro _ w (ex_intro _ w1 Hcw)) w1) as (evs' & Ht' & Hnd).
    exists (evs ++ evs').
    by rewrite Ht' Ht app_assoc transformCalls_app Hnone.
  - exists evs. rewrite Hnone. split; [done|constructor].
  - exists evs. rewrite Hnone. split; [done|constructor].
Qed.

Lemma Once_quiet {A} (c : M A) : Emits noTransform c → Once c.
Proof.
  intros Hc w. destruct (Hc w) as (_ & evs & Ht & Hq). exists evs.
  rewrite transformCalls_none //. split; [done|constructor].
Qed.

Lemma Once_traversal {B} (c : BuilderContext → M BuilderContext)
    (k : BuilderContext → M B) ctx :
  (∀ w, TraversalPost ctx w (c ctx w)) →
  (∀ ctx', Emits noTransform (k ctx')) →
  Once (bind (c ctx) k).
Proof.
  intros Hc Hk w.
  destruct (Hc w) as (_ & _ & _ & evs & Ht & _ & Hnd & _).
  rewrite /bind. destruct (c ctx w) as [[ctx'|e|] w1]; simpl in *; [|by eauto..].
  destruct (Hk ctx' w1) as (_ & evs' & Ht' & Hq).
  exists (evs ++ evs').
  rewrite Ht' Ht app_assoc transformCalls_app (transformCalls_none evs') //.
  by rewrite app_nil_r.
Qed.

End build_parts.

Section build_whole.
Import Plugins Dependency Build Graph.

Lemma keysVisited_fresh ctx : outputs ctx = [] → keysVisited ctx.
Proof. intros Ho k. rewrite Ho. by intros ?%elem_of_nil. Qed.

Lemma processEntries_post fuel ctx w :
  keysVisited ctx → TraversalPost ctx w (processEntries fuel ctx w).
Proof.
  intros Hkv. apply forEachM_post; [|done].
  intros c x v Hc. by apply processFile_post.
Qed.

(** What [build] does after the traversal calls no transform. *)
Lemma Emits_after_traversal cfg startTime ctx :
  Emits noTransform
    ((if debug_verbose cfg then console_log (generateDependencyGraph ctx)
      else ret tt);;
     applyPluginHook (plugins ctx) KBuildEnd (ArgBuildEnd cfg (outputs ctx));;
     writeOutputs ctx;;
     let* endTime := now in
     console_log ("Build completed in " +:+ pretty (endTime - startTime) +:+ "ms");;
     console_log ("Processed " +:+ pretty (size (processed ctx)) +:+ " files");;
     let* cwd := getCwd in
     console_log ("Output directory: " +:+ Path.resolve cwd [cwd; outDir cfg]);;
     closeBundle_loop 0 (plugins ctx)).
Proof.
  rewrite /console_log.
  apply Emits_bind; [destruct (debug_verbose cfg); repeat emits_step; done|intros _].
  apply Emits_bind; [|intros _].
  { eapply Emits_weaken; [|apply Emits_applyPluginHook].
    intros e. by apply hookEvent_noTransform. }
  apply Emits_bind; [|intros _].
  { eapply Emits_weaken; [|apply Emits_writeOutputs]. apply diskEvent_noTransform. }
  repeat (apply Emits_bind; [by repeat emits_step|intros ?]).
  eapply Emits_weaken; [|apply Emits_closeBundle_loop].
  intros e. by apply hookEvent_noTransform.
Qed.

Lemma build_once fuel cfg pl : Once (build fuel cfg pl).
Proof.
  rewrite /build.
  apply Once_bind_quiet; [by apply Emits_emit|intros _ _].
  apply Once_bind_quiet; [apply Emits_now|intros startTime _].
  apply Once_bind_quiet.
  { eapply Emits_weaken; [|apply Emits_createBuilderContext]. by intros []. }
  intros ctx (v & v' & Hctx). apply createBuilderContext_fresh in Hctx as (_ & Ho & _).
  apply Once_bind_quiet.
  { eapply Emits_weaken; [|apply Emits_applyPluginHook].
    intros e. by apply hookEvent_noTransform. }
  intros _ _.
  apply (Once_traversal (processEntries fuel)).
  - intros w. by apply processEntries_post, keysVisited_fresh.
  - intros ctx'. apply Emits_after_traversal.
Qed.

Lemma ends_bind {A B} (c : M A) (k : A → M B) w :
  fst (c w) ≠ Diverge →
  (∀ a w1, c w = (Ret a, w1) → fst (k a w1) ≠ Diverge) →
  fst (bind c k w) ≠ Diverge.
Proof.
  intros Hc Hk. rewrite /bind. destruct (c w) as [[a|e|] w1]; [|done..].
  by apply Hk.
Qed.

Lemma processEntries_ends cfg pl w0 U fuel ctx w :
  closedUnderImports cfg pl w0 U = true →
  inGraph cfg pl w0 U fuel ctx w →
  (∀ e, e ∈ entryPoints ctx → e ∈ U) →
  fst (processEntries fuel ctx w) ≠ Diverge.
Proof.
  intros Hclosed Hg Hentries.
  apply (forEachM_ends cfg pl w0 U Hclosed fuel); [|exact Hg].
  intros c x v Hx Hc. split.
  - apply (processFile_ends cfg pl w0 U Hclosed); [done|by apply Hentries].
  - apply processFile_post. by destruct Hc as (_ & _ & _ & _ & ? & _).
Qed.

Lemma Emits_ends {A} P (c : M A) w : Emits P c → fst (c w) ≠ Diverge.
Proof. intros Hc. by destruct (Hc w). Qed.

Lemma build_ends fuel cfg pl w U :
  isGraph cfg pl w U = true → size U < fuel →
  fst (build fuel cfg pl w) ≠ Diverge.
Proof.
  intros Hgraph Hfuel. rewrite /build.
  apply ends_bind; [done|]. intros a w1 Hlog.
  assert (fs w1 = fs w ∧ cwd w1 = cwd w) as [Hfs1 Hcwd1].
  { rewrite /console_log /emit in Hlog. by simplify_eq. }
  apply ends_bind; [apply (Emits_ends (λ _, True)), Emits_now|]. intros startTime w2 Hnow.
  assert (fs w2 = fs w ∧ cwd w2 = cwd w) as [Hfs2 Hcwd2].
  { move: (KeepsDisk_now w1). rewrite Hnow /=. intros [? ?]. split; congruence. }
  apply ends_bind; [eapply Emits_ends, Emits_createBuilderContext|]. intros ctx w3 Hctx.
  destruct (DiskOnly_createBuilderContext cfg pl w2) as (Hfs3 & Hcwd3 & _ & Hval).
  rewrite Hctx /= in Hfs3 Hcwd3 Hval.
  move: Hgraph. rewrite /isGraph (Hval w) // => /andb_prop [Hentries Hclosed].
  destruct (createBuilderContext_fresh _ _ _ _ _ Hctx) as (Hc & Ho & Hp & _).
  apply ends_bind; [eapply Emits_ends, Emits_applyPluginHook|]. intros r w4 Hstart.
  destruct (DiskOnly_applyPluginHook (plugins ctx) KBuildStart (ArgConfig cfg) w3)
    as (Hfs4 & Hcwd4 & _).
  rewrite Hstart /= in Hfs4 Hcwd4.
  apply ends_bind; [|intros ? ? _; eapply Emits_ends, Emits_after_traversal].
  eapply processEntries_ends; [done| |].
  - split_and!; [done|done|congruence|congruence|by apply keysVisited_fresh|].
    by rewrite Hp difference_empty_L.
  - intros e He. rewrite List.forallb_forall in Hentries.
    specialize (Hentries e). rewrite -list_elem_of_In in Hentries.
    specialize (Hentries He). by apply bool_decide_eq_true in Hentries.
Qed.

End build_whole.

Section sessions.
Import Build Graph.

Lemma sessionOk_keysVisited ctx : sessionOk ctx = true ↔ keysVisited ctx.
Proof.
  rewrite /sessionOk /keysVisited List.forallb_forall. split.
  - intros H k Hk. apply list_elem_of_In, H in Hk. by apply bool_decide_eq_true in Hk.
  - intros H k Hk. apply bool_decide_eq_true, H. by apply list_elem_of_In.
Qed.

End sessions.

(** C1.  The build traversal ends on every finite dependency graph, cycles
    and shared imports included: [isGraph] says that the entry points lie in
    the finite set [U] of module identities and that [U] is closed under the
    imports the code resolves, and then fuel beyond the size of [U] is never
    exhausted.  In one build no plugin's [transform] is called twice for the
    same module identity.  A traversal step only ever appends outputs, under
    identities that were unvisited before (no stored output is overwritten).
    Meeting a visited identity again records the importer edge and returns:
    the identity is added to the dependency set of the (truthy) importer,
    the sets of the other importers are kept, and without an importer the
    dependency sets are as before; the process state, the outputs, the
    visited set and the module graph stay as they are. *)
Theorem traversal_terminates_once :
  (∀ fuel cfg configPlugins w U,
     Graph.isGraph cfg configPlugins w U = true → size U < fuel →
     fst (Build.build fuel cfg configPlugins w) ≠ Diverge)
  ∧ (∀ fuel cfg configPlugins w,
       ∃ evs, trace (snd (Build.build fuel cfg configPlugins w)) = trace w ++ evs
              ∧ NoDup (transformCalls evs))
  ∧ (∀ fuel ctx f imp w,
       Graph.sessionOk ctx = true →
       match Build.processFile fuel ctx f imp w with
       | (Ret ctx', _) =>
           Graph.sessionOk ctx' = true
           ∧ ∃ added,
               Build.outputs ctx' = Build.outputs ctx ++ added
               ∧ NoDup (JsMap.keys added)
               ∧ ∀ k, k ∈ JsMap.keys added → k ∉ Build.processed ctx
       | _ => True
       end)
  ∧ (∀ fuel ctx f imp w,
       f ∈ Build.processed ctx →
       Build.processFile (S fuel) ctx f imp w
       = (Ret (Build.recordImporter ctx f imp), w)
       ∧ Build.outputs (Build.recordImporter ctx f imp) = Build.outputs ctx
       ∧ Build.processed (Build.recordImporter ctx f imp) = Build.processed ctx
       ∧ Build.moduleGraph (Build.recordImporter ctx f imp) = Build.moduleGraph ctx)
  ∧ (∀ fuel ctx f imp w ctx' w',
       f ∈ Build.processed ctx →
       Build.processFile (S fuel) ctx f imp w = (Ret ctx', w') →
       match imp with
       | Some importer =>
           if Js.truthy importer then
             Build.dependencies ctx' !! importer
             = Some ({[f]} ∪ default ∅ (Build.dependencies ctx !! importer))
             ∧ ∀ other, other ≠ importer →
                 Build.dependencies ctx' !! other = Build.dependencies ctx !! other
           else Build.dependencies ctx' = Build.dependencies ctx
       | None => Build.dependencies ctx' = Build.dependencies ctx
       end).
Proof.
  split_and!.
  - intros fuel cfg configPlugins w U. apply build_ends.
  - intros fuel cfg configPlugins w. apply build_once.
  - intros fuel ctx f imp w Hok%sessionOk_keysVisited.
    destruct (processFile_post fuel ctx f imp w Hok) as [Hpost _].
    destruct (Build.processFile fuel ctx f imp w) as [[ctx'|e|] w'] eqn:Hrun; [|done..].
    split; [by eapply sessionOk_keysVisited, keysVisited_post|].
    destruct Hpost as (_ & _ & _ & evs & _ & _ & _ & _ & Hret).
    destruct (Hret ctx' eq_refl) as (_ & _ & _ & _ & _ & added & Ho & Hnd & Hk).
    exists added. split_and!; [done..|]. intros k Hin. by destruct (Hk k Hin).
  - intros fuel ctx f imp w Hin.
    destruct (recordImporter_fields ctx f imp) as (_ & _ & _ & Ho & Hp & Hg).
    split_and!; [|done..]. cbn [Build.processFile]. by rewrite bool_decide_true.
  - intros fuel ctx f imp w ctx' w' Hin. cbn [Build.processFile].
    rewrite bool_decide_true //. intros [= <- _]. rewrite /Build.recordImporter.
    destruct imp as [importer|]; last done.
    destruct (Js.truthy importer); last done. cbn. split.
    + by rewrite lookup_insert_eq.
    + intros other Hother. by rewrite lookup_insert_ne.
Qed.

(** The cyclic sample project: [a.ts] and [b.ts] import each other and both
    import [c.ts]; four levels of recursion are enough. *)
Lemma traversal_terminates_once_witness :
  fst (Build.build 4 (Samples.configOf "./a.ts")
         (Some [Plugins.PluginValue Samples.passThrough]) Samples.cyclicDisk)
  ≠ Diverge
  ∧ Build.dependencies
      (Build.recordImporter Samples.visitedSession "/proj/c.ts" (Some "/proj/b.ts"))
    !! "/proj/b.ts"
    = Some {[ "/proj/c.ts"; "/proj/a.ts" ]}.
Proof.
  destruct traversal_terminates_once as (Hends & _ & _ & _ & Hedge).
  split.
  - apply (Hends 4 _ _ _ Samples.cyclicModules).
    + vm_compute. reflexivity.
    + vm_compute. lia.
  - destruct (Hedge 0 Samples.visitedSession "/proj/c.ts" (Some "/proj/b.ts")
                Samples.cyclicDisk
                (Build.recordImporter Samples.visitedSession "/proj/c.ts"
                   (Some "/proj/b.ts"))
                Samples.cyclicDisk) as [Hdeps _].
    + vm_compute. set_solver.
    + vm_compute. reflexivity.
    + rewrite Hdeps. vm_compute. reflexivity.
Defined.

Example cyclic_build_transforms_each_once :
  let R := Build.build 4 (Samples.configOf "./a.ts")
             (Some [Plugins.PluginValue Samples.passThrough]) Samples.cyclicDisk in
  fst R = Ret tt
  ∧ transformCalls (trace (snd R))
    = [(0, "/proj/a.ts"); (0, "/proj/b.ts"); (0, "/proj/c.ts")].
Proof. vm_compute. done. Qed.

(* ===================================================================== *)
(** * Missing and empty sources *)
(* ===================================================================== *)

Section missing_sources.
Import Plugins Dependency Build Graph.

Lemma sourceOf_missing w f :
  missingOrEmpty w f = true → ∃ c, sourceOf w f = Ret c ∧ Js.truthy c = false.
Proof.
  rewrite /missingOrEmpty /sourceOf.
  destruct (nodeAt w f) as [[c|]|]; [|done|by exists ""].
  intros Hc. exists c. split; [done|]. by destruct (Js.truthy c).
Qed.

(** The first visit of a module whose source is missing or empty: the
    identity is marked and the importer edge recorded, a warning is logged,
    and the call returns without storing an output or a graph entry. *)
Lemma processFile_missing fuel ctx f imp w :
  missingOrEmpty w f = true → f ∉ processed ctx →
  processFile (S fuel) ctx f imp w
  = (Ret (recordImporter (setProcessed ctx ({[f]} ∪ processed ctx)) f imp),
     setTrace w (trace w ++ [EvConsole LWarn ("Empty or missing file: " +:+ f) None])).
Proof.
  intros (c & Hsrc & Hc)%sourceOf_missing Hin.
  cbn [processFile]. rewrite bool_decide_false // read_source Hsrc Hc //.
Qed.

Lemma recordImporter_edge ctx f importer :
  Js.truthy importer = true →
  ∃ deps, dependencies (recordImporter ctx f (Some importer)) !! importer = Some deps
          ∧ f ∈ deps.
Proof.
  intros Ht. rewrite /recordImporter Ht /=. eexists.
  rewrite lookup_insert_eq. split; [done|]. set_solver.
Qed.

End missing_sources.

(** C10.  For a module whose source file is missing or empty, [processFile]
    returns normally with the identity in the visited set and in the
    dependency set of its importer, and with the outputs and the module
    graph as they were.  Hence the outputs handed to [buildEnd], and the
    files written, can be fewer than the visited identities: the sample
    build of a missing entry point visits one module, hands [buildEnd] an
    empty map and writes nothing. *)
Theorem missing_source_marked_without_output :
  (∀ fuel ctx f imp w,
     missingOrEmpty w f = true →
     ∃ ctx' w',
       Build.processFile (S fuel) ctx f imp w = (Ret ctx', w')
       ∧ Build.processed ctx' = {[f]} ∪ Build.processed ctx
       ∧ (∀ importer, imp = Some importer → Js.truthy importer = true →
            ∃ deps, Build.dependencies ctx' !! importer = Some deps ∧ f ∈ deps)
       ∧ Build.outputs ctx' = Build.outputs ctx
       ∧ Build.moduleGraph ctx' = Build.moduleGraph ctx)
  ∧ (∃ ctx',
       fst (Build.processEntries 2
              (Samples.freshSession Samples.missingEntry [Samples.passThrough]
                 ["/proj/nowhere.ts"]) Samples.twoFileDisk) = Ret ctx'
       ∧ length (Build.outputs ctx') < size (Build.processed ctx'))
  ∧ (let R := Build.build 2 Samples.missingEntry
                (Some [Plugins.PluginValue Samples.passThrough]) Samples.twoFileDisk in
     fst R = Ret tt
     ∧ buildEndOutputs (trace (snd R)) = [[]]
     ∧ writes (trace (snd R)) = []
     ∧ EvConsole LLog "Processed 1 files" None ∈ trace (snd R)).
Proof.
  split_and!.
  - intros fuel ctx f imp w Hmiss.
    destruct (decide (f ∈ Build.processed ctx)) as [Hin|Hin].
    + exists (Build.recordImporter ctx f imp), w.
      destruct (recordImporter_fields ctx f imp) as (_ & _ & _ & Ho & Hp & Hg).
      split_and!; [|rewrite Hp; set_solver| |done|done].
      * cbn [Build.processFile]. by rewrite bool_decide_true.
      * intros importer -> Ht. by apply recordImporter_edge.
    + eexists _, _. split; [by apply processFile_missing|].
      set (ctx0 := Build.setProcessed ctx _).
      destruct (recordImporter_fields ctx0 f imp) as (_ & _ & _ & Ho & Hp & Hg).
      split_and!; [by rewrite Hp| |by rewrite Ho|by rewrite Hg].
      intros importer -> Ht. by apply recordImporter_edge.
  - eexists. split; [vm_compute; reflexivity|]. vm_compute. lia.
  - vm_compute. split_and!; [done..|]. set_solver.
Qed.

Lemma missing_source_marked_without_output_witness :
  ∃ ctx' w',
    Build.processFile 1
      (Samples.freshSession Samples.missingEntry [] []) "/proj/nowhere.ts"
      (Some "/proj/index.ts") Samples.twoFileDisk = (Ret ctx', w')
    ∧ Build.processed ctx' = {[ "/proj/nowhere.ts" ]} ∪ ∅
    ∧ Build.outputs ctx' = [].
Proof.
  destruct missing_source_marked_without_output as (Hmissing & _).
  destruct (Hmissing 0 (Samples.freshSession Samples.missingEntry [] [])
              "/proj/nowhere.ts" (Some "/proj/index.ts") Samples.twoFileDisk)
    as (ctx' & w' & Hrun & Hp & _ & Ho & _).
  - vm_compute. reflexivity.
  - exists ctx', w'. split_and!; [exact Hrun|exact Hp|exact Ho].
Defined.

Section entry_points.
Import Plugins Dependency Build Graph.

Lemma resolveEntryPoints_throws cfg w :
  (∃ e, fst (resolveEntryPoints cfg w) = Throw e)
  ↔ entry cfg = EntryNull ∨ entry cfg = EntryOther.
Proof.
  rewrite /resolveEntryPoints /bind /=. destruct (entry cfg); simpl; split;
    try (by intros [? ?]); try (by intros [?|?]); eauto.
Qed.

(** With an entry that is neither a string, an array nor an object, the
    session is not created: the build throws before any hook runs. *)
Lemma build_invalid_entry fuel cfg pl w :
  entry cfg = EntryOther →
  ∃ e w' evs,
    build fuel cfg pl w = (Throw e, w')
    ∧ trace w' = trace w ++ evs ∧ Forall consoleEvent evs ∧ fs w' = fs w
    ∧ (pl = None → e = Error "Invalid entry point configuration").
Proof.
  intros Hentry. rewrite /build /bind /console_log /emit /=.
  set (w1 := setTrace w _).
  assert (∃ t w2, now w1 = (Ret t, w2) ∧ trace w2 = trace w1 ∧ fs w2 = fs w1)
    as (t & w2 & -> & Ht2 & Hfs2).
  { rewrite /now. destruct (clock w1); eauto. }
  rewrite /createBuilderContext /bind.
  destruct pl as [ps|]; last first.
  { rewrite /resolveEntryPoints /bind /= Hentry /=.
    eexists _, _, _. split_and!; [done|by rewrite Ht2|by repeat constructor|done|done]. }
  destruct (Emits_loadPlugins ps w2) as (Hnd & evs & Hte & Hcons).
  destruct (DiskOnly_loadPlugins ps w2) as (Hfs3 & _).
  destruct (loadPlugins ps w2) as [[plugins|e|] w3]; simpl in *; [| |done].
  - rewrite /resolveEntryPoints /bind /= Hentry /=.
    eexists _, _, _. split_and!; [done| | |congruence|done].
    + by rewrite Hte Ht2 /= -app_assoc.
    + constructor; [done|]. exact Hcons.
  - eexists _, _, _. split_and!; [done| | |congruence|done].
    + by rewrite Hte Ht2 /= -app_assoc.
    + constructor; [done|]. exact Hcons.
Qed.

End entry_points.

(** C8.  A module whose source file is missing or empty is not fatal to the
    traversal: the first visit logs a warning, stores nothing for the
    module and returns, and the loop that made the call (over the entry
    points or over the dependencies of the importer) goes on with the rest.
    An entry configuration that is neither a string, an array nor an
    object is fatal before the traversal: [resolveEntryPoints] throws
    exactly then, and [build] throws after console lines only, with the
    disk untouched. *)
Theorem missing_source_not_fatal :
  (∀ fuel ctx f imp w,
     missingOrEmpty w f = true → bool_decide (f ∈ Build.processed ctx) = false →
     Build.processFile (S fuel) ctx f imp w
     = (Ret (Build.recordImporter
               (Build.setProcessed ctx ({[f]} ∪ Build.processed ctx)) f imp),
        setTrace w (trace w ++
          [EvConsole LWarn ("Empty or missing file: " +:+ f) None])))
  ∧ (∀ fuel ctx e rest w,
       missingOrEmpty w e = true → bool_decide (e ∈ Build.processed ctx) = false →
       Build.forEachM (λ c entryPoint, Build.processFile (S fuel) c entryPoint None)
         (e :: rest) ctx w
       = Build.forEachM (λ c entryPoint, Build.processFile (S fuel) c entryPoint None)
           rest
           (Build.recordImporter
              (Build.setProcessed ctx ({[e]} ∪ Build.processed ctx)) e None)
           (setTrace w (trace w ++
              [EvConsole LWarn ("Empty or missing file: " +:+ e) None])))
  ∧ (∀ fuel ctx importer dep r rest w,
       Build.traversable dep = Some r →
       missingOrEmpty w r = true → bool_decide (r ∈ Build.processed ctx) = false →
       Build.forEachM
         (λ c d, match Build.traversable d with
                 | Some r' => Build.processFile (S fuel) c r' (Some importer)
                 | None => ret c
                 end)
         (dep :: rest) ctx w
       = Build.forEachM
           (λ c d, match Build.traversable d with
                   | Some r' => Build.processFile (S fuel) c r' (Some importer)
                   | None => ret c
                   end)
           rest
           (Build.recordImporter
              (Build.setProcessed ctx ({[r]} ∪ Build.processed ctx)) r (Some importer))
           (setTrace w (trace w ++
              [EvConsole LWarn ("Empty or missing file: " +:+ r) None])))
  ∧ (∀ cfg w,
       (∃ e, fst (Build.resolveEntryPoints cfg w) = Throw e)
       ↔ entry cfg = EntryNull ∨ entry cfg = EntryOther)
  ∧ (∀ fuel cfg pl w,
       entry cfg = EntryOther →
       ∃ e w' evs,
         Build.build fuel cfg pl w = (Throw e, w')
         ∧ trace w' = trace w ++ evs ∧ Forall consoleEvent evs ∧ fs w' = fs w
         ∧ (pl = None → e = Error "Invalid entry point configuration")).
Proof.
  split_and!.
  - intros fuel ctx f imp w Hmiss Hin%bool_decide_eq_false.
    by apply processFile_missing.
  - intros fuel ctx e rest w Hmiss Hin%bool_decide_eq_false.
    cbn [Build.forEachM]. by rewrite /bind processFile_missing.
  - intros fuel ctx importer dep r rest w Htrav Hmiss Hin%bool_decide_eq_false.
    cbn [Build.forEachM]. by rewrite /bind Htrav processFile_missing.
  - apply resolveEntryPoints_throws.
  - apply build_invalid_entry.
Qed.

(** On the two-file sample, a missing first entry point is skipped with a
    warning and the second one is still built. *)
Lemma missing_source_not_fatal_witness :
  Build.forEachM (λ c entryPoint, Build.processFile 3 c entryPoint None)
    ["/proj/nowhere.ts"; "/proj/util.ts"]
    (Samples.freshSession (Samples.configOf "./util.ts") [] []) Samples.twoFileDisk
  = Build.forEachM (λ c entryPoint, Build.processFile 3 c entryPoint None)
      ["/proj/util.ts"]
      (Build.recordImporter
         (Build.setProcessed
            (Samples.freshSession (Samples.configOf "./util.ts") [] [])
            ({[ "/proj/nowhere.ts" ]}
             ∪ Build.processed
                 (Samples.freshSession (Samples.configOf "./util.ts") [] [])))
         "/proj/nowhere.ts" None)
      (setTrace Samples.twoFileDisk
         (trace Samples.twoFileDisk ++
            [EvConsole LWarn ("Empty or missing file: " +:+ "/proj/nowhere.ts") None])).
Proof.
  destruct missing_source_not_fatal as (_ & Hloop & _).
  apply (Hloop 2).
  - vm_compute. reflexivity.
  - vm_compute. reflexivity.
Defined.

Example missing_entry_then_existing_entry :
  let R := Build.forEachM (λ c entryPoint, Build.processFile 3 c entryPoint None)
             ["/proj/nowhere.ts"; "/proj/util.ts"]
             (Samples.freshSession (Samples.configOf "./util.ts") [] [])
             Samples.twoFileDisk in
  match fst R with
  | Ret ctx => JsMap.keys (Build.outputs ctx) = ["/proj/util.ts"]
  | _ => False
  end.
Proof. vm_compute. reflexivity. Qed.

(* ===================================================================== *)
(** * The steps of [build] *)
(* ===================================================================== *)

Section build_steps.
Import Plugins Dependency Build Graph.




Lemma Wrote_refl w : Wrote w w [].
Proof. split; [done|]. exists []. by rewrite app_nil_r. Qed.


Lemma existsSync_ret p w b w' : existsSync p w = (Ret b, w') → w' = w.
Proof. by intros [= _ <-]. Qed.

Lemma mkdirSync_ret p w w' : mkdirSync p w = (Ret tt, w') → Wrote w w' [].
Proof.
  rewrite /mkdirSync. repeat case_match; try done. intros [= <-].
  split; [done|]. exists [EvMkdir p]. by repeat constructor.
Qed.


Lemma ensureDir_ret dir w w' :
  (let* present := existsSync dir in
   if negb present then mkdirSync dir else ret tt) w = (Ret tt, w') →
  Wrote w w' [].
Proof.
  intros (present & w1 & ->%existsSync_ret & Hmk)%bind_ret_inv.
  destruct present; simpl in Hmk.
  - injection Hmk as <-. apply Wrote_refl.
  - by eapply mkdirSync_ret.
Qed.






End build_steps.

Section build_order.
Import Plugins Dependency Build Graph.



End build_order.

(* ===================================================================== *)
(** * Failing hooks *)
(* ===================================================================== *)

Section failing_hooks.
Import Plugins Dependency Build Graph.





End failing_hooks.




Example failing_transform_aborts_build :
  let R := Build.build 3 (Samples.configOf "./index.ts")
             (Some [Plugins.PluginValue Samples.passThrough;
                    Plugins.PluginValue Samples.failing])
             Samples.twoFileDisk in
  fst R = Throw (Error "boom")
  ∧ transformCalls (trace (snd R)) = [(0, "/proj/index.ts"); (1, "/proj/index.ts")]
  ∧ buildEndOutputs (trace (snd R)) = []
  ∧ writes (trace (snd R)) = []
  ∧ last (trace (snd R))
    = Some (EvConsole LError "Error in plugin failing transforming /proj/index.ts:"
              (Some (Error "boom"))).
Proof. vm_compute. done. Qed.

(* ===================================================================== *)
(** * Resolution ([resolveModuleSpecifier]) *)
(* ===================================================================== *)

Section resolution.
Import Plugins Dependency.

Lemma firstHit_app w a b :
  firstHit w (a ++ b)
  = match firstHit w a with Some c => Some c | None => firstHit w b end.
Proof. induction a as [|c a IH]; simpl; [done|]. by case_bool_decide. Qed.

Lemma firstHit_setTrace w t cands : firstHit (setTrace w t) cands = firstHit w cands.
Proof. induction cands as [|c cs IH]; simpl; [done|]. by rewrite IH. Qed.

Lemma firstExisting_firstHit cands w :
  firstExisting cands w = (Ret (firstHit w cands), w).
Proof.
  induction cands as [|c cs IH]; simpl; [done|].
  rewrite /bind /existsSync /=. by case_bool_decide.
Qed.

(** The probe takes the first existing candidate. *)
Lemma resolveWithExtensions_firstHit specifier basedir cfg w :
  resolveWithExtensions specifier basedir cfg w
  = (Ret (firstHit w (candidates specifier basedir cfg)), w).
Proof.
  rewrite /resolveWithExtensions /candidates /probeBase.
  set (base := if Path.isAbsolute specifier then _ else _).
  rewrite /bind {1}/existsSync /=. case_bool_decide as Hbase; [done|].
  rewrite firstExisting_firstHit firstHit_app.
  destruct (firstHit w (_ <$> _)) as [c|]; [done|].
  by rewrite firstExisting_firstHit.
Qed.

Lemma resolveId_loop_declined plugins rc :
  allDecline plugins rc = true →
  ∀ idx w,
    resolveId_loop idx plugins rc w
    = (Ret None, setTrace w (trace w ++ hookCalls idx plugins KResolveId (ArgResolve rc))).
Proof.
  induction plugins as [|p ps IH]; intros Hall idx w; simpl.
  { by rewrite setTrace_nil. }
  simpl in Hall. apply andb_prop in Hall as [Hp Hps].
  destruct (resolveId p) as [hook|]; [|by apply IH].
  rewrite /bind /callHook /bind /=.
  destruct (hook (ArgResolve rc)) as [v|]; [|done]. simpl.
  apply negb_true_iff in Hp. rewrite Hp IH // setTrace_app //.
Qed.

Lemma resolveId_loop_wins before p after rc hook v :
  resolveId p = Some hook → hook (ArgResolve rc) = Returned v → truthy v = true →
  allDecline before rc = true →
  ∀ idx w,
    resolveId_loop idx (before ++ p :: after) rc w
    = (Ret (Some (asPath v)),
       setTrace w (trace w ++ hookCalls idx before KResolveId (ArgResolve rc)
                   ++ [EvHook (idx + length before) (name p) KResolveId (ArgResolve rc)])).
Proof.
  intros Hp Hv Ht. induction before as [|q qs IH]; intros Hall idx w; simpl.
  - by rewrite Hp /bind /callHook /bind /= Hv /= Ht Nat.add_0_r.
  - simpl in Hall. apply andb_prop in Hall as [Hq Hqs].
    destruct (resolveId q) as [hq|].
    + rewrite /bind /callHook /bind /=.
      destruct (hq (ArgResolve rc)) as [x|]; [|done]. simpl.
      apply negb_true_iff in Hq. rewrite Hq IH // setTrace_app /= Nat.add_succ_r //.
    + rewrite IH // Nat.add_succ_r //.
Qed.

(** Past the first two steps, the rest of [resolveModuleSpecifier]. *)
Lemma resolveModuleSpecifier_continues specifier importer cfg plugins w :
  continues cfg specifier = true →
  resolveModuleSpecifier specifier importer cfg plugins w
  = (let* fromPlugins :=
       resolveId_loop 0 plugins
         {| rc_config := cfg; rc_importer := importer; rc_source := specifier |} in
     match fromPlugins with
     | Some resolved =>
         ret {| dep_id := idOf cfg specifier; dep_resolved := Some resolved;
                dep_isExternal := false |}
     | None =>
         let* basedir :=
           if Js.truthy importer then ret (Path.dirname importer) else getCwd in
         let* resolved := resolveWithExtensions specifier basedir cfg in
         ret {| dep_id := idOf cfg specifier; dep_resolved := resolved;
                dep_isExternal := false |}
     end) w.
Proof.
  rewrite /continues /resolveModuleSpecifier /idOf.
  intros [Hurl Hrest]%andb_prop. apply negb_true_iff in Hurl. rewrite Hurl.
  destruct (isBare specifier); simpl in *; [|done].
  apply bool_decide_eq_true in Hrest as [target Htarget]. by rewrite Htarget.
Qed.

End resolution.

(** C3, as the code has it.  [resolveModuleSpecifier] applies its steps in
    order, the first match winning: (1) a specifier that starts with
    [http:], [https:] or [//] is external and unresolved; (2) a bare
    specifier for which [config.alias[specifier]] is falsy is external and
    unresolved, and with a truthy value resolution goes on as non-external
    under that value as [id]; the lookup is falsy exactly when there is no
    table, or the entry is the empty string, or there is no entry and the
    specifier is not the name of a member every object inherits
    ([constructor], [toString], ...);
    (3) the plugins' [resolveId] hooks are asked in order, and the first
    TRUTHY answer (neither null nor undefined nor the empty string) wins
    and no later plugin is asked; (4) when every plugin declines, the
    probe tries the literal path, the path plus each extension in order,
    then [index] plus each extension inside the path, from the importer's
    directory (an absolute specifier is taken as it is), and the first
    existing candidate wins; when none exists the result is unresolved and
    not external. *)
Theorem resolveModuleSpecifier_steps :
  (∀ specifier importer cfg plugins w,
     Dependency.isUrl specifier = true →
     Dependency.resolveModuleSpecifier specifier importer cfg plugins w
     = (Ret {| dep_id := specifier; dep_resolved := None; dep_isExternal := true |},
        w))
  ∧ (∀ specifier importer cfg plugins w,
       Dependency.isUrl specifier = false → Dependency.isBare specifier = true →
       Dependency.aliasOf cfg specifier = None →
       Dependency.resolveModuleSpecifier specifier importer cfg plugins w
       = (Ret {| dep_id := specifier; dep_resolved := None; dep_isExternal := true |},
          w))
  ∧ (∀ specifier importer cfg before p after hook v w,
       let rc := {| rc_config := cfg; rc_importer := importer;
                    rc_source := specifier |} in
       Dependency.continues cfg specifier = true →
       resolveId p = Some hook → hook (ArgResolve rc) = Returned v →
       truthy v = true → Dependency.allDecline before rc = true →
       Dependency.resolveModuleSpecifier specifier importer cfg
         (before ++ p :: after) w
       = (Ret {| dep_id := Dependency.idOf cfg specifier;
                 dep_resolved := Some (Dependency.asPath v);
                 dep_isExternal := false |},
          setTrace w (trace w
            ++ Plugins.hookCalls 0 before KResolveId (ArgResolve rc)
            ++ [EvHook (length before) (name p) KResolveId (ArgResolve rc)])))
  ∧ (∀ specifier importer cfg plugins w,
       let rc := {| rc_config := cfg; rc_importer := importer;
                    rc_source := specifier |} in
       Dependency.continues cfg specifier = true →
       Dependency.allDecline plugins rc = true →
       Dependency.resolveModuleSpecifier specifier importer cfg plugins w
       = (Ret {| dep_id := Dependency.idOf cfg specifier;
                 dep_resolved :=
                   Dependency.firstHit w
                     (Dependency.candidates specifier
                        (Dependency.basedirOf w importer) cfg);
                 dep_isExternal := false |},
          setTrace w (trace w
            ++ Plugins.hookCalls 0 plugins KResolveId (ArgResolve rc))))
  ∧ (∀ cfg specifier,
       Dependency.aliasOf cfg specifier = None ↔
       match alias cfg with
       | None => True
       | Some table =>
           table !! specifier = Some ""
           ∨ (table !! specifier = None
              ∧ specifier ∉ Dependency.objectMembers)
       end)
  ∧ (∀ cfg table specifier target,
       alias cfg = Some table → table !! specifier = Some target →
       Js.truthy target = true → Dependency.isBare specifier = true →
       Dependency.isUrl specifier = false →
       Dependency.continues cfg specifier = true
       ∧ Dependency.idOf cfg specifier = IdString target).
Proof.
  split_and!.
  - intros specifier importer cfg plugins w Hurl.
    by rewrite /Dependency.resolveModuleSpecifier Hurl.
  - intros specifier importer cfg plugins w Hurl Hbare Halias.
    by rewrite /Dependency.resolveModuleSpecifier Hurl Hbare Halias.
  - intros specifier importer cfg before p after hook v w rc Hcont Hp Hv Ht Hall.
    rewrite resolveModuleSpecifier_continues // /bind.
    by rewrite (resolveId_loop_wins _ _ _ _ hook v).
  - intros specifier importer cfg plugins w rc Hcont Hall.
    rewrite resolveModuleSpecifier_continues // /bind.
    rewrite resolveId_loop_declined // /Dependency.basedirOf.
    destruct (Js.truthy importer); rewrite /ret /getCwd; cbv beta iota;
      by rewrite resolveWithExtensions_firstHit firstHit_setTrace.
  - intros cfg specifier. rewrite /Dependency.aliasOf.
    destruct (alias cfg) as [table|]; last done.
    destruct (table !! specifier) as [[|c target]|]; cbn.
    + naive_solver.
    + naive_solver.
    + case_bool_decide; naive_solver.
  - intros cfg table specifier target Htable Hentry Htruthy Hbare Hurl.
    rewrite /Dependency.continues /Dependency.idOf /Dependency.aliasOf.
    by rewrite Hurl Hbare Htable Hentry Htruthy.
Qed.

(** A relative import resolved by the probe on the two-file sample. *)
Lemma resolveModuleSpecifier_steps_witness :
  Dependency.resolveModuleSpecifier "./util" "/proj/index.ts"
    (Samples.configOf "./index.ts") [Samples.passThrough] Samples.twoFileDisk
  = (Ret {| dep_id := "./util"; dep_resolved := Some "/proj/util.ts";
            dep_isExternal := false |},
     Samples.twoFileDisk).
Proof.
  destruct resolveModuleSpecifier_steps as (_ & _ & _ & Hprobe & _).
  rewrite (Hprobe "./util" "/proj/index.ts" (Samples.configOf "./index.ts")
             [Samples.passThrough] Samples.twoFileDisk).
  - vm_compute. reflexivity.
  - vm_compute. reflexivity.
  - vm_compute. reflexivity.
Defined.

(** C3 as stated fails: a plugin that answers the empty string (a result
    that is not null) does not win, and the next plugin is asked. *)
Lemma resolveId_empty_string_does_not_win : ¬ Dependency.FirstNonNullWins.
Proof.
  intros H.
  specialize (H "./x" "/proj/index.ts" (Samples.configOf "./index.ts") []
                (Samples.constant "first" "") [Samples.constant "second" "/proj/util.ts"]
                (λ _, Returned (VString "")) (VString "") Samples.twoFileDisk
                eq_refl eq_refl eq_refl eq_refl eq_refl).
  vm_compute in H. discriminate H.
Qed.

Example resolve_bare_without_alias :
  fst (Dependency.resolveModuleSpecifier "lodash" "/proj/index.ts"
         (Samples.configOf "./index.ts") [] Samples.twoFileDisk)
  = Ret {| dep_id := "lodash"; dep_resolved := None; dep_isExternal := true |}.
Proof. vm_compute. reflexivity. Qed.

(** The lookup in the alias table reaches the members that every object
    inherits: with an empty table, the bare specifier [constructor] is not
    external, and its [id] is no string. *)
Example resolve_inherited_member :
  fst (Dependency.resolveModuleSpecifier "constructor" "/proj/index.ts"
         (Dependency.withAlias (Samples.configOf "./index.ts") ∅) []
         Samples.twoFileDisk)
  = Ret {| dep_id := IdMember "constructor"; dep_resolved := None;
           dep_isExternal := false |}.
Proof. vm_compute. reflexivity. Qed.

(** A path that runs through a regular file names nothing: beside the
    file [util.ts], neither [./util.ts/] nor [./util.ts/../index.ts] is
    found. *)
Example resolve_through_regular_file :
  fst (Dependency.resolveModuleSpecifier "./util.ts/" "/proj/index.ts"
         (Samples.configOf "./index.ts") [] Samples.twoFileDisk)
  = Ret {| dep_id := "./util.ts/"; dep_resolved := None; dep_isExternal := false |}
  ∧ nodeAt Samples.twoFileDisk "/proj/util.ts/../index.ts" = None
  ∧ nodeAt Samples.twoFileDisk "/proj/./index.ts"
    = Some (File "import { helper } from './util';").
Proof. vm_compute. done. Qed.

Example resolve_relative_with_extension :
  let w := {| fs := {[ "/proj" := Dir; "/proj/src" := Dir;
                       "/proj/src/util.ts" := File "export {}" ]};
              cwd := "/proj"; clock := []; trace := [] |} in
  fst (Dependency.resolveModuleSpecifier "./util" "/proj/src/index.ts"
         (Samples.configOf "./src/index.ts") [] w)
  = Ret {| dep_id := "./util"; dep_resolved := Some "/proj/src/util.ts";
           dep_isExternal := false |}.
Proof. vm_compute. reflexivity. Qed.

Example resolve_empty_answer_asks_next_plugin :
  Dependency.resolveModuleSpecifier "./x" "/proj/index.ts"
    (Samples.configOf "./index.ts")
    [Samples.constant "first" ""; Samples.constant "second" "/proj/util.ts"]
    Samples.twoFileDisk
  = (Ret {| dep_id := "./x"; dep_resolved := Some "/proj/util.ts";
            dep_isExternal := false |},
     setTrace Samples.twoFileDisk
       [EvHook 0 "first" KResolveId
          (ArgResolve {| rc_config := Samples.configOf "./index.ts";
                         rc_importer := "/proj/index.ts"; rc_source := "./x" |});
        EvHook 1 "second" KResolveId
          (ArgResolve {| rc_config := Samples.configOf "./index.ts";
                         rc_importer := "/proj/index.ts"; rc_source := "./x" |})]).
Proof. vm_compute. reflexivity. Qed.

(* ===================================================================== *)
(** * The development server ([src/server.ts]) *)
(* ===================================================================== *)

Section server.
Import Server ServerSpec.

Lemma serve_loop_chain plugins cfg filePath content :
  ∀ idx code w,
    chainReturns plugins cfg filePath content code = true →
    serve_loop idx plugins cfg filePath content code w
    = (Ret (chain plugins cfg filePath content code),
       setTrace w (trace w ++ chainCalls idx plugins cfg filePath content code)).
Proof.
  induction plugins as [|p ps IH]; intros idx code w Hret; simpl.
  { by rewrite setTrace_nil. }
  simpl in Hret. destruct (transform p) as [hook|]; [|by apply IH].
  rewrite /bind /callHook /bind /=.
  destruct (hook _) as [v|]; [|done]. simpl.
  by rewrite IH // setTrace_app.
Qed.

Lemma script_content_type ext :
  ext ∈ scriptExtensions →
  JsMap.get MIME_TYPES ext = Some "application/javascript".
Proof.
  rewrite /scriptExtensions !elem_of_cons elem_of_nil.
  by intros [->|[->|[->|[]]]].
Qed.


Lemma notify_loop_broadcast cs data w :
  notify_loop cs data w = (Ret tt, setTrace w (trace w ++ broadcast cs data)).
Proof.
  revert w. induction cs as [|c cs IH]; intros w; simpl.
  { by rewrite /broadcast /= setTrace_nil. }
  rewrite /bind /broadcast filter_cons.
  case_bool_decide as Hopen.
  - rewrite decide_True // /= IH setTrace_app //.
  - rewrite decide_False // /= IH //.
Qed.

Lemma watch_loop_calls plugins path :
  watchersReturn plugins path = true →
  ∀ idx w,
    watch_loop idx plugins path w
    = (Ret tt, setTrace w (trace w ++ watchCalls idx plugins path)).
Proof.
  induction plugins as [|p ps IH]; intros Hall idx w; simpl.
  { by rewrite setTrace_nil. }
  simpl in Hall. apply andb_prop in Hall as [[Hw Hh]%andb_prop Hps].
  rewrite /bind /callHook /bind /=.
  destruct (watchChange p) as [hw|]; destruct (handleHotUpdate p) as [hh|]; simpl.
  - destruct (hw _); [|done]. destruct (hh _); [|done]. simpl.
    rewrite IH // /setTrace /= -!app_assoc //.
  - destruct (hw _); [|done]. simpl. rewrite IH // /setTrace /= -!app_assoc //.
  - destruct (hh _); [|done]. simpl. rewrite IH // /setTrace /= -!app_assoc //.
  - rewrite IH //.
Qed.

(** The watcher callback, when the plugins' hooks return. *)
Lemma onChange_broadcast srv path w :
  watchersReturn (plugins srv) path = true →
  ∃ w',
    onChange srv path w = (Ret tt, w')
    ∧ trace w'
      = trace w
        ++ [EvConsole LLog ("File changed: " +:+ path) None;
            EvConsole LLog ("Calculating affected modules for: " +:+ path) None]
        ++ watchCalls 0 (plugins srv) path
        ++ broadcast (clients srv)
             (if hasAcceptedUpdate path then updateMessage path (nextTick w)
              else reloadMessage).
Proof.
  intros Hret. rewrite /onChange /console_log /getAffectedModules /console_log.
  rewrite /bind /emit /=. rewrite /now /nextTick /=.
  destruct (clock w) as [|t ts]; simpl;
    rewrite watch_loop_calls //=; destruct (hasAcceptedUpdate path);
    rewrite /notifyClients notify_loop_broadcast; eexists; (split; [done|]);
    by rewrite /= -!app_assoc.
Qed.

End server.

(** C5.  On a change event, when the plugins' [watchChange] and
    [handleHotUpdate] hooks return, the server logs the change, calls those
    hooks, and sends one message to every client whose socket is open: for
    a path that passes the script test ([.js], [.mjs], [.ts], [.jsx],
    [.tsx] at its end) the message has type [update], names the path, lists
    it in [modules] and carries the clock reading as timestamp; for any
    other path the message is [reload] with no other field.  [app.ts]
    passes the test and [app.css] does not. *)
Theorem change_event_broadcast :
  (∀ srv path w,
     ServerSpec.watchersReturn (Server.plugins srv) path = true →
     ∃ w',
       Server.onChange srv path w = (Ret tt, w')
       ∧ trace w'
         = trace w
           ++ [EvConsole LLog ("File changed: " +:+ path) None;
               EvConsole LLog ("Calculating affected modules for: " +:+ path) None]
           ++ ServerSpec.watchCalls 0 (Server.plugins srv) path
           ++ ServerSpec.broadcast (Server.clients srv)
                (if Server.hasAcceptedUpdate path
                 then {| p_type := TUpdate; p_path := Some path;
                         p_timestamp := Some (ServerSpec.nextTick w);
                         p_modules := Some [path];
                         p_message := None; p_stack := None |}
                 else {| p_type := TReload; p_path := None; p_timestamp := None;
                         p_modules := None; p_message := None; p_stack := None |}))
  ∧ (∀ cs data,
       ServerSpec.broadcast cs data
       = (λ c, EvSend (Server.client_id c) data)
           <$> filter (λ c, Server.readyState c = Server.OPEN) cs)
  ∧ Server.hasAcceptedUpdate "app.ts" = true
  ∧ Server.hasAcceptedUpdate "app.css" = false.
Proof.
  split_and!; [|done|by vm_compute..].
  intros srv path w Hret. by apply onChange_broadcast.
Qed.

(** A change of [app.css] on the sample server: both open clients get
    exactly the reload message, the closed one nothing. *)
Lemma change_event_broadcast_witness :
  ∃ w',
    Server.onChange (Samples.devServer [Samples.passThrough]) "app.css"
      Samples.twoFileDisk = (Ret tt, w')
    ∧ trace w'
      = [EvConsole LLog "File changed: app.css" None;
         EvConsole LLog "Calculating affected modules for: app.css" None;
         EvSend 1 ServerSpec.reloadMessage; EvSend 3 ServerSpec.reloadMessage].
Proof.
  destruct change_event_broadcast as (Hchange & _).
  destruct (Hchange (Samples.devServer [Samples.passThrough]) "app.css"
              Samples.twoFileDisk) as (w' & Hrun & Htrace).
  - vm_compute. reflexivity.
  - exists w'. split; [exact Hrun|]. rewrite Htrace. vm_compute. reflexivity.
Defined.

Example change_of_script_sends_update :
  trace (snd (Server.onChange (Samples.devServer [Samples.passThrough]) "app.ts"
                Samples.twoFileDisk))
  = [EvConsole LLog "File changed: app.ts" None;
     EvConsole LLog "Calculating affected modules for: app.ts" None;
     EvSend 1 (ServerSpec.updateMessage "app.ts" 100);
     EvSend 3 (ServerSpec.updateMessage "app.ts" 100)].
Proof. vm_compute. reflexivity. Qed.




(* ===================================================================== *)
(** * The page: modules that declined *)
(* ===================================================================== *)

Lemma JsMap_get_delete {V} (m : list (string * V)) (k : string) :
  JsMap.get (JsMap.delete m k) k = None.
Proof.
  induction m as [|[k' v] m IH]; first done.
  cbn [JsMap.delete]. case_bool_decide as Hk; first done.
  cbn [JsMap.get]. by rewrite bool_decide_false.
Qed.

Lemma JsMap_get_delete_ne {V} (m : list (string * V)) (k k' : string) :
  k' ≠ k → JsMap.get (JsMap.delete m k) k' = JsMap.get m k'.
Proof.
  intros Hne. induction m as [|[k0 v] m IH]; first done.
  cbn [JsMap.delete JsMap.get].
  case_bool_decide as Hk.
  - subst k0. by rewrite (bool_decide_false (k = k')).
  - cbn [JsMap.get]. by rewrite IH.
Qed.

Lemma updateModule_unregistered (path : string) (timestamp : nat)
    (b : HmrClient.Browser) :
  JsMap.get (HmrClient.hotModulesMap b) path = None →
  HmrClient.updateModule path timestamp b = b.
Proof. intros Hnone. by rewrite /HmrClient.updateModule Hnone. Qed.

Lemma join_singleton (sep s : string) : Js.join sep [s] = s.
Proof. done. Qed.

Example accepted_module_is_hot_updated :
  HmrClient.events
    (HmrClient.handleMessage (ServerSpec.changeMessage "/src/app.ts" 100)
       (Samples.acceptingPage "/src/app.ts"))
  = [HmrClient.CLog LLog "[aether] Module update: /src/app.ts";
     HmrClient.CImport "/src/app.ts?t=100";
     HmrClient.CCall "/src/app.ts" 0;
     HmrClient.CLog LLog "[aether] Hot updated: /src/app.ts"].
Proof. vm_compute. reflexivity. Qed.

Example declined_module_is_not_updated :
  HmrClient.events
    (HmrClient.handleMessage (ServerSpec.changeMessage "/src/app.ts" 100)
       (HmrClient.decline "/src/app.ts" (Samples.acceptingPage "/src/app.ts")))
  = [HmrClient.CLog LLog "[aether] Module update: /src/app.ts"].
Proof. vm_compute. reflexivity. Qed.

(** C9, as the code has it.  [decline()] removes the module from
    [hotModulesMap] and leaves the other modules registered.  The server
    does not know of it: a change of a path ending in [.js], [.mjs], [.ts],
    [.jsx] or [.tsx] is still broadcast as an [update], and the page skips
    the declined module: it logs the update and does nothing else, so there
    is no import, no callback and no reload.  A change of any other path is
    broadcast as a [reload] and reloads the page, declined or not. *)
Theorem declined_module_update_is_skipped :
  ∀ owner timestamp b,
    JsMap.get (HmrClient.hotModulesMap (HmrClient.decline owner b)) owner = None
    ∧ (∀ other, other ≠ owner →
         JsMap.get (HmrClient.hotModulesMap (HmrClient.decline owner b)) other
         = JsMap.get (HmrClient.hotModulesMap b) other)
    ∧ (Server.hasAcceptedUpdate owner = true →
         HmrClient.handleMessage (ServerSpec.changeMessage owner timestamp)
           (HmrClient.decline owner b)
         = HmrClient.note (HmrClient.decline owner b)
             (HmrClient.CLog LLog ("[aether] Module update: " +:+ owner)))
    ∧ (Server.hasAcceptedUpdate owner = false →
         HmrClient.handleMessage (ServerSpec.changeMessage owner timestamp)
           (HmrClient.decline owner b)
         = HmrClient.note
             (HmrClient.note (HmrClient.decline owner b)
                (HmrClient.CLog LLog "[aether] Full page reload"))
             HmrClient.CReload).
Proof.
  intros owner timestamp b. split_and!.
  - apply JsMap_get_delete.
  - intros other Hne. by apply JsMap_get_delete_ne.
  - intros Hscript. rewrite /ServerSpec.changeMessage Hscript.
    rewrite /HmrClient.handleMessage /ServerSpec.updateMessage.
    cbn [p_type p_modules p_timestamp HmrClient.updateModules].
    rewrite join_singleton updateModule_unregistered //.
    apply JsMap_get_delete.
  - intros Hother. by rewrite /ServerSpec.changeMessage Hother.
Qed.

Lemma declined_module_update_is_skipped_witness :
  HmrClient.events
    (HmrClient.handleMessage (ServerSpec.changeMessage "/src/app.ts" 100)
       (HmrClient.decline "/src/app.ts" (Samples.acceptingPage "/src/app.ts")))
  = [HmrClient.CLog LLog "[aether] Module update: /src/app.ts"].
Proof.
  destruct (declined_module_update_is_skipped "/src/app.ts" 100
              (Samples.acceptingPage "/src/app.ts")) as (_ & _ & Hskip & _).
  rewrite Hskip.
  - vm_compute. reflexivity.
  - vm_compute. reflexivity.
Defined.

(** C9 as stated fails: the module [/src/app.ts] registers, accepts and
    then declines; the change of it is broadcast as an [update], and the
    page handles that message without reloading. *)
Lemma declined_module_change_does_not_reload : ¬ ServerSpec.DeclineForcesReload.
Proof.
  intros H.
  specialize (H "/src/app.ts" 100 (Samples.acceptingPage "/src/app.ts")).
  rewrite declined_module_is_not_updated in H.
  by apply list_elem_of_singleton in H.
Qed.

(* ===================================================================== *)
(** * The page: hot updates, failures and pruning *)
(* ===================================================================== *)

Section page.
Import HmrClient.

Lemma notes_app b evs1 evs2 : notes (notes b evs1) evs2 = notes b (evs1 ++ evs2).
Proof. by rewrite /notes foldl_app. Qed.

Lemma note_notes b e : note b e = notes b [e].
Proof. done. Qed.

Lemma notes_fields b evs :
  hotModulesMap (notes b evs) = hotModulesMap b
  ∧ pruneMap (notes b evs) = pruneMap b
  ∧ loader (notes b evs) = loader b
  ∧ dateNow (notes b evs) = dateNow b
  ∧ events (notes b evs) = events b ++ evs.
Proof.
  revert b. induction evs as [|e evs IH]; intros b.
  - by rewrite /= app_nil_r.
  - change (notes b (e :: evs)) with (notes (note b e) evs).
    destruct (IH (note b e)) as (-> & -> & -> & -> & ->).
    by rewrite /= -app_assoc.
Qed.

Lemma runCallbacks_return path url cbs :
  allReturnAt url cbs = true →
  ∀ idx b,
    runCallbacks path url idx cbs b
    = (notes b (callbackCalls path idx (length cbs)), None).
Proof.
  induction cbs as [|cb cbs IH]; intros Hall idx b; first done.
  cbn [allReturnAt forallb] in Hall. apply andb_prop in Hall as [Hcb Hall].
  cbn [runCallbacks]. destruct (cb url); last done.
  by rewrite IH.
Qed.

Lemma runCallbacks_throw path url before cb after e :
  allReturnAt url before = true → cb url = Thrown e →
  ∀ idx b,
    runCallbacks path url idx (before ++ cb :: after) b
    = (notes b (callbackCalls path idx (S (length before))), Some e).
Proof.
  intros Hall Hcb. induction before as [|c before IH]; intros idx b.
  - cbn [app runCallbacks]. by rewrite Hcb.
  - cbn [allReturnAt forallb] in Hall. apply andb_prop in Hall as [Hc Hall].
    cbn [app runCallbacks]. destruct (c url); last done.
    by rewrite IH.
Qed.

Lemma updateModule_fields path timestamp b :
  hotModulesMap (updateModule path timestamp b) = hotModulesMap b
  ∧ pruneMap (updateModule path timestamp b) = pruneMap b
  ∧ loader (updateModule path timestamp b) = loader b
  ∧ dateNow (updateModule path timestamp b) = dateNow b
  ∧ ∃ evs, events (updateModule path timestamp b) = events b ++ evs.
Proof.
  rewrite /updateModule.
  destruct (JsMap.get (hotModulesMap b) path) as [hm|];
    last by (split_and!; [done..|exists []; by rewrite app_nil_r]).
  destruct (callbacks hm) as [|cb cbs] eqn:Hcbs;
    first by (split_and!; [done..|exists []; by rewrite app_nil_r]).
  set (url := path +:+ "?t=" +:+ pretty timestamp).
  change (loader (note b (CImport url)) url) with (loader b url).
  destruct (loader b url) as [v|e].
  - assert (∃ evs r, runCallbacks path url 0 (cb :: cbs) (note b (CImport url))
                     = (notes (note b (CImport url)) evs, r)) as (evs & r & ->).
    { generalize (note b (CImport url)) 0 (cb :: cbs). intros b0 idx l.
      revert idx b0. induction l as [|c l IH]; intros idx b0.
      - by exists [], None.
      - cbn [runCallbacks]. destruct (c url).
        + destruct (IH (S idx) (note b0 (CCall path idx))) as (evs & r & ->).
          by exists (CCall path idx :: evs), r.
        + by exists [CCall path idx], (Some e). }
    destruct (notes_fields (note b (CImport url)) evs) as (Hh & Hp & Hl & Hd & He).
    destruct r as [e|]; cbn [hotModulesMap pruneMap loader dateNow events note];
      rewrite ?Hh ?Hp ?Hl ?Hd ?He /=; (split_and!; [done..|]);
      rewrite -!app_assoc; by eexists.
  - split_and!; [done..|]. rewrite /= -!app_assoc. by eexists.
Qed.

Lemma updateModules_fields modules timestamp b :
  hotModulesMap (updateModules modules timestamp b) = hotModulesMap b
  ∧ pruneMap (updateModules modules timestamp b) = pruneMap b
  ∧ loader (updateModules modules timestamp b) = loader b
  ∧ dateNow (updateModules modules timestamp b) = dateNow b
  ∧ ∃ evs, events (updateModules modules timestamp b) = events b ++ evs.
Proof.
  revert b. induction modules as [|m ms IH]; intros b.
  - split_and!; [done..|]. exists []. by rewrite app_nil_r.
  - cbn [updateModules].
    destruct (IH (updateModule m timestamp b)) as (-> & -> & -> & -> & evs2 & ->).
    destruct (updateModule_fields m timestamp b) as (-> & -> & -> & -> & evs1 & ->).
    split_and!; [done..|]. exists (evs1 ++ evs2). by rewrite app_assoc.
Qed.

End page.

(** A hot update that succeeds.  For a registered module with at least one
    callback, when the import of the new version and every callback
    return, an update message for that module makes the page log the
    update, import [path?t=timestamp] once, call the callbacks once each in
    the order they were registered, and log the success.  The page is not
    reloaded and the registrations stay as they are.  The timestamp is the
    one of the message, or the reading of the clock when the message has
    none or has zero. *)
Theorem hot_update_runs_callbacks_in_order :
  ∀ path timestamp b hm,
    JsMap.get (HmrClient.hotModulesMap b) path = Some hm →
    HmrClient.callbacks hm ≠ [] →
    let payload := HmrClient.updateOf [path] timestamp in
    let url := HmrClient.importUrl path (HmrClient.timestampOf payload b) in
    HmrClient.returns (HmrClient.loader b url) = true →
    HmrClient.allReturnAt url (HmrClient.callbacks hm) = true →
    HmrClient.handleMessage payload b
    = HmrClient.notes b
        ([HmrClient.CLog LLog ("[aether] Module update: " +:+ path);
          HmrClient.CImport url]
         ++ HmrClient.callbackCalls path 0 (length (HmrClient.callbacks hm))
         ++ [HmrClient.CLog LLog ("[aether] Hot updated: " +:+ path)]).
Proof.
  intros path timestamp b hm Hget Hcbs payload url Hload Hall.
  rewrite /HmrClient.handleMessage.
  cbn [p_type p_modules payload HmrClient.updateOf HmrClient.updateModules].
  fold payload. change (match p_timestamp payload with
                        | Some (S t) => S t
                        | _ => HmrClient.dateNow _
                        end) with (HmrClient.timestampOf payload b).
  rewrite join_singleton /HmrClient.updateModule.
  cbn [HmrClient.hotModulesMap HmrClient.note]. rewrite Hget.
  destruct (HmrClient.callbacks hm) as [|cb cbs] eqn:Hl; first done.
  fold (HmrClient.importUrl path (HmrClient.timestampOf payload b)). fold url.
  change (HmrClient.loader (HmrClient.note (HmrClient.note b _) _) url)
    with (HmrClient.loader b url).
  destruct (HmrClient.loader b url); last done.
  rewrite runCallbacks_return //.
  by rewrite !note_notes !notes_app.
Qed.

Lemma hot_update_runs_callbacks_in_order_witness :
  HmrClient.events
    (HmrClient.handleMessage (HmrClient.updateOf ["/src/app.ts"] (Some 100))
       (Samples.acceptingPage "/src/app.ts"))
  = [HmrClient.CLog LLog "[aether] Module update: /src/app.ts";
     HmrClient.CImport "/src/app.ts?t=100";
     HmrClient.CCall "/src/app.ts" 0;
     HmrClient.CLog LLog "[aether] Hot updated: /src/app.ts"].
Proof.
  rewrite (hot_update_runs_callbacks_in_order "/src/app.ts" (Some 100)
             (Samples.acceptingPage "/src/app.ts")
             {| HmrClient.hm_id := "/src/app.ts";
                HmrClient.callbacks := [λ _, Returned VUndefined] |}).
  - vm_compute. reflexivity.
  - vm_compute. discriminate.
  - vm_compute. reflexivity.
  - vm_compute. reflexivity.
  - vm_compute. reflexivity.
Defined.

(** A hot update that fails.  When the import of the new version throws,
    no callback is called; when a callback throws, the callbacks after it
    are not called.  In both cases the page logs the failure and reloads,
    and the registrations stay as they are. *)
Theorem hot_update_failure_reloads :
  ∀ path timestamp b hm,
    JsMap.get (HmrClient.hotModulesMap b) path = Some hm →
    HmrClient.callbacks hm ≠ [] →
    let url := HmrClient.importUrl path timestamp in
    (HmrClient.returns (HmrClient.loader b url) = false →
     HmrClient.updateModule path timestamp b
     = HmrClient.notes b
         [HmrClient.CImport url;
          HmrClient.CLog LError ("[aether] Failed to hot update: " +:+ path);
          HmrClient.CReload])
    ∧ (∀ before cb after,
         HmrClient.callbacks hm = before ++ cb :: after →
         HmrClient.returns (HmrClient.loader b url) = true →
         HmrClient.allReturnAt url before = true →
         HmrClient.returns (cb url) = false →
         HmrClient.updateModule path timestamp b
         = HmrClient.notes b
             ([HmrClient.CImport url]
              ++ HmrClient.callbackCalls path 0 (S (length before))
              ++ [HmrClient.CLog LError ("[aether] Failed to hot update: " +:+ path);
                  HmrClient.CReload])).
Proof.
  intros path timestamp b hm Hget Hcbs url. split.
  - intros Hload. rewrite /HmrClient.updateModule Hget.
    destruct (HmrClient.callbacks hm) as [|c cs]; first done.
    fold (HmrClient.importUrl path timestamp). fold url.
    change (HmrClient.loader (HmrClient.note b _) url) with (HmrClient.loader b url).
    by destruct (HmrClient.loader b url).
  - intros before cb after Hsplit Hload Hall Hcb.
    rewrite /HmrClient.updateModule Hget.
    destruct (HmrClient.callbacks hm) as [|c cs] eqn:Hl; first done.
    fold (HmrClient.importUrl path timestamp). fold url.
    change (HmrClient.loader (HmrClient.note b _) url) with (HmrClient.loader b url).
    destruct (HmrClient.loader b url); last done.
    destruct (cb url) as [v0|e] eqn:Hthrow; first done.
    rewrite Hsplit (runCallbacks_throw _ _ _ _ _ e) //.
    by rewrite !note_notes !notes_app.
Qed.

Lemma hot_update_failure_reloads_witness :
  HmrClient.events
    (HmrClient.updateModule "/src/app.ts" 100 (Samples.brokenPage "/src/app.ts"))
  = [HmrClient.CImport "/src/app.ts?t=100";
     HmrClient.CCall "/src/app.ts" 0; HmrClient.CCall "/src/app.ts" 1;
     HmrClient.CLog LError "[aether] Failed to hot update: /src/app.ts";
     HmrClient.CReload].
Proof.
  destruct (hot_update_failure_reloads "/src/app.ts" 100
              (Samples.brokenPage "/src/app.ts")
              {| HmrClient.hm_id := "/src/app.ts";
                 HmrClient.callbacks :=
                   [λ _, Returned VUndefined; λ _, Thrown (Error "boom");
                    λ _, Returned VUndefined] |}) as [_ Hcb].
  - vm_compute. reflexivity.
  - vm_compute. discriminate.
  - rewrite (Hcb [λ _, Returned VUndefined] (λ _, Thrown (Error "boom"))
               [λ _, Returned VUndefined]).
    + vm_compute. reflexivity.
    + vm_compute. reflexivity.
    + vm_compute. reflexivity.
    + vm_compute. reflexivity.
    + vm_compute. reflexivity.
Defined.

Section maps.
Context {V : Type}.
Implicit Types (m : list (string * V)) (k : string).

Lemma JsMap_get_set m k v : JsMap.get (JsMap.set m k v) k = Some v.
Proof.
  induction m as [|[k' v'] m IH]; cbn [JsMap.set JsMap.get].
  - by rewrite bool_decide_true.
  - case_bool_decide as Hk; cbn [JsMap.get].
    + by rewrite bool_decide_true.
    + by rewrite bool_decide_false.
Qed.

Lemma JsMap_get_set_ne m k k' v :
  k' ≠ k → JsMap.get (JsMap.set m k v) k' = JsMap.get m k'.
Proof.
  intros Hne. induction m as [|[k0 v0] m IH]; cbn [JsMap.set JsMap.get].
  - by rewrite bool_decide_false.
  - case_bool_decide as Hk; cbn [JsMap.get].
    + subst k0. by rewrite !(bool_decide_false (k = k')).
    + by rewrite IH.
Qed.

Lemma JsMap_get_delete_Some m k k' v :
  JsMap.get (JsMap.delete m k) k' = Some v → JsMap.get m k' = Some v.
Proof.
  destruct (decide (k' = k)) as [->|Hne].
  - by rewrite JsMap_get_delete.
  - by rewrite JsMap_get_delete_ne.
Qed.

Lemma JsMap_get_keys m k : is_Some (JsMap.get m k) ↔ k ∈ JsMap.keys m.
Proof.
  rewrite /JsMap.keys. induction m as [|[k' v'] m IH]; cbn [JsMap.get fmap list_fmap].
  - split; [by intros [? ?]|by intros ?%elem_of_nil].
  - rewrite elem_of_cons. case_bool_decide as Hk.
    + split; [by left|by eexists].
    + rewrite IH. split; [by right|]. by intros [->|?].
Qed.

End maps.

(** [accept] on a module that declined.  After [decline()] the module has
    no entry, so [accept(callback)] and [acceptDeps(deps, callback)] throw,
    while [accept()] without a callback does nothing.  When the module is
    run again, [createHotContext] registers it afresh and [accept] then
    leaves it with that one callback. *)
Theorem accept_after_decline_throws :
  ∀ owner cb deps b,
    (∃ e, HmrClient.accept owner (Some cb) (HmrClient.decline owner b) = inl e)
    ∧ (∃ e, HmrClient.acceptDeps owner deps (Some cb) (HmrClient.decline owner b)
            = inl e)
    ∧ HmrClient.accept owner None (HmrClient.decline owner b)
      = inr (HmrClient.decline owner b)
    ∧ ∃ b',
        HmrClient.accept owner (Some cb)
          (HmrClient.createHotContext owner (HmrClient.decline owner b))
        = inr b'
        ∧ JsMap.get (HmrClient.hotModulesMap b') owner
          = Some {| HmrClient.hm_id := owner; HmrClient.callbacks := [cb] |}.
Proof.
  intros owner cb deps b.
  assert (JsMap.get (HmrClient.hotModulesMap (HmrClient.decline owner b)) owner
          = None) as Hnone by apply JsMap_get_delete.
  split_and!.
  - rewrite /HmrClient.accept Hnone. by eexists.
  - rewrite /HmrClient.acceptDeps /HmrClient.accept Hnone. by eexists.
  - done.
  - rewrite /HmrClient.createHotContext Hnone /HmrClient.accept.
    cbn [HmrClient.hotModulesMap HmrClient.setHot].
    rewrite JsMap_get_set. eexists. split; first done.
    cbn [HmrClient.hotModulesMap HmrClient.setHot HmrClient.hm_id
         HmrClient.callbacks app].
    by rewrite JsMap_get_set.
Qed.

(** A module without callbacks is never updated.  A module that registers
    and calls [accept()] without a callback has an entry with no callback,
    and an update message for it only logs the update: the new version is
    not imported and the page is not reloaded. *)
Theorem update_without_callbacks_is_ignored :
  ∀ owner timestamp b,
    JsMap.get (HmrClient.hotModulesMap b) owner = None →
    ∃ b',
      HmrClient.accept owner None (HmrClient.createHotContext owner b) = inr b'
      ∧ JsMap.get (HmrClient.hotModulesMap b') owner
        = Some {| HmrClient.hm_id := owner; HmrClient.callbacks := [] |}
      ∧ HmrClient.handleMessage (HmrClient.updateOf [owner] timestamp) b'
        = HmrClient.note b'
            (HmrClient.CLog LLog ("[aether] Module update: " +:+ owner)).
Proof.
  intros owner timestamp b Hnone. eexists. split; first done.
  rewrite /HmrClient.createHotContext Hnone.
  cbn [HmrClient.hotModulesMap HmrClient.setHot].
  split; first by rewrite JsMap_get_set.
  rewrite /HmrClient.handleMessage.
  cbn [p_type p_modules HmrClient.updateOf HmrClient.updateModules].
  rewrite join_singleton /HmrClient.updateModule.
  cbn [HmrClient.hotModulesMap HmrClient.note HmrClient.setHot].
  by rewrite JsMap_get_set.
Qed.

Lemma update_without_callbacks_is_ignored_witness :
  ∃ b',
    HmrClient.accept "/src/app.ts" None
      (HmrClient.createHotContext "/src/app.ts" Samples.emptyPage) = inr b'
    ∧ HmrClient.events
        (HmrClient.handleMessage (HmrClient.updateOf ["/src/app.ts"] (Some 100)) b')
      = [HmrClient.CLog LLog "[aether] Module update: /src/app.ts"].
Proof.
  destruct (update_without_callbacks_is_ignored "/src/app.ts" (Some 100)
              Samples.emptyPage) as (b' & Hacc & _ & Hmsg).
  - vm_compute. reflexivity.
  - exists b'. split; first exact Hacc.
    rewrite Hmsg. injection Hacc as <-. vm_compute. reflexivity.
Defined.

(** Pruning.  A [prune] message for a non-empty path removes the module
    from [hotModulesMap] and keeps every other module.  A registered
    dispose callback is called exactly once; its entry in [pruneMap] is
    removed when it returns and kept, with the failure logged, when it
    throws.  The page is not reloaded. *)
Theorem prune_removes_module :
  ∀ path b,
    Js.truthy path = true →
    let b' := HmrClient.handleMessage (HmrClient.pruneMessage path) b in
    let log := HmrClient.CLog LLog ("[aether] Pruning module: " +:+ path) in
    JsMap.get (HmrClient.hotModulesMap b') path = None
    ∧ (∀ other, other ≠ path →
         JsMap.get (HmrClient.hotModulesMap b') other
         = JsMap.get (HmrClient.hotModulesMap b) other)
    ∧ match JsMap.get (HmrClient.pruneMap b) path with
      | None =>
          HmrClient.events b' = HmrClient.events b ++ [log]
          ∧ HmrClient.pruneMap b' = HmrClient.pruneMap b
      | Some disposeCb =>
          if HmrClient.returns (disposeCb tt) then
            HmrClient.events b'
            = HmrClient.events b ++ [log; HmrClient.CDispose path]
            ∧ JsMap.get (HmrClient.pruneMap b') path = None
          else
            HmrClient.events b'
            = HmrClient.events b
              ++ [log; HmrClient.CDispose path;
                  HmrClient.CLog LError
                    ("[aether] Error while pruning " +:+ path +:+ ":")]
            ∧ HmrClient.pruneMap b' = HmrClient.pruneMap b
      end.
Proof.
  intros path b Htruthy b' log. subst b'.
  rewrite /HmrClient.handleMessage.
  cbn [p_type p_path HmrClient.pruneMessage]. rewrite Htruthy.
  rewrite /HmrClient.pruneModule.
  cbn [HmrClient.pruneMap HmrClient.note].
  destruct (JsMap.get (HmrClient.pruneMap b) path) as [disposeCb|].
  - destruct (disposeCb tt) as [v|e]; cbn [HmrClient.returns];
      cbn [HmrClient.hotModulesMap HmrClient.pruneMap HmrClient.events
           HmrClient.setHot HmrClient.setPrune HmrClient.note].
    + split_and!; [apply JsMap_get_delete| |by rewrite -app_assoc
                                           |apply JsMap_get_delete].
      intros other Hne. by apply JsMap_get_delete_ne.
    + split_and!; [apply JsMap_get_delete| |by rewrite -!app_assoc|done].
      intros other Hne. by apply JsMap_get_delete_ne.
  - cbn [HmrClient.hotModulesMap HmrClient.pruneMap HmrClient.events
         HmrClient.setHot HmrClient.setPrune HmrClient.note].
    split_and!; [apply JsMap_get_delete| |done..].
    intros other Hne. by apply JsMap_get_delete_ne.
Qed.

Lemma prune_removes_module_witness :
  JsMap.get
    (HmrClient.hotModulesMap
       (HmrClient.handleMessage (HmrClient.pruneMessage "/src/app.ts")
          (Samples.disposingPage "/src/app.ts")))
    "/src/app.ts" = None
  ∧ HmrClient.events
      (HmrClient.handleMessage (HmrClient.pruneMessage "/src/app.ts")
         (Samples.disposingPage "/src/app.ts"))
    = [HmrClient.CLog LLog "[aether] Pruning module: /src/app.ts";
       HmrClient.CDispose "/src/app.ts";
       HmrClient.CLog LError "[aether] Error while pruning /src/app.ts:"].
Proof.
  destruct (prune_removes_module "/src/app.ts"
              (Samples.disposingPage "/src/app.ts")) as (Hgone & _ & Hev).
  - vm_compute. reflexivity.
  - split; first exact Hgone.
    vm_compute in Hev. destruct Hev as [Hev _]. vm_compute. exact Hev.
Defined.

(* ===================================================================== *)
(** * The development server: answers and the module graph *)
(* ===================================================================== *)

Section serving.
Import Server ServerSpec.

Lemma serve_loop_throws plugins cfg filePath content :
  ∀ idx code w,
    chainReturns plugins cfg filePath content code = false →
    ∃ e, serve_loop idx plugins cfg filePath content code w
         = (Throw e,
            setTrace w (trace w ++ chainCalls idx plugins cfg filePath content code)).
Proof.
  induction plugins as [|p ps IH]; intros idx code w Hret; first done.
  cbn [chainReturns] in Hret. cbn [serve_loop chainCalls].
  destruct (transform p) as [hook|]; [|by apply IH].
  rewrite /bind /callHook /bind /=.
  destruct (hook _) as [v|e].
  - simpl.
    match goal with
    | |- context [serve_loop ?i _ _ _ _ ?cd ?w0] =>
        destruct (IH i cd w0 Hret) as [e ->]
    end.
    exists e. by rewrite setTrace_app.
  - by exists e.
Qed.

Lemma chainCalls_transform idx plugins cfg filePath content code :
  Forall (hookEvent KTransform) (chainCalls idx plugins cfg filePath content code).
Proof.
  revert idx code. induction plugins as [|p ps IH]; intros idx code; first done.
  cbn [chainCalls]. destruct (transform p) as [hook|]; [|apply IH].
  constructor; first done. destruct (hook _); [apply IH|done].
Qed.

(** The content type of a served file. *)
Lemma handleRequest_found srv pathname w file content :
  bool_decide (pathname = "/__aether_hmr_client") = false →
  file = requestedFile (cwd w) pathname →
  nodeAt w file = Some (File content) →
  handleRequest srv (inr pathname) w
  = tryCatch
      (let ext := Js.toLowerCase (Path.extname file) in
       let contentType :=
         match JsMap.get MIME_TYPES ext with
         | Some t => t
         | None => "application/octet-stream"
         end in
       let finalContent :=
         if bool_decide (contentType = "text/html") then
           Js.replaceFirst content "</head>"
             ("<script type=" +:+ Js.str Js.dquote +:+ "module"
              +:+ Js.str Js.dquote +:+ " src=" +:+ Js.str Js.dquote
              +:+ "/__aether_hmr_client" +:+ Js.str Js.dquote
              +:+ "></script></head>")
         else content in
       let* finalContent :=
         if bool_decide (ext ∈ scriptExtensions) then
           serve_loop 0 (plugins srv) (config srv) file content finalContent
         else ret finalContent in
       ret {| status := 200; contentType := contentType; body := finalContent |})
      (λ error,
         console_error ("Error serving " +:+ file +:+ ":") error;;
         ret {| status := 500; contentType := "text/plain";
                body := "500 Internal Server Error" |}) w.
Proof.
  intros Hclient -> Hfile.
  rewrite /handleRequest Hclient.
  rewrite (bind_eq getCwd _ w (cwd w) w) //.
  fold (requestedFile (cwd w) pathname).
  set (file := requestedFile (cwd w) pathname) in *.
  rewrite (bind_eq (fileExists file) _ w true w);
    [by rewrite /fileExists /existsSync /= Hfile|].
  cbn [negb]. rewrite bind_ret_l /tryCatch.
  rewrite (bind_eq (readFile file) _ w content w);
    [by rewrite /readFile /readFileSync /= Hfile|].
  done.
Qed.

End serving.

(** Files that are not scripts bypass the plugins.  A request for an
    existing file whose extension is not [.ts], [.tsx] or [.jsx] (in any
    letter case) is answered 200 without calling a plugin and without a
    trace: the content type is the one of the table, or
    [application/octet-stream] for an unknown extension, and unless the
    type is [text/html] the body is the text [readFile] yields for the
    file, as it is.  (That text is the UTF-8 decoding of the file: an
    image or another file that is not valid UTF-8 is answered with its
    decoding, not with its bytes.) *)
Theorem static_files_bypass_plugins :
  ∀ srv pathname w content,
    bool_decide (pathname = "/__aether_hmr_client") = false →
    nodeAt w (ServerSpec.requestedFile (cwd w) pathname)
    = Some (File content) →
    bool_decide (Js.toLowerCase
                   (Path.extname (ServerSpec.requestedFile (cwd w) pathname))
                 ∈ Server.scriptExtensions) = false →
    ∃ resp,
      Server.handleRequest srv (inr pathname) w = (Ret resp, w)
      ∧ Server.status resp = 200
      ∧ Server.contentType resp
        = default "application/octet-stream"
            (JsMap.get Server.MIME_TYPES
               (Js.toLowerCase
                  (Path.extname (ServerSpec.requestedFile (cwd w) pathname))))
      ∧ (Server.contentType resp ≠ "text/html" → Server.body resp = content).
Proof.
  intros srv pathname w content Hclient Hfile Hext.
  rewrite (handleRequest_found srv pathname w _ content Hclient eq_refl Hfile).
  rewrite /tryCatch. cbv zeta. rewrite Hext bind_ret_l /ret.
  eexists. split; first done. cbn [Server.status Server.contentType Server.body].
  split; first done.
  split; first by destruct (JsMap.get _ _).
  intros Hne. by rewrite bool_decide_false.
Qed.

Lemma static_files_bypass_plugins_witness :
  Server.handleRequest (Samples.devServer [Samples.failing]) (inr "/style.css")
    Samples.siteDisk
  = (Ret {| Server.status := 200; Server.contentType := "text/css";
            Server.body := "body { margin: 0 }" |},
     Samples.siteDisk).
Proof.
  destruct (static_files_bypass_plugins (Samples.devServer [Samples.failing])
              "/style.css" Samples.siteDisk "body { margin: 0 }")
    as (resp & Hresp & _).
  - vm_compute. reflexivity.
  - vm_compute. reflexivity.
  - vm_compute. reflexivity.
  - rewrite Hresp. vm_compute in Hresp. by injection Hresp as <-.
Defined.

(** Failures while serving are answered, not thrown.  When a [transform]
    of the chain throws for a script request, the plugins after it are not
    called, the error is logged under the file, and the answer is 500.  A
    request that names a directory is answered 500 in the same way. *)
Theorem failing_transform_answers_500 :
  ∀ srv pathname w,
    bool_decide (pathname = "/__aether_hmr_client") = false →
    let file := ServerSpec.requestedFile (cwd w) pathname in
    let failure :=
      {| Server.status := 500; Server.contentType := "text/plain";
         Server.body := "500 Internal Server Error" |} in
    (∀ content,
       nodeAt w file = Some (File content) →
       bool_decide (Js.toLowerCase (Path.extname file) ∈ Server.scriptExtensions)
       = true →
       ServerSpec.chainReturns (Server.plugins srv) (Server.config srv) file
         content content = false →
       ∃ e,
         Server.handleRequest srv (inr pathname) w
         = (Ret failure,
            setTrace w (trace w
              ++ ServerSpec.chainCalls 0 (Server.plugins srv) (Server.config srv)
                   file content content
              ++ [EvConsole LError ("Error serving " +:+ file +:+ ":") (Some e)])))
    ∧ (nodeAt w file = Some Dir →
       ∃ e,
         Server.handleRequest srv (inr pathname) w
         = (Ret failure,
            setTrace w (trace w
              ++ [EvConsole LError ("Error serving " +:+ file +:+ ":") (Some e)]))).
Proof.
  intros srv pathname w Hclient file failure. split.
  - intros content Hfile Hext Hthrows.
    rewrite (handleRequest_found srv pathname w _ content Hclient eq_refl Hfile).
    fold file. rewrite /tryCatch. cbv zeta. rewrite Hext.
    pose proof Hext as Hin%bool_decide_eq_true.
    rewrite (script_content_type _ Hin).
    rewrite (bool_decide_false ("application/javascript" = "text/html")) //.
    destruct (serve_loop_throws (Server.plugins srv) (Server.config srv) file
                content 0 content w Hthrows) as [e He].
    exists e. by rewrite /bind He /console_error /emit /= setTrace_app.
  - intros Hdir. rewrite /Server.handleRequest Hclient.
    rewrite (bind_eq getCwd _ w (cwd w) w) //.
    fold (ServerSpec.requestedFile (cwd w) pathname). fold file.
    rewrite (bind_eq (fileExists file) _ w true w);
      [by rewrite /fileExists /existsSync /= Hdir|].
    cbn [negb]. rewrite bind_ret_l /tryCatch.
    rewrite /bind /readFile /readFileSync Hdir. by eexists.
Qed.

Lemma failing_transform_answers_500_witness :
  fst (Server.handleRequest (Samples.devServer [Samples.failing; Samples.passThrough])
         (inr "/src/app.ts") Samples.siteDisk)
  = Ret {| Server.status := 500; Server.contentType := "text/plain";
           Server.body := "500 Internal Server Error" |}.
Proof.
  destruct (failing_transform_answers_500
              (Samples.devServer [Samples.failing; Samples.passThrough])
              "/src/app.ts" Samples.siteDisk) as [Hthrow _].
  - vm_compute. reflexivity.
  - destruct (Hthrow "export const x = 1;") as [e ->].
    + vm_compute. reflexivity.
    + vm_compute. reflexivity.
    + vm_compute. reflexivity.
    + reflexivity.
Defined.

(** A request for a file that does not exist is answered 404, with no
    plugin called and nothing logged, when the request path has an
    extension or the project has no [index.html]. *)
Theorem missing_file_answers_404 :
  ∀ srv pathname w,
    bool_decide (pathname = "/__aether_hmr_client") = false →
    nodeAt w (ServerSpec.requestedFile (cwd w) pathname) = None →
    getExtension pathname ≠ ""
    ∨ nodeAt w (Path.join [cwd w; "index.html"]) = None →
    Server.handleRequest srv (inr pathname) w
    = (Ret {| Server.status := 404; Server.contentType := "text/plain";
              Server.body := "404 Not Found" |}, w).
Proof.
  intros srv pathname w Hclient Hfile Hno.
  rewrite /Server.handleRequest Hclient.
  rewrite (bind_eq getCwd _ w (cwd w) w) //.
  fold (ServerSpec.requestedFile (cwd w) pathname).
  rewrite (bind_eq (fileExists _) _ w false w);
    [by rewrite /fileExists /existsSync /= Hfile|].
  cbn [negb]. rewrite /bind /fileExists /existsSync.
  destruct Hno as [Hext|Hindex].
  - by rewrite (bool_decide_false (getExtension pathname = "")).
  - rewrite Hindex (bool_decide_false (is_Some None)); [by apply is_Some_None|].
    by rewrite andb_false_r.
Qed.

Lemma missing_file_answers_404_witness :
  Server.handleRequest (Samples.devServer []) (inr "/logo.png") Samples.siteDisk
  = (Ret {| Server.status := 404; Server.contentType := "text/plain";
            Server.body := "404 Not Found" |}, Samples.siteDisk).
Proof.
  apply missing_file_answers_404.
  - vm_compute. reflexivity.
  - vm_compute. reflexivity.
  - left. vm_compute. discriminate.
Defined.

Section answers.
Import Server ServerSpec.

Lemma serve_loop_total plugins cfg filePath content :
  ∀ idx code w,
    ∃ r evs,
      serve_loop idx plugins cfg filePath content code w
      = (r, setTrace w (trace w ++ evs))
      ∧ r ≠ Diverge ∧ Forall (hookEvent KTransform) evs.
Proof.
  intros idx code w.
  destruct (chainReturns plugins cfg filePath content code) eqn:Hret.
  - rewrite serve_loop_chain //. do 2 eexists.
    split_and!; [done..|apply chainCalls_transform].
  - destruct (serve_loop_throws plugins cfg filePath content idx code w Hret)
      as [e ->].
    do 2 eexists. split_and!; [done..|apply chainCalls_transform].
Qed.

End answers.

(** The server answers every request it can decode.  Once the URL of the
    request has been parsed and its pathname decoded, whatever the plugins
    do and whatever is on the disk, [handleRequest] returns a response
    whose status is 200, 404 or 500; the disk, the working directory and
    the clock are as before, and the only events are calls of [transform]
    and console lines.  When parsing or decoding throws (an invalid URL, a
    malformed escape such as [%E0%A4%A]), [handleRequest] throws that
    error: nothing is answered and nothing is logged. *)
Theorem handleRequest_answers_what_it_decodes :
  (∀ srv pathname w,
     ∃ resp evs,
       Server.handleRequest srv (inr pathname) w
       = (Ret resp, setTrace w (trace w ++ evs))
       ∧ Server.status resp ∈ [200; 404; 500]
       ∧ Forall (hookEvent KTransform) evs)
  ∧ (∀ srv error w,
       Server.handleRequest srv (inl error) w = (Throw error, w)).
Proof.
  split; last done.
  intros srv pathname w. rewrite /Server.handleRequest.
  assert (∀ r : Server.Response, (Ret r, w) = (Ret r, setTrace w (trace w ++ [])))
    as Hsame by (intros r; by rewrite setTrace_nil).
  case_bool_decide as Hclient.
  { do 2 eexists. split_and!; [apply Hsame| |done]. set_solver. }
  rewrite (bind_eq getCwd _ w (cwd w) w) //.
  fold (ServerSpec.requestedFile (cwd w) pathname).
  set (file := ServerSpec.requestedFile (cwd w) pathname).
  assert (∀ f,
    ∃ resp evs,
      tryCatch
        (let* content := readFile f in
         let ext := Js.toLowerCase (Path.extname f) in
         let contentType :=
           match JsMap.get Server.MIME_TYPES ext with
           | Some t => t
           | None => "application/octet-stream"
           end in
         let finalContent :=
           if bool_decide (contentType = "text/html") then
             Js.replaceFirst content "</head>"
               ("<script type=" +:+ Js.str Js.dquote +:+ "module"
                +:+ Js.str Js.dquote +:+ " src=" +:+ Js.str Js.dquote
                +:+ "/__aether_hmr_client" +:+ Js.str Js.dquote
                +:+ "></script></head>")
           else content in
         let* finalContent :=
           if bool_decide (ext ∈ Server.scriptExtensions) then
             Server.serve_loop 0 (Server.plugins srv) (Server.config srv) f
               content finalContent
           else ret finalContent in
         ret {| Server.status := 200; Server.contentType := contentType;
                Server.body := finalContent |})
        (λ error,
           console_error ("Error serving " +:+ f +:+ ":") error;;
           ret {| Server.status := 500; Server.contentType := "text/plain";
                  Server.body := "500 Internal Server Error" |}) w
      = (Ret resp, setTrace w (trace w ++ evs))
      ∧ Server.status resp ∈ [200; 404; 500]
      ∧ Forall (hookEvent KTransform) evs) as Hserve.
  { intros f. rewrite /tryCatch /bind /readFile /readFileSync.
    destruct (nodeAt w f) as [[content|]|].
    - cbv zeta. case_bool_decide as Hext.
      + match goal with
        | |- context [Server.serve_loop 0 ?ps ?c ?ff ?ct ?cd w] =>
            destruct (serve_loop_total ps c ff ct 0 cd w)
              as (r & evs & -> & Hr & Hevs)
        end.
        destruct r as [code|e|]; [| |done].
        * do 2 eexists. split_and!; [done| |done]. set_solver.
        * exists {| Server.status := 500; Server.contentType := "text/plain";
                    Server.body := "500 Internal Server Error" |},
                 (evs ++ [EvConsole LError ("Error serving " +:+ f +:+ ":") (Some e)]).
          split_and!.
          -- by rewrite /console_error /emit /ret /= app_assoc.
          -- set_solver.
          -- apply Forall_app. split; first done. by constructor.
      + do 2 eexists. split_and!; [apply Hsame| |done]. set_solver.
    - do 2 eexists. split_and!; [by rewrite /console_error /emit /ret /=| |].
      + set_solver.
      + by constructor.
    - do 2 eexists. split_and!; [by rewrite /console_error /emit /ret /=| |].
      + set_solver.
      + by constructor. }
  rewrite /bind /fileExists /existsSync.
  destruct (bool_decide (is_Some (nodeAt w file))); cbn [negb].
  - apply Hserve.
  - destruct (bool_decide (getExtension pathname = "")
              && bool_decide (is_Some (nodeAt w (Path.join [cwd w; "index.html"])))).
    + apply Hserve.
    + do 2 eexists. split_and!; [apply Hsame| |done]. set_solver.
Qed.

(** [updateModuleGraph] only adds edges.  After the call the importer has
    every dependency it had before and every one of [imported]; the other
    importers are as before; recording the same list twice changes
    nothing, and two calls for one importer amount to one call with both
    lists. *)
Theorem updateModuleGraph_adds_edges :
  ∀ srv importer imported,
    let srv' := Server.updateModuleGraph srv importer imported in
    Server.moduleGraph srv' !! importer
    = Some (list_to_set imported
            ∪ default ∅ (Server.moduleGraph srv !! importer))
    ∧ (∀ other, other ≠ importer →
         Server.moduleGraph srv' !! other = Server.moduleGraph srv !! other)
    ∧ Server.updateModuleGraph srv' importer imported = srv'
    ∧ (∀ more,
         Server.updateModuleGraph srv' importer more
         = Server.updateModuleGraph srv importer (more ++ imported))
    ∧ Server.config srv' = Server.config srv
    ∧ Server.plugins srv' = Server.plugins srv
    ∧ Server.clients srv' = Server.clients srv.
Proof.
  intros srv importer imported srv'.
  assert (∀ s more,
    Server.moduleGraph (Server.updateModuleGraph s importer more)
    = <[importer := list_to_set more ∪ default ∅ (Server.moduleGraph s !! importer)]>
        (Server.moduleGraph s)) as Hgraph.
  { intros s more. rewrite /Server.updateModuleGraph /=.
    case_bool_decide as Hin; first done.
    rewrite lookup_insert_eq insert_insert_eq.
    apply eq_None_not_Some in Hin. by rewrite Hin. }
  assert (∀ s t, Server.config s = Server.config t →
                 Server.plugins s = Server.plugins t →
                 Server.clients s = Server.clients t →
                 Server.hmrClientCode s = Server.hmrClientCode t →
                 Server.moduleGraph s = Server.moduleGraph t → s = t) as Hext.
  { intros [? ? ? ? ?] [? ? ? ? ?] ?????. simplify_eq/=. done. }
  subst srv'. split_and!.
  - by rewrite Hgraph lookup_insert_eq.
  - intros other Hne. by rewrite Hgraph lookup_insert_ne.
  - apply Hext; [done..|].
    rewrite !Hgraph lookup_insert_eq insert_insert_eq /=.
    f_equal. set_solver.
  - intros more. apply Hext; [done..|].
    rewrite !Hgraph lookup_insert_eq insert_insert_eq /=.
    f_equal. rewrite list_to_set_app_L. set_solver.
  - done.
  - done.
  - done.
Qed.

(* ===================================================================== *)
(** * The plugin pipeline: loading and composition *)
(* ===================================================================== *)

Section loading.
Import Plugins.

Lemma loadPlugins_step entry p rest w :
  made entry = Some p →
  loadPlugins (entry :: rest) w
  = (let* resolvedPlugins := loadPlugins rest in ret (p :: resolvedPlugins))
      (setTrace w (trace w ++ namelessWarnings [p])).
Proof.
  intros Hmade. cbn [loadPlugins].
  assert (tryCatch
            (let* resolvedPlugin :=
               match entry with
               | PluginValue p => ret p
               | PluginFactory (inl p) => ret p
               | PluginFactory (inr e) => throw e
               end in
             (if negb (Js.truthy (name resolvedPlugin))
              then console_warn "Plugin without name detected. Make sure all plugins have a name property."
              else ret tt);;
             ret resolvedPlugin)
            (λ error, console_error "Failed to load plugin:" error;; throw error) w
          = (Ret p, setTrace w (trace w ++ namelessWarnings [p]))) as Hhead.
  { rewrite /tryCatch /bind /namelessWarnings /=.
    destruct entry as [q|[q|e]]; simplify_eq/=;
      destruct (Js.truthy (name p)); by rewrite /= ?setTrace_nil. }
  by rewrite {1}/bind Hhead.
Qed.

Lemma namelessWarnings_cons p ps :
  namelessWarnings (p :: ps) = namelessWarnings [p] ++ namelessWarnings ps.
Proof. by rewrite /namelessWarnings /= app_nil_r. Qed.

Lemma loadPlugins_made entries ps :
  Forall2 (λ entry p, made entry = Some p) entries ps →
  ∀ w, loadPlugins entries w
       = (Ret ps, setTrace w (trace w ++ namelessWarnings ps)).
Proof.
  induction 1 as [|entry p rest ps' Hp _ IH]; intros w.
  - by rewrite /= /ret setTrace_nil.
  - rewrite (loadPlugins_step _ p) // /bind IH.
    by rewrite /ret setTrace_app (namelessWarnings_cons p ps').
Qed.

Lemma loadPlugins_throwing before e after ps :
  Forall2 (λ entry p, made entry = Some p) before ps →
  ∀ w, loadPlugins (before ++ PluginFactory (inr e) :: after) w
       = (Throw e,
          setTrace w (trace w ++ namelessWarnings ps
                      ++ [EvConsole LError "Failed to load plugin:" (Some e)])).
Proof.
  induction 1 as [|entry p rest ps' Hp _ IH]; intros w.
  - by rewrite /= /bind /tryCatch /=.
  - cbn [app]. rewrite (loadPlugins_step _ p) // /bind IH.
    by rewrite setTrace_app (namelessWarnings_cons p ps') -!app_assoc.
Qed.

End loading.

(** [loadPlugins] keeps the order.  When every element of the list is a
    plugin or a function that makes one, the result is the list of those
    plugins, in order and of the same length, and the only trace is one
    warning for each plugin without a name.  When a function throws, the
    failure is logged and thrown again, and the elements after it are not
    looked at. *)
Theorem loadPlugins_keeps_order :
  (∀ entries ps w,
     mapM Plugins.made entries = Some ps →
     Plugins.loadPlugins entries w
     = (Ret ps, setTrace w (trace w ++ Plugins.namelessWarnings ps))
     ∧ length ps = length entries)
  ∧ (∀ before e after ps w,
       mapM Plugins.made before = Some ps →
       Plugins.loadPlugins (before ++ Plugins.PluginFactory (inr e) :: after) w
       = (Throw e,
          setTrace w (trace w ++ Plugins.namelessWarnings ps
                      ++ [EvConsole LError "Failed to load plugin:" (Some e)]))).
Proof.
  split.
  - intros entries ps w Hmade%mapM_Some. split; first by apply loadPlugins_made.
    symmetry. by eapply Forall2_length.
  - intros before e after ps w Hmade%mapM_Some. by apply loadPlugins_throwing.
Qed.

Lemma loadPlugins_keeps_order_witness :
  Plugins.loadPlugins
    [Plugins.PluginValue Samples.passThrough;
     Plugins.PluginFactory (inl (barePlugin ""));
     Plugins.PluginFactory (inl Samples.failing)] Samples.twoFileDisk
  = (Ret [Samples.passThrough; barePlugin ""; Samples.failing],
     setTrace Samples.twoFileDisk
       (trace Samples.twoFileDisk
        ++ Plugins.namelessWarnings
             [Samples.passThrough; barePlugin ""; Samples.failing])).
Proof.
  destruct loadPlugins_keeps_order as [Hok _].
  apply Hok. vm_compute. reflexivity.
Defined.

Section composition.
Import Plugins.

Lemma hookValues_app ps qs h ctx :
  hookValues (ps ++ qs) h ctx = hookValues ps h ctx ++ hookValues qs h ctx.
Proof.
  induction ps as [|p ps IH]; first done.
  cbn [app hookValues]. destruct (hookOf p h) as [hook|]; last done.
  destruct (hook ctx); by rewrite IH.
Qed.

Lemma hookCalls_app ps qs h ctx :
  ∀ idx, hookCalls idx (ps ++ qs) h ctx
         = hookCalls idx ps h ctx ++ hookCalls (idx + length ps) qs h ctx.
Proof.
  induction ps as [|p ps IH]; intros idx.
  - by rewrite /= Nat.add_0_r.
  - cbn [app hookCalls length]. rewrite IH Nat.add_succ_r /=.
    by destruct (hookOf p h).
Qed.

Lemma allReturn_app ps qs h ctx :
  allReturn (ps ++ qs) h ctx = allReturn ps h ctx && allReturn qs h ctx.
Proof. by rewrite /allReturn forallb_app. Qed.

Lemma lastWins_app xs ys :
  lastWins (xs ++ ys)
  = if notNullish (lastWins ys) then lastWins ys else lastWins xs.
Proof.
  rewrite /lastWins filter_app last_app.
  destruct (last (filter _ ys)) as [v|] eqn:Hlast; last done.
  apply last_Some_elem_of, list_elem_of_filter in Hlast as [Hv _].
  by rewrite /= Hv.
Qed.

Lemma applyPluginHook_loop_defined plugins h ctx :
  ∀ idx r w,
    r ≠ VUndefined →
    fst (applyPluginHook_loop idx plugins h ctx r w) ≠ Ret VUndefined.
Proof.
  induction plugins as [|p ps IH]; intros idx r w Hr.
  - cbn. congruence.
  - cbn [applyPluginHook_loop]. destruct (hookOf p h) as [hook|]; last by apply IH.
    destruct (hook ctx) as [v|e] eqn:Hv.
    + rewrite /bind (guarded_call_returns _ _ _ _ _ v) //.
      apply IH. destruct (notNullish v) eqn:Hn; last done.
      by destruct v.
    + by rewrite /bind (guarded_call_throws _ _ _ _ _ e).
Qed.

End composition.

(** The pipeline composes.  Running a hook over [ps ++ qs], when every
    hook returns, gives the result of [qs] when that is not [null], and
    the result of [ps] otherwise; the calls are those of [ps] followed by
    those of [qs].  And whatever the hooks do, the result of
    [applyPluginHook] is never [undefined]: it is [null] or a value a hook
    returned. *)
Theorem applyPluginHook_composes :
  (∀ ps qs h ctx w,
     Plugins.allReturn ps h ctx = true → Plugins.allReturn qs h ctx = true →
     Plugins.applyPluginHook (ps ++ qs) h ctx w
     = (Ret (if notNullish (Plugins.lastWins (Plugins.hookValues qs h ctx))
             then Plugins.lastWins (Plugins.hookValues qs h ctx)
             else Plugins.lastWins (Plugins.hookValues ps h ctx)),
        setTrace w (trace w ++ Plugins.hookCalls 0 ps h ctx
                    ++ Plugins.hookCalls (length ps) qs h ctx)))
  ∧ (∀ plugins h ctx w,
       fst (Plugins.applyPluginHook plugins h ctx w) ≠ Ret VUndefined).
Proof.
  split.
  - intros ps qs h ctx w Hps Hqs.
    rewrite /Plugins.applyPluginHook applyPluginHook_loop_returns;
      [by rewrite allReturn_app Hps Hqs|].
    rewrite hookCalls_app hookValues_app.
    by rewrite -/(Plugins.lastWins _) lastWins_app.
  - intros plugins h ctx w. by apply applyPluginHook_loop_defined.
Qed.

Lemma applyPluginHook_composes_witness :
  fst (Plugins.applyPluginHook
         ([Samples.constant "one" "1"] ++ [Samples.passThrough]) KTransform ArgNone
         Samples.twoFileDisk)
  = Ret (VString "1").
Proof.
  destruct applyPluginHook_composes as [Hcat _].
  rewrite Hcat.
  - vm_compute. reflexivity.
  - vm_compute. reflexivity.
  - vm_compute. reflexivity.
Defined.

(* ===================================================================== *)
(** * Import extraction and resolution *)
(* ===================================================================== *)

Section regex.
Import Regex.

Lemma chars_unchars l : Js.chars (Js.unchars l) = l.
Proof. induction l as [|c l IH]; [done|]. by rewrite /= IH. Qed.

Lemma star_inv p k cap s h :
  star p k cap s = Some h →
  ∃ m s', s = m ++ s' ∧ Forall (λ c, p c = true) m ∧ k s' cap = Some h.
Proof.
  induction s as [|c s IH]; cbn [star].
  - intros Hk. by exists [], [].
  - destruct (p c) eqn:Hp.
    + destruct (star p k cap s) as [h'|] eqn:Hs.
      * intros [= ->]. destruct (IH eq_refl) as (m & s' & -> & Hm & Hk).
        exists (c :: m), s'. split_and!; [done| |done]. by constructor.
      * intros Hk. by exists [], (c :: s).
    + intros Hk. by exists [], (c :: s).
Qed.

Lemma run_caps (P : ascii → bool) r :
  capturesWithin P r →
  ∀ s cap k h,
    captureWithin P cap → run r s cap k = Some h →
    ∃ s' cap', captureWithin P cap' ∧ k s' cap' = Some h.
Proof.
  induction r as [p|l|a IHa b IHb|a IHa b IHb|a IHa|p|p|a IHa|];
    intros Hr s cap k h Hcap; cbn [run].
  - destruct s as [|c s]; [done|]. destruct (p c); [|done]. by eauto.
  - destruct (stripPrefix _ _); [|done]. by eauto.
  - destruct Hr as [Ha Hb]. intros Hrun.
    destruct (IHa Ha _ _ _ _ Hcap Hrun) as (s1 & cap1 & Hcap1 & Hrun1).
    by apply (IHb Hb _ _ _ _ Hcap1 Hrun1).
  - destruct Hr as [Ha Hb].
    destruct (run a s cap k) as [h'|] eqn:Hrun.
    + intros [= ->]. by apply (IHa Ha _ _ _ _ Hcap Hrun).
    + by apply IHb.
  - destruct (run a s cap k) as [h'|] eqn:Hrun.
    + intros [= ->]. by apply (IHa Hr _ _ _ _ Hcap Hrun).
    + by eauto.
  - intros (m & s' & _ & _ & Hk)%star_inv. by eauto.
  - destruct s as [|c s]; [done|]. destruct (p c); [|done].
    intros (m & s' & _ & _ & Hk)%star_inv. by eauto.
  - destruct a as [| | | | | |p| |]; try done. cbn [run].
    destruct s as [|c s]; [done|]. destruct (p c) eqn:Hc; [|done].
    intros (m & s' & -> & Hm & Hk)%star_inv.
    do 2 eexists. split; [|exact Hk].
    intros x [= <-] c'. rewrite chars_unchars.
    change (c :: m ++ s') with ((c :: m) ++ s').
    replace (S (length (m ++ s')) - length s') with (length (c :: m))
      by (rewrite /= length_app; lia).
    rewrite (take_app_length (c :: m) s').
    intros [->|Hin]%elem_of_cons; first by apply Hr.
    apply Hr. by eapply (proj1 (Forall_forall _ _) Hm).
  - destruct s; [|done]. by eauto.
Qed.

Lemma captureWithin_None (P : ascii → bool) : captureWithin P None.
Proof. by intros m. Qed.

Lemma exec_caps (P : ascii → bool) r s cap rest :
  capturesWithin P r → exec r s = Some (cap, rest) → captureWithin P cap.
Proof.
  intros Hr. induction s as [|c s IH]; cbn [exec].
  - destruct (run r [] None _) as [h|] eqn:Hrun; [|done]. intros [= ->].
    destruct (run_caps P r Hr _ _ _ _ (captureWithin_None P) Hrun)
      as (s' & cap' & Hcap' & [= <- <-]).
    done.
  - destruct (run r (c :: s) None _) as [h|] eqn:Hrun; [|done]. intros [= ->].
    destruct (run_caps P r Hr _ _ _ _ (captureWithin_None P) Hrun)
      as (s' & cap' & Hcap' & [= <- <-]).
    done.
Qed.

Lemma captures_caps (P : ascii → bool) r :
  capturesWithin P r →
  ∀ fuel s x c, x ∈ captures fuel r s → c ∈ Js.chars x → P c = true.
Proof.
  intros Hr fuel. induction fuel as [|fuel IH]; intros s x c; cbn [captures].
  - by intros ?%elem_of_nil.
  - destruct (exec r s) as [[cap rest]|] eqn:Hexec; [|by intros ?%elem_of_nil].
    intros [->|Hin]%elem_of_cons; [|by eapply IH].
    pose proof (exec_caps P r s cap rest Hr Hexec) as Hcap.
    destruct cap as [m|]; [by apply Hcap|by intros ?%elem_of_nil].
Qed.

End regex.

Section extraction.
Import Extract.

Lemma setAdd_spec acc x y : y ∈ setAdd acc x ↔ y ∈ acc ∨ y = x.
Proof.
  rewrite /setAdd. case_bool_decide as Hin.
  - split; [by left|]. by intros [?| ->].
  - rewrite elem_of_app list_elem_of_singleton. done.
Qed.

Lemma setAdd_NoDup acc x : NoDup acc → NoDup (setAdd acc x).
Proof.
  intros Hnd. rewrite /setAdd. case_bool_decide as Hin; first done.
  apply NoDup_app. split_and!; [done| |apply NoDup_singleton].
  intros y Hy ->%list_elem_of_singleton. done.
Qed.

Lemma foldl_setAdd_spec xs : ∀ acc y,
  y ∈ foldl setAdd acc xs ↔ y ∈ acc ∨ y ∈ xs.
Proof.
  induction xs as [|x xs IH]; intros acc y; cbn [foldl].
  - rewrite elem_of_nil. tauto.
  - rewrite IH setAdd_spec elem_of_cons. tauto.
Qed.

Lemma foldl_setAdd_NoDup xs : ∀ acc, NoDup acc → NoDup (foldl setAdd acc xs).
Proof.
  induction xs as [|x xs IH]; intros acc Hnd; cbn [foldl]; first done.
  by apply IH, setAdd_NoDup.
Qed.

Lemma extractImports_sources code x :
  x ∈ extractImports code →
  x ∈ Regex.allCaptures IMPORT_RE code ∨ x ∈ Regex.allCaptures DYNAMIC_IMPORT_RE code
  ∨ x ∈ Regex.allCaptures EXPORT_FROM_RE code ∨ x ∈ Regex.allCaptures REQUIRE_RE code.
Proof.
  rewrite /extractImports !foldl_setAdd_spec elem_of_nil. tauto.
Qed.

Lemma prefix_chars p x c :
  String.prefix p x = true → c ∈ Js.chars p → c ∈ Js.chars x.
Proof.
  revert x. induction p as [|a p IH]; intros x.
  - by intros _ ?%elem_of_nil.
  - destruct x as [|b x]; first done. cbn [String.prefix Js.chars].
    destruct (ascii_dec a b) as [->|]; last done.
    intros Hp [->|Hin]%elem_of_cons; [by left|right; by apply IH].
Qed.

End extraction.

(** What [extractImports] yields.  The result has no duplicates, and every
    specifier in it is made of word characters, white space and the
    characters [@ . / - $] only: no quote, no colon.  So of the URL forms
    that [resolveModuleSpecifier] looks for, an extracted specifier can only
    have the form that starts with [//]. *)
Theorem extractImports_specifiers :
  ∀ code,
    NoDup (Extract.extractImports code)
    ∧ (∀ x c, x ∈ Extract.extractImports code → c ∈ Js.chars x →
              Extract.specChar c = true)
    ∧ (∀ x, x ∈ Extract.extractImports code → Dependency.isUrl x = true →
            Js.startsWith x "//" = true).
Proof.
  intros code.
  assert (∀ x c, x ∈ Extract.extractImports code → c ∈ Js.chars x →
                 Extract.specChar c = true) as Hchars.
  { intros x c Hx Hc. rewrite /Regex.allCaptures in Hx.
    apply extractImports_sources in Hx.
    rewrite /Regex.allCaptures in Hx.
    destruct Hx as [Hx|[Hx|[Hx|Hx]]];
      (eapply (captures_caps Extract.specChar); [|exact Hx|exact Hc]);
      cbn; by repeat split. }
  split_and!.
  - rewrite /Extract.extractImports. do 4 apply foldl_setAdd_NoDup. constructor.
  - done.
  - intros x Hx. rewrite /Dependency.isUrl /Js.startsWith.
    intros [[Hhttp|Hhttps]%orb_prop|Hslashes]%orb_prop; [| |done].
    + assert (Extract.specChar ":"%char = true) as Hcolon; last done.
      apply (Hchars x); first done. apply (prefix_chars "http:"); first done.
      rewrite /=. set_solver.
    + assert (Extract.specChar ":"%char = true) as Hcolon; last done.
      apply (Hchars x); first done. apply (prefix_chars "https:"); first done.
      rewrite /=. set_solver.
Qed.

Lemma extractImports_specifiers_witness :
  Extract.specChar "/"%char = true.
Proof.
  destruct (extractImports_specifiers "import { b } from './b';") as (_ & Hchars & _).
  apply (Hchars "./b").
  - vm_compute. set_solver.
  - vm_compute. set_solver.
Defined.

Section edges.
Import Plugins Dependency.

Lemma indexOf_char s c : c ∈ Js.chars s → is_Some (Js.indexOf s (String c "")).
Proof.
  induction s as [|b s IH]; cbn [Js.chars Js.indexOf String.prefix].
  - by intros ?%elem_of_nil.
  - intros Hin. destruct (ascii_dec c b) as [->|Hne].
    + destruct s; by eexists.
    + apply elem_of_cons in Hin as [->|Hin]; first done.
      destruct (IH Hin) as [i ->]. by eexists.
Qed.

Lemma isUrl_not_bare specifier : isUrl specifier = true → isBare specifier = false.
Proof.
  rewrite /isUrl /isBare /Js.startsWith /Js.includes.
  intros [[Hp|Hp]%orb_prop|Hp]%orb_prop.
  - apply andb_false_intro2, negb_false_iff, bool_decide_eq_true.
    apply indexOf_char, (prefix_chars "http:"); first done.
    rewrite /=. set_solver.
  - apply andb_false_intro2, negb_false_iff, bool_decide_eq_true.
    apply indexOf_char, (prefix_chars "https:"); first done.
    rewrite /=. set_solver.
  - apply andb_false_intro1, andb_false_intro2, negb_false_iff.
    destruct specifier as [|c1 s]; first done.
    cbn [String.prefix] in *. by destruct (ascii_dec "/" c1), s.
Qed.

Lemma resolveId_loop_keeps plugins rc :
  ∀ idx w r w',
    resolveId_loop idx plugins rc w = (r, w') →
    fs w' = fs w ∧ cwd w' = cwd w.
Proof.
  induction plugins as [|p ps IH]; intros idx w r w'; cbn [resolveId_loop].
  - by intros [= _ <-].
  - destruct (resolveId p) as [hook|]; last by apply IH.
    rewrite /bind /callHook /bind /=. destruct (hook _) as [v|e].
    + cbn. destruct (truthy v).
      * by intros [= _ <-].
      * intros Hrec. by destruct (IH _ _ _ _ Hrec) as [-> ->].
    + by intros [= _ <-].
Qed.

Lemma resolveModuleSpecifier_shape specifier importer cfg plugins w d w' :
  resolveModuleSpecifier specifier importer cfg plugins w = (Ret d, w') →
  dep_id d = idOf cfg specifier
  ∧ dep_isExternal d = negb (continues cfg specifier)
  ∧ (dep_isExternal d = true → dep_resolved d = None ∧ w' = w)
  ∧ fs w' = fs w ∧ cwd w' = cwd w.
Proof.
  destruct (continues cfg specifier) eqn:Hcont.
  - rewrite resolveModuleSpecifier_continues //.
    intros (fromPlugins & w1 & Hloop & Hrest)%bind_ret_inv.
    apply resolveId_loop_keeps in Hloop as [Hfs Hcwd].
    destruct fromPlugins as [resolved|].
    + injection Hrest as <- <-. by split_and!.
    + apply bind_ret_inv in Hrest as (basedir & w2 & Hbase & Hrest).
      assert (w2 = w1) as ->.
      { destruct (Js.truthy importer); [by injection Hbase|by injection Hbase]. }
      rewrite /bind resolveWithExtensions_firstHit in Hrest.
      injection Hrest as <- <-. by split_and!.
  - rewrite /continues in Hcont. rewrite /resolveModuleSpecifier /idOf.
    destruct (isUrl specifier) eqn:Hurl.
    + intros [= <- <-]. cbn.
      by rewrite (isUrl_not_bare _ Hurl).
    + cbn in Hcont. destruct (isBare specifier); last done.
      cbn in Hcont. apply bool_decide_eq_false in Hcont.
      destruct (aliasOf cfg specifier) as [target|] eqn:Halias.
      { exfalso. apply Hcont. by eexists. }
      intros [= <- <-]. by split_and!.
Qed.

End edges.

Section edge_lists.
Import Plugins Dependency.

Lemma resolveAll_shape imports f cfg pl :
  ∀ w deps w',
    resolveAll imports f cfg pl w = (Ret deps, w') →
    dep_id <$> deps = idOf cfg <$> imports
    ∧ dep_isExternal <$> deps = (λ s, negb (continues cfg s)) <$> imports
    ∧ Forall (λ d, dep_isExternal d = true → dep_resolved d = None) deps
    ∧ fs w' = fs w ∧ cwd w' = cwd w.
Proof.
  induction imports as [|s imports IH]; intros w deps w'; cbn [resolveAll].
  - intros [= <- <-]. by split_and!.
  - intros (d & w1 & Hd & Hrest)%bind_ret_inv.
    apply bind_ret_inv in Hrest as (ds & w2 & Hds & [= <- <-]).
    destruct (resolveModuleSpecifier_shape _ _ _ _ _ _ _ Hd)
      as (Hid & Hext & Hnone & Hfs & Hcwd).
    destruct (IH _ _ _ Hds) as (Hids & Hexts & Hnones & Hfs' & Hcwd').
    split_and!.
    + by rewrite !fmap_cons Hid Hids.
    + by rewrite !fmap_cons Hext Hexts.
    + constructor; [|done]. intros Hx. by destruct (Hnone Hx).
    + by rewrite Hfs'.
    + by rewrite Hcwd'.
Qed.

Lemma resolveId_loop_none plugins rc :
  Forall (λ p, resolveId p = None) plugins →
  ∀ idx w, resolveId_loop idx plugins rc w = (Ret None, w).
Proof.
  induction 1 as [|p ps Hp _ IH]; intros idx w; first done.
  cbn [resolveId_loop]. by rewrite Hp.
Qed.

Lemma resolveModuleSpecifier_returns specifier importer cfg plugins w :
  Forall (λ p, resolveId p = None) plugins →
  ∃ d, resolveModuleSpecifier specifier importer cfg plugins w = (Ret d, w).
Proof.
  intros Hnone. destruct (continues cfg specifier) eqn:Hcont.
  - rewrite resolveModuleSpecifier_continues // /bind resolveId_loop_none //.
    destruct (Js.truthy importer); rewrite /ret /getCwd;
      rewrite resolveWithExtensions_firstHit; by eexists.
  - rewrite /continues in Hcont. rewrite /resolveModuleSpecifier.
    destruct (isUrl specifier); first by eexists.
    cbn in Hcont. destruct (isBare specifier); last done.
    cbn in Hcont. apply bool_decide_eq_false in Hcont.
    destruct (aliasOf cfg specifier) as [target|] eqn:Halias.
    { exfalso. apply Hcont. by eexists. }
    by eexists.
Qed.

Lemma resolveAll_returns imports f cfg plugins w :
  Forall (λ p, resolveId p = None) plugins →
  ∃ deps, resolveAll imports f cfg plugins w = (Ret deps, w).
Proof.
  intros Hnone. induction imports as [|s imports [deps IH]]; first by eexists.
  cbn [resolveAll].
  destruct (resolveModuleSpecifier_returns s f cfg plugins w Hnone) as [d Hd].
  rewrite /bind Hd IH. by eexists.
Qed.

End edge_lists.

(** One edge per extracted specifier.  When [processDependencies] returns,
    its list has one entry for each specifier of [extractImports], in the
    same order; the [id] of an entry is the specifier (or its alias, for a
    bare specifier with one); an entry is external exactly when the
    specifier is a URL or a bare specifier without alias, and an external
    entry is never resolved; the disk is as before.  And it does return,
    with no trace, when no plugin defines [resolveId]. *)
Theorem processDependencies_edges :
  (∀ f content cfg plugins w deps w',
     Dependency.processDependencies f content cfg plugins w = (Ret deps, w') →
     dep_id <$> deps
     = Dependency.idOf cfg <$> Extract.extractImports content
     ∧ dep_isExternal <$> deps
       = (λ s, negb (Dependency.continues cfg s)) <$> Extract.extractImports content
     ∧ Forall (λ d, dep_isExternal d = true → dep_resolved d = None) deps
     ∧ fs w' = fs w ∧ cwd w' = cwd w)
  ∧ (∀ f content cfg plugins w,
       Forall (λ p, resolveId p = None) plugins →
       ∃ deps, Dependency.processDependencies f content cfg plugins w
               = (Ret deps, w)).
Proof.
  split.
  - intros f content cfg plugins w deps w'. apply resolveAll_shape.
  - intros f content cfg plugins w. apply resolveAll_returns.
Qed.

Lemma processDependencies_edges_witness :
  ∃ deps,
    Dependency.processDependencies "/proj/a.ts"
      "import { b } from './b';
import fs from 'fs';" (Samples.configOf "./a.ts") [Samples.passThrough]
      Samples.cyclicDisk
    = (Ret deps, Samples.cyclicDisk)
    ∧ dep_id <$> deps = [IdString "./b"; IdString "fs"]
    ∧ dep_isExternal <$> deps = [false; true].
Proof.
  destruct processDependencies_edges as [Hshape Hret].
  destruct (Hret "/proj/a.ts" "import { b } from './b';
import fs from 'fs';" (Samples.configOf "./a.ts") [Samples.passThrough]
              Samples.cyclicDisk) as [deps Hdeps].
  - repeat constructor.
  - exists deps. split; first exact Hdeps.
    destruct (Hshape _ _ _ _ _ _ _ Hdeps) as (Hid & Hext & _).
    split; [rewrite Hid|rewrite Hext]; vm_compute; reflexivity.
Defined.

Section probing.
Import Plugins Dependency.

Lemma firstHit_Some w cs p :
  firstHit w cs = Some p → p ∈ cs ∧ is_Some (nodeAt w p).
Proof.
  induction cs as [|c cs IH]; cbn [firstHit]; first done.
  case_bool_decide as Hc.
  - intros [= <-]. split; [by left|done].
  - intros [Hin Hp]%IH. split; [by right|done].
Qed.

Lemma firstHit_None w cs :
  firstHit w cs = None ↔ ∀ c, c ∈ cs → nodeAt w c = None.
Proof.
  induction cs as [|c cs IH]; cbn [firstHit].
  - split; [by intros _ c ?%elem_of_nil|done].
  - destruct (decide (is_Some (nodeAt w c))) as [Hc|Hc].
    + rewrite bool_decide_true //. split; first done. intros Hall. exfalso.
      assert (nodeAt w c = None) as Hn by (apply Hall; by left).
      rewrite Hn in Hc. by destruct Hc.
    + rewrite bool_decide_false // IH. split.
      * intros Hall c' [->|Hin]%elem_of_cons; [|by apply Hall].
        by apply eq_None_not_Some.
      * intros Hall c' Hin. apply Hall. by right.
Qed.

Lemma resolveModuleSpecifier_probe specifier importer cfg plugins w :
  continues cfg specifier = true →
  allDecline plugins {| rc_config := cfg; rc_importer := importer;
                        rc_source := specifier |} = true →
  ∃ w',
    resolveModuleSpecifier specifier importer cfg plugins w
    = (Ret {| dep_id := idOf cfg specifier;
              dep_resolved :=
                firstHit w (candidates specifier (basedirOf w importer) cfg);
              dep_isExternal := false |}, w').
Proof.
  intros Hcont Hall.
  rewrite resolveModuleSpecifier_continues // /bind.
  rewrite resolveId_loop_declined // /basedirOf.
  destruct (Js.truthy importer); rewrite /ret /getCwd; cbv beta iota;
    rewrite resolveWithExtensions_firstHit firstHit_setTrace; by eexists.
Qed.

End probing.

(** The file-system probe only finds what exists.  When no plugin answers,
    a resolved path is one of the candidates and exists on the disk; the
    result is unresolved exactly when no candidate exists; and a literal
    path that exists is taken as it is, be it a file or a directory. *)
Theorem probe_finds_existing_paths :
  ∀ specifier importer cfg plugins w,
    Dependency.continues cfg specifier = true →
    Dependency.allDecline plugins
      {| rc_config := cfg; rc_importer := importer; rc_source := specifier |}
    = true →
    ∃ d w',
      Dependency.resolveModuleSpecifier specifier importer cfg plugins w
      = (Ret d, w')
      ∧ (∀ p, dep_resolved d = Some p →
           p ∈ Dependency.candidates specifier (Dependency.basedirOf w importer) cfg
           ∧ is_Some (nodeAt w p))
      ∧ (dep_resolved d = None ↔
         ∀ c, c ∈ Dependency.candidates specifier
                    (Dependency.basedirOf w importer) cfg →
              nodeAt w c = None)
      ∧ (is_Some (nodeAt w
                    (Dependency.probeBase specifier (Dependency.basedirOf w importer))) →
         dep_resolved d
         = Some (Dependency.probeBase specifier (Dependency.basedirOf w importer))).
Proof.
  intros specifier importer cfg plugins w Hcont Hall.
  destruct (resolveModuleSpecifier_probe specifier importer cfg plugins w Hcont Hall)
    as [w' ->].
  do 2 eexists. split; first done. cbn [dep_resolved]. split_and!.
  - intros p. apply firstHit_Some.
  - apply firstHit_None.
  - intros Hbase. rewrite /Dependency.candidates. cbn [app Dependency.firstHit].
    by rewrite bool_decide_true.
Qed.

Lemma probe_finds_existing_paths_witness :
  ∃ d w',
    Dependency.resolveModuleSpecifier "./src" "/proj/index.html"
      (Samples.configOf "./index.ts") [] Samples.siteDisk
    = (Ret d, w')
    ∧ dep_resolved d = Some "/proj/src".
Proof.
  destruct (probe_finds_existing_paths "./src" "/proj/index.html"
              (Samples.configOf "./index.ts") [] Samples.siteDisk)
    as (d & w' & Hd & _ & _ & Hdir).
  - vm_compute. reflexivity.
  - vm_compute. reflexivity.
  - exists d, w'. split; first exact Hd.
    rewrite Hdir; first by (vm_compute; eexists).
    vm_compute. reflexivity.
Defined.

(* ===================================================================== *)
(** * The file helpers *)
(* ===================================================================== *)

Section files.

Lemma mkdirp_keeps segs :
  ∀ f acc f', mkdirp f acc segs = inr f' →
    (∀ q c, f !! q = Some (File c) → f' !! q = Some (File c))
    ∧ (∀ q, f !! q = Some Dir → f' !! q = Some Dir).
Proof.
  induction segs as [|seg segs IH]; intros f acc f'; cbn [mkdirp].
  - by intros [= <-].
  - repeat case_match; try done; try by apply IH.
    intros [Hfiles Hdirs]%IH.
    assert (f !! keyOf (seg :: acc) = None) as Hfree by done.
    split.
    + intros q c Hq. apply Hfiles. rewrite lookup_insert_ne //. congruence.
    + intros q Hq. apply Hdirs. rewrite lookup_insert_ne //. congruence.
Qed.

Lemma mkdirSync_keeps p w w' :
  mkdirSync p w = (Ret tt, w') →
  cwd w' = cwd w
  ∧ (∀ q c, fs w !! q = Some (File c) → fs w' !! q = Some (File c))
  ∧ (∀ q, fs w !! q = Some Dir → fs w' !! q = Some Dir).
Proof.
  rewrite /mkdirSync. destruct (fromRoot _ _) as [segs|]; last done.
  destruct (mkdirp _ _ _) as [e|f'] eqn:Hmk; first done.
  intros [= <-]. by destruct (mkdirp_keeps _ _ _ _ Hmk).
Qed.

(** ** Following a path and resolving its text *)

Lemma split_go_slash a :
  ∀ cur b, Path.split_go cur (a +:+ String Path.slash b)
           = Path.split_go cur a ++ Path.split_go "" b.
Proof.
  induction a as [|c a IH]; intros cur b; first done.
  change (String c a +:+ String Path.slash b)
    with (String c (a +:+ String Path.slash b)).
  cbn [Path.split_go]. destruct (Ascii.eqb c Path.slash).
  - by rewrite IH.
  - apply IH.
Qed.

Lemma split_slash a b : Path.split (a +:+ "/" +:+ b) = Path.split a ++ Path.split b.
Proof. apply split_go_slash. Qed.

(** A walk that arrives took the segments [normalizeString] keeps. *)
Lemma walk_normalize f segs :
  ∀ acc acc',
    walk f acc segs = Reached acc' → ".." ∉ acc →
    (".." ∉ acc')
    ∧ ∀ rest, Path.normalizeSegs false acc (segs ++ rest)
              = Path.normalizeSegs false acc' rest.
Proof.
  induction segs as [|seg segs IH]; intros acc acc'; cbn [walk].
  - by intros [= <-].
  - destruct (nodeOf f acc) as [[c|]|]; [done| |done].
    intros Hwalk Hacc. cbn [app Path.normalizeSegs].
    case_bool_decide; first by apply IH.
    case_bool_decide as Hup.
    + destruct acc as [|top acc]; first by apply IH.
      assert (top ≠ "..") as Htop by set_solver.
      cbv iota. rewrite (bool_decide_false _ Htop).
      apply IH; [done|set_solver].
    + apply IH; [done|set_solver].
Qed.

Lemma resolve_fromRoot cwd p segs :
  fromRoot cwd p = Some segs →
  Path.resolve cwd [p]
  = "/" +:+ Js.join "/" (Path.normalizeSegs false [] (segs ++ [""])).
Proof.
  rewrite /fromRoot /Path.resolve. case_bool_decide as Hp; first done.
  cbn [reverse rev_append Path.resolve_go]. rewrite /reverse /=.
  rewrite (bool_decide_false _ Hp).
  destruct (Path.isAbsolute p) eqn:Habs.
  - intros [= <-]. by rewrite /Path.normalizeString (split_slash p "").
  - destruct (Path.isAbsolute cwd) eqn:Hcwd; last done. intros [= <-].
    assert (cwd ≠ "") as Hc by by destruct cwd.
    rewrite (bool_decide_false _ Hc) /Path.normalizeString.
    by rewrite (split_slash cwd) (split_slash p "") -app_assoc.
Qed.

(** A path whose walk arrives at [acc] is stored under its resolved text. *)
Lemma located_fsKey w p segs acc :
  fromRoot (cwd w) p = Some segs →
  walk (fs w) [] segs = Reached acc →
  keyOf acc = fsKey w p.
Proof.
  intros Hsegs Hwalk. rewrite /fsKey (resolve_fromRoot _ _ _ Hsegs).
  destruct (walk_normalize _ _ _ _ Hwalk) as [_ ->]; first set_solver.
  done.
Qed.

Lemma split_go_nonempty s : ∀ cur, Path.split_go cur s ≠ [].
Proof.
  induction s as [|c s IH]; intros cur; first done.
  cbn [Path.split_go]. by case_match.
Qed.

Lemma fromRoot_nonempty cwd p segs : fromRoot cwd p = Some segs → segs ≠ [].
Proof.
  rewrite /fromRoot /Path.split. repeat case_match; try done; intros [= <-].
  - apply split_go_nonempty.
  - intros [Hnil _]%app_eq_nil. by apply split_go_nonempty in Hnil.
Qed.

Lemma walk_app f xs :
  ∀ acc ys,
    walk f acc (xs ++ ys)
    = match walk f acc xs with
      | Reached a => walk f a ys
      | r => r
      end.
Proof.
  induction xs as [|x xs IH]; intros acc ys; first done.
  cbn [app walk]. destruct (nodeOf f acc) as [[c|]|]; [done| |done].
  repeat case_bool_decide; apply IH.
Qed.

(** A walk that arrives still arrives when directories are added. *)
Lemma walk_mono f f' segs :
  (∀ a, nodeOf f a = Some Dir → nodeOf f' a = Some Dir) →
  ∀ acc a, walk f acc segs = Reached a → walk f' acc segs = Reached a.
Proof.
  intros Hdirs. induction segs as [|seg segs IH]; intros acc a; first done.
  cbn [walk]. destruct (nodeOf f acc) as [[c|]|] eqn:Hacc; [done| |done].
  rewrite (Hdirs _ Hacc). repeat case_match; by apply IH.
Qed.

Lemma writeFileSync_written p content w w' :
  writeFileSync p content w = (Ret tt, w') →
  cwd w' = cwd w ∧ fs w' = <[fsKey w p := File content]> (fs w)
  ∧ fs w !! fsKey w p ≠ Some Dir
  ∧ nodeAt w' p = Some (File content).
Proof.
  rewrite /writeFileSync.
  destruct (fromRoot (cwd w) p) as [segs|] eqn:Hsegs; last done.
  destruct (walk _ _ (removelast segs)) as [acc| |] eqn:Hinit; [|done..].
  destruct (nodeOf (fs w) acc) as [[c|]|] eqn:Hacc; [done| |by case_bool_decide].
  destruct (_ || _) eqn:Hname; first done.
  apply orb_false_elim in Hname as [Hname%bool_decide_eq_false Hnode%bool_decide_eq_false].
  pose proof (fromRoot_nonempty _ _ _ Hsegs) as Hne.
  set (name := List.last segs "") in *.
  assert (segs = removelast segs ++ [name]) as Hlast
    by by apply app_removelast_last.
  assert (walk (fs w) [] segs = Reached (name :: acc)) as Hwalk.
  { rewrite Hlast walk_app Hinit /= Hacc.
    assert (¬ (name = "" ∨ name = ".")) as H1 by naive_solver.
    assert (name ≠ "..") as H2 by naive_solver.
    by rewrite (bool_decide_false _ H1) (bool_decide_false _ H2). }
  pose proof (located_fsKey _ _ _ _ Hsegs Hwalk) as Hkey.
  intros [= <-]. cbn [cwd fs setTrace setFs]. rewrite -Hkey. split_and!; try done.
  assert (∀ a, nodeOf (fs w) a = Some Dir →
               nodeOf (<[keyOf (name :: acc) := File content]> (fs w)) a = Some Dir)
    as Hdirs.
  { intros [|x a] Ha; first done. cbn [nodeOf] in *.
    rewrite lookup_insert_ne //. intros Heq. apply Hnode. by rewrite /= Heq. }
  rewrite /nodeAt /locate /= Hsegs (walk_mono _ _ _ Hdirs _ _ Hwalk).
  by rewrite /= lookup_insert_eq.
Qed.

End files.

(** Writing, then reading.  When [writeFile(path, content)] returns, the
    file exists and reading it gives [content]; every other file has the
    content it had and every directory is still a directory; the working
    directory is unchanged. *)
Theorem writeFile_then_readFile :
  ∀ path content w w',
    writeFile path content w = (Ret tt, w') →
    readFile path w' = (Ret content, w')
    ∧ fileExists path w' = (Ret true, w')
    ∧ (∀ q c, q ≠ fsKey w path → fs w !! q = Some (File c) →
              fs w' !! q = Some (File c))
    ∧ (∀ q, fs w !! q = Some Dir → fs w' !! q = Some Dir)
    ∧ cwd w' = cwd w.
Proof.
  intros path content w w'. rewrite /writeFile.
  intros (present & w1 & ->%existsSync_ret & Hrest)%bind_ret_inv.
  apply bind_ret_inv in Hrest as ([] & w2 & Hmk & Hwr).
  assert (cwd w2 = cwd w
          ∧ (∀ q c, fs w !! q = Some (File c) → fs w2 !! q = Some (File c))
          ∧ (∀ q, fs w !! q = Some Dir → fs w2 !! q = Some Dir))
    as (Hcwd & Hfiles & Hdirs).
  { destruct present; simpl in Hmk.
    - by injection Hmk as <-.
    - by apply mkdirSync_keeps in Hmk. }
  apply writeFileSync_written in Hwr as (Hcwd' & Hfs & Hnodir & Hnode).
  assert (fsKey w2 path = fsKey w path) as Hkey2 by by rewrite /fsKey Hcwd.
  split_and!.
  - by rewrite /readFile /readFileSync Hnode.
  - by rewrite /fileExists /existsSync Hnode bool_decide_true.
  - intros q c Hne Hq. rewrite Hfs lookup_insert_ne; [congruence|]. by apply Hfiles.
  - intros q Hq. rewrite Hfs.
    destruct (decide (fsKey w2 path = q)) as [<-|Hne].
    + exfalso. apply Hnodir. by apply Hdirs.
    + rewrite lookup_insert_ne //. by apply Hdirs.
  - congruence.
Qed.

Lemma writeFile_then_readFile_witness :
  ∃ w',
    writeFile "dist/assets/app.js" "let x;" Samples.siteDisk = (Ret tt, w')
    ∧ readFile "dist/assets/app.js" w' = (Ret "let x;", w')
    ∧ fs w' !! "/proj/index.html"
      = Some (File "<html><head></head><body></body></html>").
Proof.
  eexists. split; first by (vm_compute; reflexivity).
  match goal with
  | |- context [readFile _ ?w'] =>
      destruct (writeFile_then_readFile "dist/assets/app.js" "let x;"
                  Samples.siteDisk w') as (Hread & _ & Hfiles & _)
  end.
  - vm_compute. reflexivity.
  - split; first exact Hread.
    apply Hfiles; [vm_compute; discriminate|vm_compute; reflexivity].
Defined.

Section climbing.

Lemma length_chars s : length (Js.chars s) = String.length s.
Proof. induction s as [|c s IH]; [done|]. by rewrite /= IH. Qed.

Lemma length_sliceTo n s : String.length (Js.sliceTo n s) = n `min` String.length s.
Proof.
  revert s. induction n as [|n IH]; intros [|c s]; try done.
  by rewrite /= IH.
Qed.

Lemma dirname_scan_bounds rtail :
  ∀ i m e,
    Path.dirname_scan rtail i m = Some e → length rtail ≤ i →
    1 ≤ e ∧ e ≤ i ∧ (m = true → e < i).
Proof.
  induction rtail as [|c rtail IH]; intros i m e; cbn [Path.dirname_scan]; first done.
  cbn [length]. intros Hscan Hlen.
  destruct (Ascii.eqb c Path.slash).
  - destruct m.
    + destruct (IH _ _ _ Hscan) as (? & ? & Hlt); first lia.
      split_and!; [done|lia|]. intros _. specialize (Hlt eq_refl). lia.
    + injection Hscan as <-. split_and!; [lia|done|done].
  - destruct (IH _ _ _ Hscan) as (? & ? & _); first lia.
    split_and!; [done|lia|]. intros _. lia.
Qed.

Lemma dirname_height p :
  Path.dirname p ≠ p → height (Path.dirname p) < height p.
Proof.
  rewrite /Path.dirname.
  destruct (Js.chars p) as [|c0 tl] eqn:Hp.
  { destruct p; last done. intros _. by vm_compute. }
  assert (String.length p = S (length tl)) as Hlen
    by by rewrite -length_chars Hp.
  destruct (Path.dirname_scan (reverse tl) (length tl) true) as [e|] eqn:Hscan.
  - destruct (dirname_scan_bounds _ _ _ _ Hscan) as (He1 & _ & Hlt);
      first by rewrite length_reverse.
    specialize (Hlt eq_refl). intros _.
    destruct (Ascii.eqb c0 Path.slash && bool_decide (e = 1)).
    + rewrite /height Hlen. repeat case_bool_decide; try done; simpl; lia.
    + rewrite /height length_sliceTo Hlen. repeat case_bool_decide; lia.
  - destruct (Ascii.eqb c0 Path.slash) eqn:Hroot.
    + intros Hfix. rewrite /height Hlen.
      destruct tl as [|c1 tl]; last by (repeat case_bool_decide; try done; simpl; lia).
      exfalso. apply Hfix. apply Ascii.eqb_eq in Hroot as ->.
      destruct p as [|a [|b p]]; by simplify_eq/=.
    + intros Hfix. rewrite /height Hlen.
      repeat case_bool_decide; try done; simpl; lia.
Qed.

Lemma climb_succ k p : climb (S k) p = climb k (Path.dirname p).
Proof. by rewrite /climb Nat.iter_succ_r. Qed.

Lemma climb_fixed k p : Path.dirname p = p → climb k p = p.
Proof.
  intros Hfix. induction k as [|k IH]; first done.
  by rewrite climb_succ Hfix.
Qed.

Lemma findProjectRoot_loop_spec fuel :
  ∀ p w,
    height p < fuel →
    match findProjectRoot_loop fuel p w with
    | (Ret root, w') =>
        w' = w
        ∧ ∃ k, root = climb k p ∧ hasPackage w root = true
               ∧ ∀ j, j < k → hasPackage w (climb j p) = false
    | (Throw _, w') => w' = w ∧ ∀ k, hasPackage w (climb k p) = false
    | (Diverge, _) => False
    end.
Proof.
  induction fuel as [|fuel IH]; intros p w Hfuel; first lia.
  cbn [findProjectRoot_loop]. rewrite /bind /existsSync.
  fold (hasPackage w p). destruct (hasPackage w p) eqn:Hpkg.
  - split; first done. exists 0. split_and!; [done..|]. intros j Hj. lia.
  - case_bool_decide as Hfix.
    + split; first done. intros k. by rewrite climb_fixed.
    + pose proof (dirname_height p Hfix) as Hlt.
      specialize (IH (Path.dirname p) w ltac:(lia)).
      destruct (findProjectRoot_loop fuel (Path.dirname p) w) as [[root|e|] w'];
        [destruct IH as (-> & k & -> & Hroot & Hnear)
        |destruct IH as (-> & Hnone)|done].
      * split; first done. exists (S k). rewrite climb_succ.
        split_and!; [done..|]. intros [|j] Hj; first done.
        rewrite climb_succ. apply Hnear. lia.
      * split; first done. intros [|k]; first done. by rewrite climb_succ.
Qed.

End climbing.

(** [findProjectRoot] finds the nearest root.  Climbing from the resolved
    start path always ends (the bound [height] on the number of steps is
    never exhausted): it returns the first directory on the way up that
    holds a [package.json], or throws when no directory up to the root
    holds one.  Nothing is written or logged. *)
Theorem findProjectRoot_nearest :
  ∀ fuel startPath w,
    height (Path.resolve (cwd w) [default (cwd w) startPath]) < fuel →
    match findProjectRoot fuel startPath w with
    | (Ret root, w') =>
        w' = w
        ∧ ∃ k, root = climb k (Path.resolve (cwd w) [default (cwd w) startPath])
               ∧ hasPackage w root = true
               ∧ ∀ j, j < k →
                   hasPackage w
                     (climb j (Path.resolve (cwd w) [default (cwd w) startPath]))
                   = false
    | (Throw _, w') =>
        w' = w
        ∧ ∀ k, hasPackage w
                 (climb k (Path.resolve (cwd w) [default (cwd w) startPath]))
               = false
    | (Diverge, _) => False
    end.
Proof.
  intros fuel startPath w Hfuel. rewrite /findProjectRoot /bind /getCwd.
  by apply findProjectRoot_loop_spec.
Qed.

Lemma findProjectRoot_nearest_witness :
  match findProjectRoot 40 (Some "src/app.ts") Samples.siteDisk with
  | (Ret root, _) => hasPackage Samples.siteDisk root = true
  | _ => False
  end.
Proof.
  pose proof (findProjectRoot_nearest 40 (Some "src/app.ts") Samples.siteDisk) as H.
  destruct (findProjectRoot 40 (Some "src/app.ts") Samples.siteDisk)
    as [[root|e|] w'] eqn:Hrun.
  - destruct H as (_ & k & _ & Hpkg & _); [vm_compute; lia|exact Hpkg].
  - vm_compute in Hrun. discriminate Hrun.
  - vm_compute in Hrun. discriminate Hrun.
Defined.

Example findProjectRoot_from_file :
  fst (findProjectRoot 40 (Some "src/app.ts") Samples.siteDisk) = Ret "/proj".
Proof. vm_compute. reflexivity. Qed.

(* ===================================================================== *)
(** * The module graph of a finished traversal *)
(* ===================================================================== *)

Section graph_invariants.
Import Plugins Dependency Build Graph.

Lemma depsGrow_refl ctx : depsGrow ctx ctx.
Proof. intros k s Hk. by exists s. Qed.

Lemma depsGrow_trans a b c : depsGrow a b → depsGrow b c → depsGrow a c.
Proof.
  intros Hab Hbc k s Hk. destruct (Hab k s Hk) as (s1 & Hk1 & Hs1).
  destruct (Hbc k s1 Hk1) as (s2 & Hk2 & Hs2). exists s2. split; [done|set_solver].
Qed.

Lemma depsGrow_recordImporter ctx f imp : depsGrow ctx (recordImporter ctx f imp).
Proof.
  rewrite /recordImporter. destruct imp as [i|]; last apply depsGrow_refl.
  destruct (Js.truthy i); last apply depsGrow_refl.
  intros k s Hk. cbn [dependencies setDependencies].
  destruct (decide (i = k)) as [->|Hne].
  - rewrite lookup_insert_eq Hk /=. eexists. split; [done|set_solver].
  - rewrite lookup_insert_ne //. by exists s.
Qed.

Lemma followed_mono ctx ctx' m d :
  processed ctx ⊆ processed ctx' → depsGrow ctx ctx' →
  followed ctx m d → followed ctx' m d.
Proof.
  intros Hsub Hgrow Hf r Hr. destruct (Hf r Hr) as [Hin Hedge].
  split; first set_solver. intros Hm.
  destruct (Hedge Hm) as (s & Hs & Hrs). destruct (Hgrow m s Hs) as (s' & Hs' & Hsub').
  exists s'. split; [done|set_solver].
Qed.

Lemma GraphPost_refl ctx : GraphPost ctx ctx.
Proof.
  split_and!; [done|apply depsGrow_refl|]. exists [].
  rewrite /JsMap.keys /= !app_nil_r. split_and!; [done..|].
  by intros m deps ?%elem_of_nil.
Qed.

Lemma GraphPost_trans a b c : GraphPost a b → GraphPost b c → GraphPost a c.
Proof.
  intros (Hp1 & Hd1 & add1 & Hg1 & Ho1 & Hin1) (Hp2 & Hd2 & add2 & Hg2 & Ho2 & Hin2).
  split_and!; [set_solver|by eapply depsGrow_trans|].
  exists (add1 ++ add2). split_and!.
  - by rewrite Hg2 Hg1 app_assoc.
  - by rewrite Ho2 Ho1 /JsMap.keys fmap_app app_assoc.
  - intros m deps [Hm|Hm]%elem_of_app.
    + destruct (Hin1 m deps Hm) as (Hnew & Hvis & Hfol).
      split_and!; [done|set_solver|]. intros d Hd.
      by eapply followed_mono, Hfol.
    + destruct (Hin2 m deps Hm) as (Hnew & Hvis & Hfol).
      split_and!; [set_solver|done..].
Qed.

Lemma GraphPost_visited ctx ctx' :
  keysVisited ctx → graphVisited ctx → GraphPost ctx ctx' →
  keysVisited ctx' ∧ graphVisited ctx'.
Proof.
  intros Hkv Hgv (Hp & _ & added & Hg & Ho & Hin).
  assert (∀ k, k ∈ JsMap.keys added → k ∈ processed ctx') as Hadded.
  { intros k (x & -> & Hx)%list_elem_of_fmap. destruct x as [m deps].
    by destruct (Hin m deps Hx) as (_ & ? & _). }
  split.
  - intros k. rewrite Ho. intros [Hk|Hk]%elem_of_app; [|by apply Hadded].
    by apply Hp, Hkv.
  - intros k. rewrite Hg /JsMap.keys fmap_app.
    intros [Hk|Hk]%elem_of_app; [|by apply Hadded].
    by apply Hp, Hgv.
Qed.

Lemma GraphPost_quiet ctx ctx' :
  moduleGraph ctx' = moduleGraph ctx → outputs ctx' = outputs ctx →
  processed ctx ⊆ processed ctx' → depsGrow ctx ctx' → GraphPost ctx ctx'.
Proof.
  intros Hg Ho Hp Hd. split_and!; [done..|]. exists [].
  rewrite Hg Ho /JsMap.keys /= !app_nil_r. split_and!; [done..|].
  by intros m deps ?%elem_of_nil.
Qed.

End graph_invariants.

Section graph_steps.
Import Plugins Dependency Build Graph.

Lemma keys_set_fresh {V} (m : list (string * V)) k v :
  k ∉ JsMap.keys m → JsMap.keys (JsMap.set m k v) = JsMap.keys m ++ [k].
Proof. intros Hk. by rewrite JsMap_set_fresh // /JsMap.keys fmap_app. Qed.

(** The loop over the dependencies of [f], given what one call does. *)
Lemma dependency_loop_graph n f :
  (∀ ctx r imp w ctx' w',
     keysVisited ctx → graphVisited ctx →
     processFile n ctx r imp w = (Ret ctx', w') →
     GraphPost ctx ctx' ∧ r ∈ processed ctx'
     ∧ ∀ importer, imp = Some importer → Js.truthy importer = true →
         ∃ s, dependencies ctx' !! importer = Some s ∧ r ∈ s) →
  ∀ deps ctx w ctx' w',
    keysVisited ctx → graphVisited ctx →
    forEachM (λ c dep, match traversable dep with
                       | Some r => processFile n c r (Some f)
                       | None => ret c
                       end) deps ctx w = (Ret ctx', w') →
    GraphPost ctx ctx' ∧ ∀ d, d ∈ deps → followed ctx' f d.
Proof.
  intros Hcall. induction deps as [|d deps IH]; intros ctx w ctx' w' Hkv Hgv.
  - intros [= <- <-]. split; [apply GraphPost_refl|by intros d ?%elem_of_nil].
  - cbn [forEachM]. intros (c1 & w1 & Hd & Hrest)%bind_ret_inv.
    assert (GraphPost ctx c1 ∧ followed c1 f d) as [Hpost1 Hfol1].
    { destruct (traversable d) as [r|] eqn:Hr.
      - destruct (Hcall _ _ _ _ _ _ Hkv Hgv Hd) as (Hpost & Hin & Hedge).
        split; first done. intros r' Hr'. rewrite Hr in Hr'. injection Hr' as <-.
        split; first done. intros Hf. by apply (Hedge f).
      - injection Hd as <- <-. split; [apply GraphPost_refl|].
        intros r' Hr'. by rewrite Hr in Hr'. }
    destruct (GraphPost_visited _ _ Hkv Hgv Hpost1) as [Hkv1 Hgv1].
    destruct (IH _ _ _ _ Hkv1 Hgv1 Hrest) as [Hpost2 Hfol2].
    split; first by eapply GraphPost_trans.
    intros d' [->|Hin]%elem_of_cons; [|by apply Hfol2].
    destruct Hpost2 as (Hp2 & Hd2 & _). by eapply followed_mono.
Qed.

Lemma processFile_graph fuel :
  ∀ ctx f imp w ctx' w',
    keysVisited ctx → graphVisited ctx →
    processFile fuel ctx f imp w = (Ret ctx', w') →
    GraphPost ctx ctx' ∧ f ∈ processed ctx'
    ∧ ∀ importer, imp = Some importer → Js.truthy importer = true →
        ∃ s, dependencies ctx' !! importer = Some s ∧ f ∈ s.
Proof.
  induction fuel as [|n IH]; intros ctx f imp w ctx' w' Hkv Hgv; first done.
  cbn [processFile].
  destruct (recordImporter_fields ctx f imp) as (_ & _ & _ & Ho0 & Hd0 & Hg0).
  case_bool_decide as Hin.
  { intros [= <- <-]. split_and!.
    - apply GraphPost_quiet; [done|done|by rewrite Hd0|apply depsGrow_recordImporter].
    - by rewrite Hd0.
    - intros importer -> Ht. by apply recordImporter_edge. }
  set (ctx0 := setProcessed ctx ({[f]} ∪ processed ctx)).
  set (ctx1 := recordImporter ctx0 f imp).
  destruct (recordImporter_fields ctx0 f imp) as (_ & _ & _ & Ho1 & Hd1 & Hg1).
  fold ctx1 in Ho1, Hd1, Hg1. cbn in Ho1, Hd1, Hg1.
  assert (depsGrow ctx ctx1) as Hgrow1.
  { apply (depsGrow_trans _ ctx0); [|apply depsGrow_recordImporter].
    intros k s Hk. by exists s. }
  assert (∀ importer, imp = Some importer → Js.truthy importer = true →
            ∃ s, dependencies ctx1 !! importer = Some s ∧ f ∈ s) as Hedge1.
  { intros importer -> Ht. by apply recordImporter_edge. }
  assert (GraphPost ctx ctx1) as Hpost1.
  { apply GraphPost_quiet; [done|done| |done]. rewrite Hd1. set_solver. }
  rewrite read_source.
  destruct (sourceOf w f) as [content|e|]; [|done..].
  destruct (Js.truthy content) eqn:Hcontent; cbn [negb].
  2:{ intros [= <- <-]. split_and!; [done| |done]. rewrite Hd1. set_solver. }
  intros ([code map] & w1 & _ & Hrest)%bind_ret_inv.
  apply bind_ret_inv in Hrest as (deps & w2 & _ & Hloop).
  set (ctx2 := setOutputs ctx1 _) in Hloop.
  set (ctx3 := setModuleGraph ctx2 _) in Hloop.
  assert (f ∉ JsMap.keys (outputs ctx)) as Hfo by (intros ?; by apply Hin, Hkv).
  assert (f ∉ JsMap.keys (moduleGraph ctx)) as Hfg by (intros ?; by apply Hin, Hgv).
  assert (moduleGraph ctx3 = moduleGraph ctx ++ [(f, deps)]) as Hg3.
  { rewrite /ctx3 /ctx2 /= Hg1. by apply JsMap_set_fresh. }
  assert (JsMap.keys (outputs ctx3) = JsMap.keys (outputs ctx) ++ [f]) as Ho3.
  { rewrite /ctx3 /ctx2 /= Ho1. by apply keys_set_fresh. }
  assert (processed ctx3 = {[f]} ∪ processed ctx) as Hp3 by done.
  assert (keysVisited ctx3 ∧ graphVisited ctx3) as [Hkv3 Hgv3].
  { split.
    - intros k. rewrite Ho3 Hp3. intros [Hk|Hk%list_elem_of_singleton]%elem_of_app.
      + apply Hkv in Hk. set_solver.
      + set_solver.
    - intros k. rewrite Hg3 Hp3 /JsMap.keys fmap_app.
      intros [Hk|Hk%list_elem_of_singleton]%elem_of_app.
      + apply Hgv in Hk. set_solver.
      + set_solver. }
  destruct (dependency_loop_graph n f IH deps ctx3 w2 ctx' w' Hkv3 Hgv3 Hloop)
    as [(HpL & HdL & added & HgL & HoL & HinL) Hfol].
  assert (depsGrow ctx ctx') as Hgrow by by eapply depsGrow_trans.
  split_and!.
  - split_and!; [rewrite Hp3 in HpL; set_solver|done|].
    exists ((f, deps) :: added). split_and!.
    + by rewrite HgL Hg3 -app_assoc.
    + by rewrite HoL Ho3 -app_assoc.
    + intros m ds [[= -> ->]|Hm]%elem_of_cons.
      * split_and!; [done|rewrite Hp3 in HpL; set_solver|done].
      * destruct (HinL m ds Hm) as (Hnew & Hvis & Hf).
        split_and!; [rewrite Hp3 in Hnew; set_solver|done..].
  - rewrite Hp3 in HpL. set_solver.
  - intros importer Himp Ht. destruct (Hedge1 importer Himp Ht) as (s & Hs & Hfs).
    destruct (HdL importer s) as (s' & Hs' & Hsub); first done.
    exists s'. split; [done|set_solver].
Qed.

Lemma processEntries_graph fuel :
  ∀ entries ctx w ctx' w',
    keysVisited ctx → graphVisited ctx →
    forEachM (λ c entryPoint, processFile fuel c entryPoint None) entries ctx w
    = (Ret ctx', w') →
    GraphPost ctx ctx' ∧ ∀ e, e ∈ entries → e ∈ processed ctx'.
Proof.
  induction entries as [|e entries IH]; intros ctx w ctx' w' Hkv Hgv.
  - intros [= <- <-]. split; [apply GraphPost_refl|by intros e ?%elem_of_nil].
  - cbn [forEachM]. intros (c1 & w1 & He & Hrest)%bind_ret_inv.
    destruct (processFile_graph _ _ _ _ _ _ _ Hkv Hgv He) as (Hpost1 & Hin1 & _).
    destruct (GraphPost_visited _ _ Hkv Hgv Hpost1) as [Hkv1 Hgv1].
    destruct (IH _ _ _ _ Hkv1 Hgv1 Hrest) as [Hpost2 Hin2].
    split; first by eapply GraphPost_trans.
    intros e' [->|Hin]%elem_of_cons; [|by apply Hin2].
    destruct Hpost2 as (Hp2 & _). set_solver.
Qed.

End graph_steps.

(** The module graph of a finished traversal.  When the traversal of the
    entry points of a new session returns: every entry point is visited;
    the module graph and the outputs have the same keys, in the same
    order, all of them visited; and every edge of the graph has been
    followed, that is, the target of every resolved, non-external
    dependency of a module in the graph is visited and is recorded among
    the dependencies of that module. *)
Theorem traversal_graph_is_complete :
  ∀ fuel cfg pl w0 ctx0 w1 w ctx w',
    Build.createBuilderContext cfg pl w0 = (Ret ctx0, w1) →
    Build.processEntries fuel ctx0 w = (Ret ctx, w') →
    (∀ e, e ∈ Build.entryPoints ctx0 → e ∈ Build.processed ctx)
    ∧ JsMap.keys (Build.moduleGraph ctx) = JsMap.keys (Build.outputs ctx)
    ∧ (∀ k, k ∈ JsMap.keys (Build.moduleGraph ctx) → k ∈ Build.processed ctx)
    ∧ ∀ m deps d,
        (m, deps) ∈ Build.moduleGraph ctx → d ∈ deps → Graph.followed ctx m d.
Proof.
  intros fuel cfg pl w0 ctx0 w1 w ctx w' Hnew Hrun.
  destruct (createBuilderContext_fresh _ _ _ _ _ Hnew) as (_ & Ho & Hp & _ & Hg).
  assert (Graph.keysVisited ctx0) as Hkv
    by (intros k; rewrite Ho; by intros ?%elem_of_nil).
  assert (Graph.graphVisited ctx0) as Hgv
    by (intros k; rewrite Hg; by intros ?%elem_of_nil).
  destruct (processEntries_graph _ _ _ _ _ _ Hkv Hgv Hrun) as [Hpost Hentries].
  destruct (GraphPost_visited _ _ Hkv Hgv Hpost) as [_ Hgv'].
  destruct Hpost as (_ & _ & added & Hga & Hoa & Hin).
  rewrite Hg in Hga. rewrite Ho in Hoa. cbn in Hga, Hoa.
  split_and!; [done|by rewrite Hga Hoa|done|].
  intros m deps d Hm Hd. rewrite Hga in Hm.
  destruct (Hin m deps Hm) as (_ & _ & Hfol). by apply Hfol.
Qed.

Lemma traversal_graph_is_complete_witness :
  ∃ ctx w',
    Build.processEntries 4
      (Samples.freshSession (Samples.configOf "./a.ts") [Samples.passThrough]
         ["/proj/a.ts"])
      Samples.cyclicDisk = (Ret ctx, w')
    ∧ JsMap.keys (Build.moduleGraph ctx) = JsMap.keys (Build.outputs ctx).
Proof.
  do 2 eexists. split; first by (vm_compute; reflexivity).
  eapply (traversal_graph_is_complete 4 (Samples.configOf "./a.ts")
            (Some [Plugins.PluginValue Samples.passThrough]) Samples.cyclicDisk
            (Samples.freshSession (Samples.configOf "./a.ts") [Samples.passThrough]
               ["/proj/a.ts"])
            Samples.cyclicDisk Samples.cyclicDisk).
  - vm_compute. reflexivity.
  - vm_compute. reflexivity.
Defined.



(* ===================================================================== *)
(** * Output paths *)
(* ===================================================================== *)

Section suffixes.

Lemma chars_app a b : Js.chars (a +:+ b) = Js.chars a ++ Js.chars b.
Proof. induction a as [|c a IH]; [done|]. by rewrite /= IH. Qed.

Lemma unchars_chars s : Js.unchars (Js.chars s) = s.
Proof. induction s as [|c s IH]; [done|]. by rewrite /= IH. Qed.

Lemma unchars_app l k : Js.unchars (l ++ k) = Js.unchars l +:+ Js.unchars k.
Proof. induction l as [|c l IH]; [done|]. by rewrite /= IH. Qed.

Lemma chars_rev_app a b :
  Js.chars (String.rev_app a b) = reverse (Js.chars a) ++ Js.chars b.
Proof.
  revert b. induction a as [|c a IH]; intros b; first done.
  by rewrite /= IH reverse_cons -app_assoc.
Qed.

Lemma chars_rev s : Js.chars (String.rev s) = reverse (Js.chars s).
Proof. by rewrite /String.rev chars_rev_app app_nil_r. Qed.

Lemma prefix_spec p s :
  String.prefix p s = true ↔ ∃ k, Js.chars s = Js.chars p ++ k.
Proof.
  revert s. induction p as [|a p IH]; intros s.
  - split; [intros _; by exists (Js.chars s)|by destruct s].
  - destruct s as [|b s].
    + split; [done|by intros [k ?]].
    + cbn [String.prefix Js.chars]. destruct (ascii_dec a b) as [->|Hne].
      * rewrite IH. split; intros [k Hk]; exists k; [by rewrite Hk|by simplify_eq/=].
      * split; [done|]. intros [k Hk]. by simplify_eq/=.
Qed.

Lemma endsWith_spec s suffix :
  Js.endsWith s suffix = true ↔ ∃ base, s = base +:+ suffix.
Proof.
  rewrite /Js.endsWith prefix_spec !chars_rev. split.
  - intros [k Hk]. exists (Js.unchars (reverse k)).
    apply (f_equal reverse) in Hk. rewrite reverse_involutive reverse_app in Hk.
    rewrite reverse_involutive in Hk.
    by rewrite -(unchars_chars s) Hk unchars_app unchars_chars.
  - intros [base ->]. exists (reverse (Js.chars base)).
    by rewrite chars_app reverse_app.
Qed.

Lemma length_app_string a b :
  String.length (a +:+ b) = String.length a + String.length b.
Proof. induction a as [|c a IH]; [done|]. by rewrite /= IH. Qed.

Lemma sliceTo_app a b : Js.sliceTo (String.length a) (a +:+ b) = a.
Proof. induction a as [|c a IH]; [by destruct b|]. by rewrite /= IH. Qed.

Lemma chars_inj a b : Js.chars a = Js.chars b → a = b.
Proof. intros H. by rewrite -(unchars_chars a) H unchars_chars. Qed.

Lemma app_string_assoc a b c : a +:+ (b +:+ c) = (a +:+ b) +:+ c.
Proof. apply chars_inj. by rewrite !chars_app app_assoc. Qed.

Lemma endsWith_last s suffix c d :
  c ≠ d → Js.endsWith (s +:+ String c "") (suffix +:+ String d "") = false.
Proof.
  intros Hne. apply not_true_is_false. intros [base Hb]%endsWith_spec.
  apply (f_equal Js.chars) in Hb. rewrite !chars_app /= in Hb.
  rewrite app_assoc in Hb. by apply app_inj_tail in Hb as [_ ?].
Qed.

Lemma endsWith_snoc s suffix c :
  Js.endsWith (s +:+ String c "") (suffix +:+ String c "") = Js.endsWith s suffix.
Proof.
  apply Bool.eq_iff_eq_true. rewrite !endsWith_spec. split; intros [base Hb].
  - exists base. apply chars_inj. apply (f_equal Js.chars) in Hb.
    rewrite !chars_app /= in Hb. rewrite app_assoc in Hb.
    apply app_inj_tail in Hb as [Hb _]. by rewrite chars_app.
  - exists base. by rewrite Hb app_string_assoc.
Qed.

End suffixes.

Section extensions.
Import Build.

Lemma ts_not_tsx base : Js.endsWith (base +:+ ".ts") ".tsx" = false.
Proof.
  change (base +:+ ".ts") with (base +:+ (".t" +:+ "s")).
  rewrite app_string_assoc. by apply (endsWith_last _ ".ts").
Qed.

Lemma js_not_ts base :
  Js.endsWith (base +:+ ".js") ".ts" = false
  ∧ Js.endsWith (base +:+ ".js") ".tsx" = false.
Proof.
  split.
  - change (base +:+ ".js") with (base +:+ (".j" +:+ "s")).
    rewrite app_string_assoc (endsWith_snoc _ ".t").
    change (base +:+ ".j") with (base +:+ ("." +:+ "j")).
    rewrite app_string_assoc. by apply (endsWith_last _ ".").
  - change (base +:+ ".js") with (base +:+ (".j" +:+ "s")).
    rewrite app_string_assoc. by apply (endsWith_last _ ".ts").
Qed.

Lemma replaceExtension_ts base : replaceExtension (base +:+ ".ts") = base +:+ ".js".
Proof.
  rewrite /replaceExtension ts_not_tsx.
  assert (Js.endsWith (base +:+ ".ts") ".ts" = true) as ->
    by (apply endsWith_spec; by eexists).
  rewrite length_app_string /=.
  replace (String.length base + 3 - 3) with (String.length base) by lia.
  by rewrite sliceTo_app.
Qed.

Lemma replaceExtension_tsx base : replaceExtension (base +:+ ".tsx") = base +:+ ".js".
Proof.
  rewrite /replaceExtension.
  assert (Js.endsWith (base +:+ ".tsx") ".tsx" = true) as ->
    by (apply endsWith_spec; by eexists).
  rewrite length_app_string /=.
  replace (String.length base + 4 - 4) with (String.length base) by lia.
  by rewrite sliceTo_app.
Qed.

Lemma replaceExtension_cases p :
  (∃ base, p = base +:+ ".tsx" ∧ replaceExtension p = base +:+ ".js")
  ∨ (∃ base, p = base +:+ ".ts" ∧ replaceExtension p = base +:+ ".js")
  ∨ (Js.endsWith p ".ts" = false ∧ Js.endsWith p ".tsx" = false
     ∧ replaceExtension p = p).
Proof.
  destruct (Js.endsWith p ".tsx") eqn:Htsx.
  { apply endsWith_spec in Htsx as [base ->]. left. exists base.
    by rewrite replaceExtension_tsx. }
  destruct (Js.endsWith p ".ts") eqn:Hts.
  { apply endsWith_spec in Hts as [base ->]. right. left. exists base.
    by rewrite replaceExtension_ts. }
  right. right. split_and!; [done..|]. by rewrite /replaceExtension Htsx Hts.
Qed.

End extensions.

(** The extension of an output file.  A path ending in [.ts] or [.tsx]
    gets [.js] in place of that ending, and any other path is kept; so the
    result never ends in [.ts] or [.tsx], replacing twice is replacing
    once, and the modules [x.ts], [x.tsx] and [x.js] are all written to the
    one file [x.js]. *)
Theorem replaceExtension_normalizes :
  (∀ base,
     Build.replaceExtension (base +:+ ".ts") = base +:+ ".js"
     ∧ Build.replaceExtension (base +:+ ".tsx") = base +:+ ".js"
     ∧ Build.replaceExtension (base +:+ ".js") = base +:+ ".js")
  ∧ (∀ p,
       Js.endsWith (Build.replaceExtension p) ".ts" = false
       ∧ Js.endsWith (Build.replaceExtension p) ".tsx" = false
       ∧ Build.replaceExtension (Build.replaceExtension p)
         = Build.replaceExtension p)
  ∧ (∀ p,
       Js.endsWith p ".ts" = false → Js.endsWith p ".tsx" = false →
       Build.replaceExtension p = p).
Proof.
  split_and!.
  - intros base. destruct (js_not_ts base) as [Hts Htsx].
    split_and!; [apply replaceExtension_ts|apply replaceExtension_tsx|].
    by rewrite /Build.replaceExtension Htsx Hts.
  - intros p.
    destruct (replaceExtension_cases p)
      as [(base & -> & ->)|[(base & -> & ->)|(Hts & Htsx & ->)]].
    + destruct (js_not_ts base) as [Hts Htsx].
      split_and!; [done..|]. by rewrite /Build.replaceExtension Htsx Hts.
    + destruct (js_not_ts base) as [Hts Htsx].
      split_and!; [done..|]. by rewrite /Build.replaceExtension Htsx Hts.
    + split_and!; [done..|]. by rewrite /Build.replaceExtension Htsx Hts.
  - intros p Hts Htsx. by rewrite /Build.replaceExtension Htsx Hts.
Qed.

Lemma replaceExtension_normalizes_witness :
  Build.replaceExtension "/proj/dist/notes.txt" = "/proj/dist/notes.txt".
Proof.
  destruct replaceExtension_normalizes as (_ & _ & Hother).
  apply Hother.
  - vm_compute. reflexivity.
  - vm_compute. reflexivity.
Defined.

(* ===================================================================== *)
(** * Extensions *)
(* ===================================================================== *)

Section extensions_of_paths.
Import Regex.

Local Abbreviation EXT_RE :=
  (seq [Cap (seq [Lit "."; Plus extensionChar]); Eoi]).

Local Abbreviation whole := (λ (rest : list ascii) (cap : option string), Some (cap, rest)).

Lemma star_all p k cap m :
  Forall (λ c, p c = true) m → is_Some (k [] cap) → star p k cap m = k [] cap.
Proof.
  intros Hm Hk. induction Hm as [|c m Hc _ IH]; first done.
  cbn [star]. rewrite Hc IH. by destruct Hk as [h ->].
Qed.

(** A match of the expression at the start of [s] takes all of [s]. *)
Lemma ext_run_inv s cap rest :
  run EXT_RE s None whole = Some (cap, rest) →
  ∃ m, s = "."%char :: m ∧ m ≠ [] ∧ Forall (λ c, extensionChar c = true) m
       ∧ cap = Some (Js.unchars s) ∧ rest = [].
Proof.
  cbn [seq run Js.chars stripPrefix].
  destruct s as [|c0 s]; first done.
  destruct (Ascii.eqb "." c0) eqn:Hdot; last done.
  apply Ascii.eqb_eq in Hdot as <-.
  destruct s as [|c1 s]; first done.
  destruct (extensionChar c1) eqn:Hc1; last done.
  intros (m & s' & -> & Hm & Hk)%star_inv.
  destruct s' as [|? ?]; last done. injection Hk as <- <-.
  exists (c1 :: m ++ []). split_and!; [done|done|by constructor; rewrite ?app_nil_r| |done].
  by rewrite firstn_all.
Qed.

Lemma ext_run_all m :
  m ≠ [] → Forall (λ c, extensionChar c = true) m →
  run EXT_RE ("."%char :: m) None whole
  = Some (Some (Js.unchars ("."%char :: m)), []).
Proof.
  intros Hne Hm. cbn [seq run Js.chars stripPrefix]. cbn [Ascii.eqb].
  rewrite /= . destruct m as [|c1 m]; first done.
  apply Forall_cons in Hm as [Hc1 Hm]. rewrite Hc1.
  rewrite star_all; [done|by eexists|].
  cbn. by rewrite firstn_all.
Qed.

Lemma ext_exec_last pre m :
  m ≠ [] → Forall (λ c, extensionChar c = true) m →
  exec EXT_RE (pre ++ "."%char :: m)
  = Some (Some (Js.unchars ("."%char :: m)), []).
Proof.
  intros Hne Hm. induction pre as [|c pre IH].
  - cbn [app]. destruct m as [|c1 m]; first done.
    cbn [exec]. by rewrite (ext_run_all (c1 :: m)).
  - cbn [app exec].
    destruct (run EXT_RE (c :: pre ++ "."%char :: m) None whole)
      as [[cap rest]|] eqn:Hrun; last done.
    exfalso. apply ext_run_inv in Hrun as (m' & Hs & _ & Hm' & _).
    injection Hs as -> <-.
    apply Forall_app in Hm' as [_ Hdot]. by apply Forall_cons in Hdot as [? _].
Qed.

Lemma ext_exec_inv s cap rest :
  exec EXT_RE s = Some (cap, rest) →
  ∃ pre m, s = pre ++ "."%char :: m ∧ m ≠ []
           ∧ Forall (λ c, extensionChar c = true) m
           ∧ cap = Some (Js.unchars ("."%char :: m)).
Proof.
  induction s as [|c s IH].
  - cbn [exec]. by destruct (run EXT_RE [] None whole) eqn:Hrun.
  - cbn [exec]. destruct (run EXT_RE (c :: s) None whole) as [[cap' rest']|] eqn:Hrun.
    + intros [= <- <-]. apply ext_run_inv in Hrun as (m & -> & Hne & Hm & -> & _).
      by exists [], m.
    + intros (pre & m & -> & Hne & Hm & ->)%IH. by exists (c :: pre), m.
Qed.

End extensions_of_paths.

(** [getExtension] yields the last extension.  For a path that ends in a
    dot followed by at least one character, none of them a dot, a slash or
    a backslash, the result is that ending, dot included; and a result
    that is not empty is always such an ending of the path.
    [isModuleFile] tests that ending, in lower case, against the five
    script extensions. *)
Theorem getExtension_last_suffix :
  (∀ base ext,
     ext ≠ "" → (∀ c, c ∈ Js.chars ext → extensionChar c = true) →
     getExtension (base +:+ "." +:+ ext) = "." +:+ ext
     ∧ isModuleFile (base +:+ "." +:+ ext)
       = bool_decide (Js.toLowerCase ("." +:+ ext)
                      ∈ [".js"; ".mjs"; ".ts"; ".tsx"; ".jsx"]))
  ∧ (∀ p,
       getExtension p ≠ "" →
       ∃ base ext,
         p = base +:+ "." +:+ ext ∧ getExtension p = "." +:+ ext ∧ ext ≠ ""
         ∧ ∀ c, c ∈ Js.chars ext → extensionChar c = true).
Proof.
  split.
  - intros base ext Hne Hext.
    assert (getExtension (base +:+ "." +:+ ext) = "." +:+ ext) as Hget.
    { rewrite /getExtension chars_app /=.
      rewrite (ext_exec_last (Js.chars base) (Js.chars ext)).
      - by destruct ext.
      - by apply Forall_forall.
      - by rewrite /= unchars_chars. }
    split; first done. by rewrite /isModuleFile Hget.
  - intros p. rewrite /getExtension.
    destruct (Regex.exec _ (Js.chars p)) as [[cap rest]|] eqn:Hexec; last done.
    apply ext_exec_inv in Hexec as (pre & m & Hp & Hne & Hm & ->).
    intros _. exists (Js.unchars pre), (Js.unchars m). split_and!.
    + apply chars_inj. by rewrite chars_app /= !chars_unchars.
    + done.
    + by destruct m.
    + intros c. rewrite chars_unchars. intros Hc.
      by apply (proj1 (Forall_forall _ _) Hm).
Qed.

Lemma getExtension_last_suffix_witness :
  getExtension ("/src/app.test" +:+ "." +:+ "TSX") = ".TSX"
  ∧ isModuleFile ("/src/app.test" +:+ "." +:+ "TSX") = true.
Proof.
  destruct getExtension_last_suffix as [Hlast _].
  destruct (Hlast "/src/app.test" "TSX") as [-> ->].
  - discriminate.
  - intros c Hc. vm_compute in Hc.
    repeat (apply elem_of_cons in Hc as [->|Hc]; [by vm_compute|]).
    by apply elem_of_nil in Hc.
  - split; [reflexivity|by vm_compute].
Defined.

(* ===================================================================== *)
(** * The configuration file *)
(* ===================================================================== *)

Section config_file.
Import Config.

Lemma findConfigFile_loop_spec dir names w :
  ∃ r,
    findConfigFile_loop dir names w = (Ret r, w)
    ∧ match r with
      | Some p =>
          ∃ i name,
            names !! i = Some name ∧ p = Path.join [dir; name]
            ∧ is_Some (nodeAt w p)
            ∧ ∀ j other, j < i → names !! j = Some other →
                nodeAt w (Path.join [dir; other]) = None
      | None =>
          ∀ name, name ∈ names → nodeAt w (Path.join [dir; name]) = None
      end.
Proof.
  induction names as [|n names (r & Hrun & Hr)]; cbn [findConfigFile_loop].
  - exists None. split; [done|]. by intros name ?%elem_of_nil.
  - rewrite /bind /fileExists /existsSync.
    destruct (decide (is_Some (nodeAt w (Path.join [dir; n])))) as [Hn|Hn].
    + rewrite bool_decide_true //. eexists. split; first done.
      exists 0, n. split_and!; [done..|]. intros j other Hj. lia.
    + rewrite bool_decide_false // Hrun. exists r. split; first done.
      apply eq_None_not_Some in Hn. destruct r as [p|].
      * destruct Hr as (i & name & Hi & -> & Hex & Hearlier).
        exists (S i), name. split_and!; [done..|].
        intros [|j] other Hj Hother; first by simplify_eq/=.
        apply (Hearlier j); [lia|done].
      * intros name [->|Hin]%elem_of_cons; [done|by apply Hr].
Qed.

End config_file.

(** The configuration file is searched in a fixed order.  [findConfigFile]
    always returns, without trace: the path of the first of
    [aether.config.ts], [.js], [.mjs], [.json] that exists in the directory
    (every name before it being absent), or [null] when none exists. *)
Theorem findConfigFile_first_match :
  ∀ dir w,
    ∃ r,
      Config.findConfigFile dir w = (Ret r, w)
      ∧ match r with
        | Some p =>
            ∃ i name,
              Config.configFileNames !! i = Some name ∧ p = Path.join [dir; name]
              ∧ is_Some (nodeAt w p)
              ∧ ∀ j other, j < i → Config.configFileNames !! j = Some other →
                  nodeAt w (Path.join [dir; other]) = None
        | None =>
            ∀ name, name ∈ Config.configFileNames →
                    nodeAt w (Path.join [dir; name]) = None
        end.
Proof. intros dir w. apply findConfigFile_loop_spec. Qed.

Lemma findConfigFile_first_match_witness :
  fst (Config.findConfigFile "/proj" Samples.siteDisk)
  = Ret (Some "/proj/aether.config.js").
Proof.
  destruct (findConfigFile_first_match "/proj" Samples.siteDisk) as (r & Hrun & _).
  rewrite Hrun. vm_compute in Hrun. by injection Hrun as <-.
Defined.

(* ===================================================================== *)
(** * The hot-update runtime: browser paths *)
(* ===================================================================== *)

Section browser_paths.
Import Runtime.

Lemma slashes_no_backslash s c :
  c ∈ Js.chars (slashes s) → Ascii.nat_of_ascii c ≠ 92.
Proof.
  induction s as [|a s IH]; cbn [slashes Js.chars].
  - by intros ?%elem_of_nil.
  - intros [->|Hin]%elem_of_cons; last by apply IH.
    case_bool_decide as Ha; [by vm_compute|done].
Qed.

Lemma slashes_clean s :
  (∀ c, c ∈ Js.chars s → Ascii.nat_of_ascii c ≠ 92) → slashes s = s.
Proof.
  induction s as [|a s IH]; first done. cbn [slashes Js.chars]. intros Hs.
  rewrite bool_decide_false; first (apply Hs; by left).
  rewrite IH //. intros c Hc. apply Hs. by right.
Qed.

Lemma startsWith_app root rest : Js.startsWith (root +:+ rest) root = true.
Proof. apply prefix_spec. exists (Js.chars rest). by rewrite chars_app. Qed.

Lemma sliceFrom_app root rest : Js.sliceFrom (String.length root) (root +:+ rest) = rest.
Proof. induction root as [|c root IH]; [by destruct rest|done]. Qed.

End browser_paths.

(** The path a module has in the browser.  [getBrowserModulePath] always
    yields a path that starts with a slash and holds no backslash.  For a
    file below the working directory it is what follows the directory,
    backslashes turned into slashes and a slash put in front when there is
    none; so a file [root/src/app.ts] written with slashes gets
    [/src/app.ts]. *)
Theorem getBrowserModulePath_is_rooted :
  (∀ root filePath,
     Js.startsWith (Runtime.getBrowserModulePath root filePath) "/" = true
     ∧ ∀ c, c ∈ Js.chars (Runtime.getBrowserModulePath root filePath) →
            Ascii.nat_of_ascii c ≠ 92)
  ∧ (∀ root rest,
       Runtime.getBrowserModulePath root (root +:+ rest)
       = if Js.startsWith (Runtime.slashes rest) "/" then Runtime.slashes rest
         else "/" +:+ Runtime.slashes rest)
  ∧ (∀ root rest,
       (∀ c, c ∈ Js.chars rest → Ascii.nat_of_ascii c ≠ 92) →
       Runtime.getBrowserModulePath root (root +:+ "/" +:+ rest) = "/" +:+ rest).
Proof.
  split_and!.
  - intros root filePath. rewrite /Runtime.getBrowserModulePath.
    set (rel := Runtime.slashes _).
    assert (∀ c, c ∈ Js.chars rel → Ascii.nat_of_ascii c ≠ 92) as Hrel
      by (intros c; apply slashes_no_backslash).
    destruct (Js.startsWith rel "/") eqn:Hstart; cbn [negb].
    + split; [exact Hstart|exact Hrel].
    + split; first by destruct rel. intros c. cbn [Js.chars String.append].
      intros [->|Hin]%elem_of_cons; [by vm_compute|by apply Hrel].
  - intros root rest.
    rewrite /Runtime.getBrowserModulePath startsWith_app sliceFrom_app.
    by destruct (Js.startsWith _ _).
  - intros root rest Hclean.
    rewrite /Runtime.getBrowserModulePath startsWith_app sliceFrom_app.
    assert (Runtime.slashes ("/" +:+ rest) = "/" +:+ rest) as ->.
    { apply slashes_clean. intros c. cbn [Js.chars String.append].
      intros [->|Hin]%elem_of_cons; [by vm_compute|by apply Hclean]. }
    by destruct rest.
Qed.

Lemma getBrowserModulePath_is_rooted_witness :
  Runtime.getBrowserModulePath "/proj" ("/proj" +:+ "/" +:+ "src/app.ts")
  = "/" +:+ "src/app.ts".
Proof.
  destruct getBrowserModulePath_is_rooted as (_ & _ & Hclean).
  apply Hclean. intros c Hc. vm_compute in Hc.
  repeat (apply elem_of_cons in Hc as [->|Hc]; [by vm_compute|]).
  by apply elem_of_nil in Hc.
Defined.

(* ===================================================================== *)
(** * Hooks that are called without a guard *)
(* ===================================================================== *)

Section unguarded.
Import Plugins Build Server ServerSpec.

Lemma closeBundle_loop_throws before p after hook e :
  closeBundle p = Some hook → hook ArgNone = Thrown e →
  allReturn before KCloseBundle ArgNone = true →
  ∀ idx w,
    closeBundle_loop idx (before ++ p :: after) w
    = (Throw e,
       setTrace w (trace w ++ hookCalls idx before KCloseBundle ArgNone
                   ++ [EvHook (idx + length before) (name p) KCloseBundle ArgNone])).
Proof.
  intros Hp He. induction before as [|q qs IH]; intros Hall idx w.
  - cbn [app closeBundle_loop]. by rewrite Hp /bind /callHook /bind /= He Nat.add_0_r.
  - cbn [allReturn forallb hookOf] in Hall. apply andb_prop in Hall as [Hq Hqs].
    cbn [app closeBundle_loop hookCalls hookOf length].
    destruct (closeBundle q) as [hq|].
    + rewrite /bind /callHook /bind /=. destruct (hq ArgNone); last done.
      by rewrite /= IH // setTrace_app Nat.add_succ_r.
    + by rewrite IH // Nat.add_succ_r.
Qed.

Lemma Emits_watch_loop plugins path :
  ∀ idx, Emits watcherEvent (watch_loop idx plugins path).
Proof.
  induction plugins as [|p ps IH]; intros idx; cbn [watch_loop]; first apply Emits_ret.
  apply Emits_bind; [|intros ?; apply Emits_bind; [|intros ?; apply IH]].
  - destruct (watchChange p); [|apply Emits_ret].
    apply Emits_bind; [by apply Emits_callHook|intros ?; apply Emits_ret].
  - destruct (handleHotUpdate p); [|apply Emits_ret].
    apply Emits_bind; [by apply Emits_callHook|intros ?; apply Emits_ret].
Qed.

Lemma watch_loop_throws plugins path :
  watchersReturn plugins path = false →
  ∀ idx w, ∃ e, fst (watch_loop idx plugins path w) = Throw e.
Proof.
  induction plugins as [|p ps IH]; intros Hall idx w; first done.
  cbn [watchersReturn forallb] in Hall. cbn [watch_loop].
  rewrite /bind /callHook /bind /=.
  destruct (watchChange p) as [hw|].
  - destruct (hw _) as [v|e]; cbn; last by exists e.
    destruct (handleHotUpdate p) as [hh|].
    + destruct (hh _) as [v'|e]; cbn; last by exists e. by apply IH.
    + by apply IH.
  - destruct (handleHotUpdate p) as [hh|].
    + destruct (hh _) as [v'|e]; cbn; last by exists e. by apply IH.
    + by apply IH.
Qed.

End unguarded.

(** A failing [closeBundle].  The [closeBundle] hooks run without a guard:
    when one throws, the hooks before it were called in order, it was
    called once, the hooks after it are not called, and the error is
    thrown as it is, with no console line naming the plugin. *)
Theorem closeBundle_failure_is_not_reported :
  ∀ before p after hook e idx w,
    closeBundle p = Some hook → hook ArgNone = Thrown e →
    Plugins.allReturn before KCloseBundle ArgNone = true →
    Build.closeBundle_loop idx (before ++ p :: after) w
    = (Throw e,
       setTrace w (trace w ++ Plugins.hookCalls idx before KCloseBundle ArgNone
                   ++ [EvHook (idx + length before) (name p) KCloseBundle ArgNone])).
Proof. intros. by eapply closeBundle_loop_throws. Qed.

Lemma closeBundle_failure_is_not_reported_witness :
  Build.closeBundle_loop 0
    ([Samples.passThrough] ++ Samples.lateFailure :: [Samples.passThrough])
    Samples.twoFileDisk
  = (Throw (Error "boom"),
     setTrace Samples.twoFileDisk
       (trace Samples.twoFileDisk
        ++ Plugins.hookCalls 0 [Samples.passThrough] KCloseBundle ArgNone
        ++ [EvHook (0 + length [Samples.passThrough]) (name Samples.lateFailure)
              KCloseBundle ArgNone])).
Proof.
  apply (closeBundle_failure_is_not_reported [Samples.passThrough]
           Samples.lateFailure [Samples.passThrough] (λ _, Thrown (Error "boom"))).
  - reflexivity.
  - reflexivity.
  - vm_compute. reflexivity.
Defined.

(** A failing watcher hook.  When a [watchChange] or [handleHotUpdate]
    hook throws, the watcher callback throws: after its two log lines the
    only events are the hook calls made so far; no client is sent
    anything and no error is logged. *)
Theorem failing_watcher_hook_suppresses_broadcast :
  ∀ srv path w,
    ServerSpec.watchersReturn (Server.plugins srv) path = false →
    ∃ e evs,
      fst (Server.onChange srv path w) = Throw e
      ∧ trace (snd (Server.onChange srv path w))
        = trace w
          ++ [EvConsole LLog ("File changed: " +:+ path) None;
              EvConsole LLog ("Calculating affected modules for: " +:+ path) None]
          ++ evs
      ∧ Forall ServerSpec.watcherEvent evs.
Proof.
  intros srv path w Hfail.
  rewrite /Server.onChange /console_log /Server.getAffectedModules /console_log.
  rewrite /bind /emit /=. rewrite /now /=.
  assert (∀ w0, ∃ e evs,
            Server.watch_loop 0 (Server.plugins srv) path w0
            = (Throw e, snd (Server.watch_loop 0 (Server.plugins srv) path w0))
            ∧ trace (snd (Server.watch_loop 0 (Server.plugins srv) path w0))
              = trace w0 ++ evs
            ∧ Forall ServerSpec.watcherEvent evs) as Hloop.
  { intros w0. destruct (watch_loop_throws _ _ Hfail 0 w0) as [e He].
    destruct (Emits_watch_loop (Server.plugins srv) path 0 w0) as (_ & evs & Ht & Hevs).
    exists e, evs. split_and!; [|done..].
    destruct (Server.watch_loop 0 (Server.plugins srv) path w0); by simplify_eq/=. }
  destruct (clock w) as [|t ts]; cbn.
  - match goal with
    | |- context [Server.watch_loop 0 _ path ?w0] =>
        destruct (Hloop w0) as (e & evs & -> & Ht & Hevs)
    end.
    exists e, evs. split_and!; [done| |done]. by rewrite Ht /= -!app_assoc.
  - match goal with
    | |- context [Server.watch_loop 0 _ path ?w0] =>
        destruct (Hloop w0) as (e & evs & -> & Ht & Hevs)
    end.
    exists e, evs. split_and!; [done| |done]. by rewrite Ht /= -!app_assoc.
Qed.

Lemma failing_watcher_hook_suppresses_broadcast_witness :
  ∃ e,
    fst (Server.onChange (Samples.devServer [Samples.failingWatcher]) "app.ts"
           Samples.twoFileDisk)
    = Throw e.
Proof.
  destruct (failing_watcher_hook_suppresses_broadcast
              (Samples.devServer [Samples.failingWatcher]) "app.ts"
              Samples.twoFileDisk) as (e & _ & He & _).
  - vm_compute. reflexivity.
  - by exists e.
Defined.

Example build_fails_after_writing :
  let R := Build.build 3 (Samples.configOf "./index.ts")
             (Some [Plugins.PluginValue Samples.lateFailure]) Samples.twoFileDisk in
  fst R = Throw (Error "boom")
  ∧ (writes (trace (snd R))).*1 = ["/proj/dist/index.js"; "/proj/dist/util.js"].
Proof. vm_compute. done. Qed.

(* ===================================================================== *)
(** * The transform loop of the build *)
(* ===================================================================== *)

Section build_transforms.
Import Plugins Build.

Lemma transform_loop_app ps qs cfg f content :
  ∀ idx code map w,
    transform_loop idx (ps ++ qs) cfg f content code map w
    = (let* (c, m) := transform_loop idx ps cfg f content code map in
       transform_loop (idx + length ps) qs cfg f content c m) w.
Proof.
  induction ps as [|p ps IH]; intros idx code map w.
  - by rewrite /= /bind /= Nat.add_0_r.
  - cbn [app transform_loop length]. destruct (transform p) as [hook|].
    + rewrite /bind. destruct (tryCatch _ _ w) as [[r|e|] w1]; [|done..].
      destruct (applyResult r code map) as [code' map'].
      by rewrite IH /bind Nat.add_succ_r.
    + by rewrite IH /bind Nat.add_succ_r.
Qed.

Lemma transform_loop_declined ps cfg f content code map :
  transformsDecline ps cfg f content code map = true →
  ∀ idx w,
    transform_loop idx ps cfg f content code map w
    = (Ret (code, map),
       setTrace w (trace w ++
         hookCalls idx ps KTransform
           (ArgBuild {| bc_config := cfg; bc_filePath := f; bc_content := content;
                        bc_code := code; bc_map := map |}))).
Proof.
  induction ps as [|p ps IH]; intros Hall idx w.
  - by rewrite /= /ret setTrace_nil.
  - cbn [transformsDecline forallb] in Hall. apply andb_prop in Hall as [Hp Hps].
    cbn [transform_loop hookCalls hookOf]. destruct (transform p) as [hook|].
    + rewrite /bind /tryCatch /callHook /bind /=.
      destruct (hook _) as [v|e]; last done.
      apply negb_true_iff in Hp. rewrite /ret /= /applyResult Hp.
      by rewrite IH // setTrace_app.
    + by rewrite IH.
Qed.

End build_transforms.

(** The transform loop of the build composes, and declining plugins are
    transparent.  Running the loop over [ps ++ qs] is running it over [ps]
    and then over [qs] from the code and map that [ps] left (with the
    original content throughout).  When every [transform] of a list
    returns [null], [undefined] or the empty string, the code and the map
    come out as they went in, each plugin having been called once. *)
Theorem build_transforms_compose :
  (∀ ps qs cfg f content idx code map w,
     Build.transform_loop idx (ps ++ qs) cfg f content code map w
     = (let* (c, m) := Build.transform_loop idx ps cfg f content code map in
        Build.transform_loop (idx + length ps) qs cfg f content c m) w)
  ∧ (∀ ps cfg f content code map idx w,
       Build.transformsDecline ps cfg f content code map = true →
       Build.transform_loop idx ps cfg f content code map w
       = (Ret (code, map),
          setTrace w (trace w ++
            Plugins.hookCalls idx ps KTransform
              (ArgBuild {| bc_config := cfg; bc_filePath := f;
                           bc_content := content; bc_code := code;
                           bc_map := map |})))).
Proof.
  split.
  - intros. apply transform_loop_app.
  - intros. by apply transform_loop_declined.
Qed.

Lemma build_transforms_compose_witness :
  fst (Build.transform_loop 0
         [Samples.constant "blank" ""; barePlugin "none"]
         (Samples.configOf "./index.ts") "/proj/index.ts" "let a;" "let a;" None
         Samples.twoFileDisk)
  = Ret ("let a;", None).
Proof.
  destruct build_transforms_compose as [_ Hdecline].
  rewrite Hdecline.
  - vm_compute. reflexivity.
  - reflexivity.
Defined.

(* ===================================================================== *)
(** * Aliases *)
(* ===================================================================== *)

(** An alias renames, it does not redirect.  For a bare specifier with an
    alias (and no plugin to answer), the [id] of the result is the alias
    target, but the file-system probe still starts from the specifier as
    it was written: the resolved path is the same whatever the target
    is. *)
Theorem alias_renames_without_redirecting :
  ∀ specifier importer cfg table target w,
    Dependency.isBare specifier = true →
    table !! specifier = Some target → Js.truthy target = true →
    Dependency.resolveModuleSpecifier specifier importer
      (Dependency.withAlias cfg table) [] w
    = (Ret {| dep_id := target;
              dep_resolved :=
                Dependency.firstHit w
                  (Dependency.candidates specifier
                     (Dependency.basedirOf w importer) cfg);
              dep_isExternal := false |}, w).
Proof.
  intros specifier importer cfg table target w Hbare Htable Htruthy.
  assert (Dependency.aliasOf (Dependency.withAlias cfg table) specifier
          = Some (IdString target))
    as Halias by by rewrite /Dependency.aliasOf /= Htable Htruthy.
  assert (Dependency.isUrl specifier = false) as Hurl.
  { destruct (Dependency.isUrl specifier) eqn:Hurl; last done.
    apply isUrl_not_bare in Hurl. congruence. }
  rewrite resolveModuleSpecifier_continues.
  { by rewrite /Dependency.continues Hurl Hbare Halias. }
  rewrite /bind /= /Dependency.idOf Hbare Halias /= /Dependency.basedirOf.
  destruct (Js.truthy importer); rewrite /ret /getCwd; cbv beta iota;
    by rewrite resolveWithExtensions_firstHit.
Qed.

Lemma alias_renames_without_redirecting_witness :
  Dependency.resolveModuleSpecifier "util" "/proj/index.ts"
    (Dependency.withAlias (Samples.configOf "./index.ts") {[ "util" := "./util" ]})
    [] Samples.twoFileDisk
  = (Ret {| dep_id := "./util"; dep_resolved := Some "/proj/util.ts";
            dep_isExternal := false |}, Samples.twoFileDisk).
Proof.
  rewrite (alias_renames_without_redirecting "util" "/proj/index.ts"
             (Samples.configOf "./index.ts") {[ "util" := "./util" ]} "./util").
  - vm_compute. reflexivity.
  - vm_compute. reflexivity.
  - vm_compute. reflexivity.
  - vm_compute. reflexivity.
Defined.

Example alias_target_is_not_probed :
  fst (Dependency.resolveModuleSpecifier "@lib" "/proj/index.ts"
         (Dependency.withAlias (Samples.configOf "./index.ts") {[ "@lib" := "./util" ]})
         [] Samples.twoFileDisk)
  = Ret {| dep_id := "./util"; dep_resolved := None; dep_isExternal := false |}.
Proof. vm_compute. reflexivity. Qed.

(* ===================================================================== *)
(** * The resolved configuration *)
(* ===================================================================== *)

Section resolved_config.
Import ConfigMerge.

Lemma normalize_truthy p : Js.truthy (Path.normalize p) = true.
Proof.
  rewrite /Path.normalize.
  repeat (case_bool_decide || case_match); try done.
  all: by destruct (Path.normalizeString _ _).
Qed.

Lemma path_join_truthy parts : Js.truthy (Path.join parts) = true.
Proof. rewrite /Path.join. case_match; [done|apply normalize_truthy]. Qed.

Lemma givenPath_truthy p : Js.truthy p = true → givenPath (Some p) = Some p.
Proof. by rewrite /givenPath => ->. Qed.

Lemma givenPath_Some configPath p :
  givenPath configPath = Some p → givenPath (Some p) = Some p.
Proof.
  destruct configPath as [q|]; last done. rewrite /givenPath.
  destruct (Js.truthy q) eqn:Hq; last done. intros [= <-]. by rewrite Hq.
Qed.

(** The two ways [loadConfigFile] ends. *)
Lemma loadConfigFile_cases L p w :
  (∃ loaded,
     yields L w p loaded ∧ loadConfigFile L p w = (Ret loaded, w))
  ∨ (∃ cause,
       loadConfigFile L p w
       = (Throw (Error ("Failed to load config from " +:+ p)),
          setTrace w (trace w ++
            [EvConsole LError ("Error loading config from " +:+ p +:+ ":")
               (Some cause)]))).
Proof.
  rewrite /loadConfigFile /tryCatch /yields.
  destruct (Js.endsWith p ".json").
  - rewrite /bind /readFile /readFileSync.
    destruct (nodeAt w p) as [[c|]|].
    + destruct (parseJson L c) as [cause|u] eqn:Hparse.
      * right. by exists cause.
      * left. exists u. split; [by exists c|done].
    + right. by eexists.
    + right. by eexists.
  - destruct (importModule L p) as [cause|m].
    + right. by exists cause.
    + left. exists (exported m). split; [by exists m|done].
Qed.

(** The ways [resolveConfig] ends, by the file it settles on. *)
Lemma resolveConfig_cases L configPath overrides w :
  ∃ chosen,
    match givenPath configPath with
    | Some p => chosen = Some p
    | None => Config.findConfigFile (cwd w) w = (Ret chosen, w)
    end
    ∧ match chosen with
      | None =>
          resolveConfig L configPath overrides w
          = (Ret (mergeConfig emptyConfig overrides), w)
      | Some p =>
          (∃ loaded,
             yields L w p loaded
             ∧ resolveConfig L configPath overrides w
               = (match keysOf loaded with
                  | Some keys => Ret (mergeConfig keys overrides)
                  | None =>
                      Throw (Error "Cannot read properties of null (reading 'server')")
                  end, w))
          ∨ (∃ cause,
               resolveConfig L configPath overrides w
               = (Throw (Error ("Failed to load config from " +:+ p)),
                  setTrace w (trace w ++
                    [EvConsole LError
                       ("Error loading config from " +:+ p +:+ ":")
                       (Some cause)])))
      end.
Proof.
  destruct (findConfigFile_loop_spec (cwd w) Config.configFileNames w)
    as (found & Hfound & Hspec).
  set (chosen := match givenPath configPath with
                 | Some p => Some p
                 | None => found
                 end).
  assert ((match givenPath configPath with
           | Some p => ret (Some p)
           | None => let* dir := getCwd in Config.findConfigFile dir
           end) w = (Ret chosen, w)) as Hfirst.
  { rewrite /chosen. destruct (givenPath configPath); first done.
    by rewrite /bind /getCwd /Config.findConfigFile Hfound. }
  exists chosen. split.
  { rewrite /chosen. by destruct (givenPath configPath). }
  rewrite /resolveConfig !(bind_eq _ _ _ _ _ Hfirst).
  assert (match chosen with Some p => givenPath (Some p) = Some p | None => True end)
    as Htruthy.
  { rewrite /chosen. destruct (givenPath configPath) as [p|] eqn:Hgiven.
    - by apply givenPath_Some in Hgiven.
    - destruct found as [p|]; last done.
      destruct Hspec as (i & name & _ & -> & _).
      apply givenPath_truthy, path_join_truthy. }
  destruct chosen as [p|]; last done.
  rewrite Htruthy /bind.
  destruct (loadConfigFile_cases L p w) as [(loaded & Hloaded & ->)|[cause ->]].
  - left. exists loaded. split; first done. by destruct (keysOf loaded).
  - right. by exists cause.
Qed.

Lemma resolveConfig_returns L configPath overrides w merged w' :
  resolveConfig L configPath overrides w = (Ret merged, w') →
  ∃ userConfig, merged = mergeConfig userConfig overrides.
Proof.
  intros Hrun.
  destruct (resolveConfig_cases L configPath overrides w) as (chosen & _ & Hc).
  destruct chosen as [p|].
  - destruct Hc as [(loaded & _ & Hu)|[cause Hcause]];
      rewrite Hrun in Hu || rewrite Hrun in Hcause.
    + destruct (keysOf loaded) as [keys|]; last done.
      exists keys. by injection Hu.
    + done.
  - rewrite Hrun in Hc. exists emptyConfig. by injection Hc.
Qed.

End resolved_config.

(** How [resolveConfig] ends.  A truthy [configPath] is taken as it is,
    without a look at the disk; otherwise the working directory is
    searched.  With no file, the defaults and the overrides are merged.
    With a file there are three ways.  The file loads (a [.json] file is
    read and parsed, of any other module the [default] export is taken,
    or the module itself when that is falsy) and yields an object, or a
    primitive or an array, which counts as an object without keys: the
    defaults, its keys and the overrides are merged.  The file loads and
    yields [null] (as the text [null] of a [.json] file does): reading
    [userConfig.server] throws a [TypeError], outside the [try] of
    [loadConfigFile], so nothing is logged.  Or loading fails (a file that
    cannot be read, text that does not parse, a module that does not
    load): the failure is written to the console and a new error naming
    the path is thrown in its place.  The disk is left as it was. *)
Theorem resolveConfig_outcome :
  ∀ L configPath overrides w,
    ∃ chosen,
      match ConfigMerge.givenPath configPath with
      | Some p => chosen = Some p
      | None => Config.findConfigFile (cwd w) w = (Ret chosen, w)
      end
      ∧ match chosen with
        | None =>
            ConfigMerge.resolveConfig L configPath overrides w
            = (Ret (ConfigMerge.mergeConfig ConfigMerge.emptyConfig overrides), w)
        | Some p =>
            (∃ loaded,
               ConfigMerge.yields L w p loaded
               ∧ ConfigMerge.resolveConfig L configPath overrides w
                 = (match loaded with
                    | ConfigMerge.LObject keys =>
                        Ret (ConfigMerge.mergeConfig keys overrides)
                    | ConfigMerge.LOther _ =>
                        Ret (ConfigMerge.mergeConfig ConfigMerge.emptyConfig
                               overrides)
                    | ConfigMerge.LNull =>
                        Throw (Error "Cannot read properties of null (reading 'server')")
                    end, w))
            ∨ (∃ cause,
                 ConfigMerge.resolveConfig L configPath overrides w
                 = (Throw (Error ("Failed to load config from " +:+ p)),
                    setTrace w (trace w ++
                      [EvConsole LError
                         ("Error loading config from " +:+ p +:+ ":")
                         (Some cause)])))
        end.
Proof.
  intros L configPath overrides w.
  destruct (resolveConfig_cases L configPath overrides w) as (chosen & Hchosen & Hc).
  exists chosen. split; first done. destruct chosen as [p|]; last done.
  destruct Hc as [(loaded & Hloaded & ->)|Hfail]; last by right.
  left. exists loaded. split; first done. by destruct loaded.
Qed.

Example null_config_file_is_a_type_error :
  ConfigMerge.resolveConfig Samples.nullLoaders (Some "/proj/aether.config.json")
    ConfigMerge.emptyConfig Samples.siteDisk
  = (Throw (Error "Cannot read properties of null (reading 'server')"),
     Samples.siteDisk).
Proof. vm_compute. reflexivity. Qed.

(** A flag that was not given still overrides.  The commands pass their
    flags as keys that are always present, so an absent flag reaches the
    merge as [undefined] and replaces what the configuration file and the
    defaults say.  After [dev], [server.port], [server.host] and
    [server.open] are the flags, given or not, and [plugins] is the
    TypeScript plugin alone; after [build], [outDir] and [optimize.target]
    are the flags, given or not, and [plugins] likewise; after [serve],
    [outDir] is the [--dir] flag or [dist], never the configured
    directory. *)
Theorem command_flags_replace_configured_values :
  ∀ L typescript w,
    (∀ options merged w',
       ConfigMerge.devConfig L typescript options w = (Ret merged, w') →
       ∃ server,
         ConfigMerge.co_server merged = ConfigMerge.Present (Some server)
         ∧ ConfigMerge.read (ConfigMerge.so_port server) = ConfigMerge.dev_port options
         ∧ ConfigMerge.read (ConfigMerge.so_host server) = ConfigMerge.dev_host options
         ∧ ConfigMerge.read (ConfigMerge.so_open server) = ConfigMerge.dev_open options
         ∧ ConfigMerge.read (ConfigMerge.co_plugins merged)
           = Some [Plugins.PluginValue typescript])
    ∧ (∀ options merged w',
         ConfigMerge.buildConfig L typescript options w = (Ret merged, w') →
         ∃ optimize,
           ConfigMerge.co_optimize merged = ConfigMerge.Present (Some optimize)
           ∧ ConfigMerge.read (ConfigMerge.co_outDir merged)
             = ConfigMerge.givenPath (ConfigMerge.build_outDir options)
           ∧ ConfigMerge.read (ConfigMerge.oo_target optimize)
             = ConfigMerge.build_target options
           ∧ ConfigMerge.read (ConfigMerge.oo_minify optimize)
             = Some (negb (bool_decide (ConfigMerge.build_minify options = Some false)))
           ∧ ConfigMerge.read (ConfigMerge.co_plugins merged)
             = Some [Plugins.PluginValue typescript])
    ∧ (∀ options merged w',
         ConfigMerge.serveConfig L options w = (Ret merged, w') →
         ConfigMerge.read (ConfigMerge.co_outDir merged)
         = Some (default "dist" (ConfigMerge.givenPath (ConfigMerge.serve_dir options)))).
Proof.
  intros L typescript w. split_and!.
  - intros options merged w' (u & ->)%resolveConfig_returns.
    eexists. split; first reflexivity. done.
  - intros options merged w' (u & ->)%resolveConfig_returns.
    eexists. split; first reflexivity. done.
  - by intros options merged w' (u & ->)%resolveConfig_returns.
Qed.

Lemma command_flags_replace_configured_values_witness :
  ∃ merged server,
    fst (ConfigMerge.devConfig Samples.settingsLoaders Samples.typescriptStub
           Samples.devNoFlags Samples.siteDisk) = Ret merged
    ∧ ConfigMerge.co_server merged = ConfigMerge.Present (Some server)
    ∧ ConfigMerge.read (ConfigMerge.so_port server) = None
    ∧ ConfigMerge.read (ConfigMerge.so_watch server) = Some ["src/**/*"].
Proof.
  destruct (command_flags_replace_configured_values Samples.settingsLoaders
              Samples.typescriptStub Samples.siteDisk) as (Hdev & _ & _).
  destruct (Hdev Samples.devNoFlags
              (ConfigMerge.mergeConfig Samples.userSettings
                 (ConfigMerge.devOverrides Samples.typescriptStub Samples.devNoFlags))
              Samples.siteDisk) as (server & Hserver & Hport & _).
  - vm_compute. reflexivity.
  - exists (ConfigMerge.mergeConfig Samples.userSettings
              (ConfigMerge.devOverrides Samples.typescriptStub Samples.devNoFlags)),
           server.
    split_and!; [by vm_compute|done|done|].
    injection Hserver as <-. by vm_compute.
Defined.

(* ===================================================================== *)
(** * Paths as lists of segments *)
(* ===================================================================== *)

Section segments.
Import Path.

















End segments.

(* ===================================================================== *)
(** * The steps of [build], and where the outputs go *)
(* ===================================================================== *)

Section build_order.
Import Plugins Dependency Build Graph.






End build_order.




Example shared_module_is_written_beside_the_root :
  let R := Build.build 2 (Samples.configOf "../lib/x.ts") None Samples.sharedDisk in
  fst R = Ret tt
  ∧ writes (trace (snd R)) = [("/proj/lib/x.js", "export const x = 1;")]
  ∧ Path.resolve "/proj" ["/proj"; outDir (Samples.configOf "../lib/x.ts")]
    = "/proj/dist".
Proof. vm_compute. done. Qed.
